(** * dragonshell: a shallow embedding of [main.c] and its job-control claims

    The C program is an interactive command interpreter.  Its functions are
    embedded as programs over the primitive actions of a UNIX process
    (system calls, C library calls and accesses to the program's global
    variables); a small operating-system model gives those actions a meaning:
    descriptor tables, children that terminate at arbitrary moments, signals
    that arrive between any two actions of the interpreter. *)

From Stdlib Require Import ZArith Lia Ascii String.
From stdpp Require Import base gmap strings list.

Open Scope Z_scope.

(** ** Constants of the C library the source uses (Linux x86-64 values) *)

Definition STDIN_FILENO : Z := 0.
Definition STDOUT_FILENO : Z := 1.
Definition EXIT_SUCCESS : Z := 0.
Definition EXIT_FAILURE : Z := 1.
Definition SIGINT : Z := 2.
Definition SIGTERM : Z := 15.
Definition SIGTSTP : Z := 20.
Definition O_RDONLY : Z := 0.
Definition O_WRONLY : Z := 1.
Definition O_CREAT : Z := 64.
Definition O_TRUNC : Z := 512.
(** 0644 in octal *)
Definition MODE_0644 : Z := 420.

(** The [#define]s of the source. *)
Definition MAX_BG_PROC : nat := 1.
Definition LSH_TOK_BUFSIZE : Z := 64.

(** [long] is 64 bits wide; additions on the CPU-time totals wrap. *)
Definition LONG_MAX : Z := 2 ^ 63 - 1.
Definition wrap_long (z : Z) : Z := (z + 2 ^ 63) mod 2 ^ 64 - 2 ^ 63.

(** ** Strings *)

Definition chr (n : nat) : string := String (ascii_of_nat n) EmptyString.
Definition nl : string := chr 10.
Definition dquote : string := chr 34.

(** [LSH_TOK_DELIM]: space, tab, carriage return, newline, bell. *)
Definition LSH_TOK_DELIM : list ascii :=
  ascii_of_nat <$> [32; 9; 13; 10; 7]%nat.

Definition is_delim (c : ascii) : bool :=
  existsb (Ascii.eqb c) LSH_TOK_DELIM.

Definition push_char (cur : option string) (c : ascii) : option string :=
  Some (match cur with
        | Some t => t +:+ String c EmptyString
        | None => String c EmptyString
        end).

(** The successive results of [strtok(line, LSH_TOK_DELIM)],
    [strtok(NULL, LSH_TOK_DELIM)], ...: the maximal runs of non-delimiter
    characters.  [cur] is the token being read. *)
Fixpoint strtok_from (cur : option string) (line : string) : list string :=
  match line with
  | EmptyString => match cur with Some t => [t] | None => [] end
  | String c rest =>
      if is_delim c then
        match cur with
        | Some t => t :: strtok_from None rest
        | None => strtok_from None rest
        end
      else strtok_from (push_char cur c) rest
  end.

Definition strtok_all (line : string) : list string := strtok_from None line.

(** [strstr(input, "|")] followed by the split of [is_pipe]: the text before
    the first bar and the text after it. *)
Fixpoint is_pipe (input : string) : option (string * string) :=
  match input with
  | EmptyString => None
  | String c rest =>
      if Ascii.eqb c (ascii_of_nat 124) then Some (EmptyString, rest)
      else match is_pipe rest with
           | Some (cmd1, cmd2) => Some (String c cmd1, cmd2)
           | None => None
           end
  end.

(** ** Argument vectors

    A [char **] is a sequence of slots, each a string or [NULL].  The list
    holds the slots the program has initialised; reading a slot beyond it
    is a read outside the vector. *)

Abbreviation argv := (list (option string)).

Definition null_terminated (args : argv) : Prop := None ∈ args.

(** What [split_line] hands out for a list of tokens. *)
Definition vector_of (toks : list string) : argv := (Some <$> toks) ++ [None].

Inductive scan_result :=
| ScanHit (i : nat)     (* args[i] is the token looked for *)
| ScanEnd               (* the loop met the NULL slot *)
| ScanOverrun.          (* the loop left the vector without meeting NULL *)

(** [for (int i = 0; args[i] != NULL; i++) if (strcmp(args[i], tok) == 0) ...]
    started at index [i] on the slots from [i] on. *)
Fixpoint scan_from (tok : string) (i : nat) (slots : argv) : scan_result :=
  match slots with
  | [] => ScanOverrun
  | None :: _ => ScanEnd
  | Some a :: slots' =>
      if String.eqb a tok then ScanHit i else scan_from tok (S i) slots'
  end.

Definition scan (tok : string) (args : argv) : scan_result :=
  scan_from tok 0 args.

(** The strings [execvp] reads from its second argument: the slots up to
    the first [NULL]; [None] when there is no [NULL] to stop at. *)
Fixpoint strings_until_null (args : argv) : option (list string) :=
  match args with
  | [] => None
  | None :: _ => Some []
  | Some a :: args' => cons a <$> strings_until_null args'
  end.

(** [is_background_process]: the vector after the call and the value
    returned; [None] when the scan leaves the vector. *)
Definition is_background_process (args : argv) : option (argv * Z) :=
  match scan "&" args with
  | ScanHit i => Some (<[i := None]> args, 1)
  | ScanEnd => Some (args, 0)
  | ScanOverrun => None
  end.

(** ** Programs

    The global variables of [main.c]. *)
Inductive gvar :=
| G_bg_processes (i : nat)
| G_bg_count
| G_total_user_time
| G_total_sys_time
| G_shell_pid
| G_child_pid.

(** The two functions the source installs with [signal]. *)
Inductive handler := H_sigint | H_sigtstp.

Inductive parg := PInt (z : Z) | PStr (s : string).

(** The primitive actions whose result is an [int] (or is not used). *)
Inductive action :=
| SysFork
| SysWaitpid (pid : Z)                 (* waitpid(pid, NULL, 0) *)
| SysExecvp (file : option string) (args : list string)
| SysOpen (path : option string) (flags : Z) (mode : option Z)
| SysDup2 (oldfd newfd : Z)
| SysClose (fd : Z)
| SysKill (pid sig : Z)
| SysChdir (path : string)
| SysGetpid
| SysSignal (sig : Z) (h : handler)
| SysAlloc                             (* malloc, realloc: 0 stands for NULL *)
| SysFeof
| SysPrintf (fmt : string) (args : list parg)
| SysEprintf (msg : string)            (* fprintf(stderr, msg) *)
| SysPerror (msg : string)
| SysFflush
| GGet (x : gvar)
| GSet (x : gvar) (v : Z).

Inductive fault :=
| OutOfBounds      (* a read outside an argument vector or a global array *)
| NullDeref.       (* the C library was handed NULL for a string it reads *)

(** A program is a tree: what it does next, and how it goes on from each
    result.  [free] has no effect a claim can see and is left out. *)
Inductive prog (R : Type) : Type :=
| Ret (r : R)
| Fault (why : fault)
| Exit (status : Z)
| Act (a : action) (k : Z → prog R)
| Pipe (k : Z → Z → Z → prog R)        (* return code, pipefd[0], pipefd[1] *)
| Getrusage (k : Z → Z → prog R)       (* RUSAGE_CHILDREN: ru_utime.tv_sec, ru_stime.tv_sec *)
| Getcwd (k : option string → prog R)
| Getline (k : option string → prog R).

Arguments Ret {R} r.
Arguments Fault {R} why.
Arguments Exit {R} status.
Arguments Act {R} a k.
Arguments Pipe {R} k.
Arguments Getrusage {R} k.
Arguments Getcwd {R} k.
Arguments Getline {R} k.

Fixpoint bind {A B} (p : prog A) (f : A → prog B) : prog B :=
  match p with
  | Ret r => f r
  | Fault why => Fault why
  | Exit c => Exit c
  | Act a k => Act a (λ r, bind (k r) f)
  | Pipe k => Pipe (λ rc rd wr, bind (k rc rd wr) f)
  | Getrusage k => Getrusage (λ ut st, bind (k ut st) f)
  | Getcwd k => Getcwd (λ r, bind (k r) f)
  | Getline k => Getline (λ r, bind (k r) f)
  end.

Notation "'do' x <- p ; q" := (bind p (λ x, q))
  (at level 10, x pattern, p at level 100, q at level 200,
   format "'[v' 'do'  x  <-  p ; '/' q ']'").

(** A call whose result the source drops. *)
Definition call {R} (a : action) (k : prog R) : prog R := Act a (λ _, k).

(** ** The functions of [main.c] *)

Definition alloc_failed {R} : prog R :=
  call (SysEprintf ("lsh: allocation error" +:+ nl)) (Exit EXIT_FAILURE).

Definition read_line : prog string :=
  Getline (λ r,
    match r with
    | Some line => Ret line
    | None =>
        Act SysFeof (λ eof,
          if negb (eof =? 0) then Exit EXIT_SUCCESS
          else call (SysPerror "Error in getline()") (Exit EXIT_FAILURE))
    end).

(** The [while (token != NULL)] loop of [split_line], over the tokens
    [strtok] still has to give; [acc] is [tokens[0 .. position-1]]. *)
Fixpoint store_tokens (toks : list string) (position bufsize : Z)
    (acc : list string) : prog (list string) :=
  match toks with
  | [] => Ret acc
  | token :: toks' =>
      let acc := acc ++ [token] in
      let position := position + 1 in
      if position >=? bufsize then
        let bufsize := bufsize + LSH_TOK_BUFSIZE in
        Act SysAlloc (λ tokens,
          if tokens =? 0 then alloc_failed
          else store_tokens toks' position bufsize acc)
      else store_tokens toks' position bufsize acc
  end.

Definition split_line (line : string) : prog argv :=
  Act SysAlloc (λ tokens,
    if tokens =? 0 then alloc_failed
    else
      do toks <- store_tokens (strtok_all line) 0 LSH_TOK_BUFSIZE [];
      Ret (vector_of toks)).

Definition cd (path : option string) : prog unit :=
  match path with
  | None =>
      call (SysPrintf ("dragonshell: Expected argument to " +:+ dquote +:+ "cd"
                       +:+ dquote +:+ nl) []) (Ret tt)
  | Some path =>
      Act (SysChdir path) (λ r,
        if negb (r =? 0) then call (SysPerror "dragonshell") (Ret tt)
        else Ret tt)
  end.

Definition pwd : prog unit :=
  Getcwd (λ r,
    match r with
    | Some cwd => call (SysPrintf ("%s" +:+ nl) [PStr cwd]) (Ret tt)
    | None => call (SysPerror "dragonshell") (Ret tt)
    end).

(** [x += d] on a [long] global. *)
Definition add_to {R} (x : gvar) (d : Z) (k : prog R) : prog R :=
  Act (GGet x) (λ v, call (GSet x (wrap_long (v + d))) k).

(** The [for] loop of [exit_shell] over the indices it visits. *)
Fixpoint kill_background {R} (idxs : list nat) (k : prog R) : prog R :=
  match idxs with
  | [] => k
  | i :: idxs' =>
      Act (GGet (G_bg_processes i)) (λ p,
        if negb (p =? -1) then call (SysKill p SIGTERM) (kill_background idxs' k)
        else kill_background idxs' k)
  end.

Definition exit_shell : prog unit :=
  Getrusage (λ ut st,
    add_to G_total_user_time ut (
    add_to G_total_sys_time st (
    Act (GGet G_total_user_time) (λ u,
    call (SysPrintf ("User time: %ld seconds" +:+ nl) [PInt u]) (
    Act (GGet G_total_sys_time) (λ s,
    call (SysPrintf ("Sys time: %ld seconds" +:+ nl) [PInt s]) (
    kill_background (seq 0 MAX_BG_PROC) (Exit 0)))))))).

Definition prompt_again : prog unit :=
  call (SysPrintf (nl +:+ "dragonshell > ") []) (call SysFflush (Ret tt)).

Definition sigint_handler (sig : Z) : prog unit :=
  Act (GGet G_child_pid) (λ child_pid,
    if negb (child_pid =? -1) then call (SysKill (- child_pid) SIGINT) (Ret tt)
    else prompt_again).

Definition sigtstp_handler (sig : Z) : prog unit :=
  Act (GGet G_child_pid) (λ child_pid,
    if negb (child_pid =? -1) then call (SysKill (- child_pid) SIGTSTP) (Ret tt)
    else prompt_again).

Definition handler_code (h : handler) : Z → prog unit :=
  match h with
  | H_sigint => sigint_handler
  | H_sigtstp => sigtstp_handler
  end.

(** [if (execvp(args[0], args) == -1) perror("dragonshell");] and the
    [exit(EXIT_FAILURE)] that follows it. *)
Definition exec_or_die (args : argv) : prog unit :=
  match args !! 0%nat, strings_until_null args with
  | Some file, Some strs =>
      Act (SysExecvp file strs) (λ r,
        if r =? -1 then call (SysPerror "dragonshell") (Exit EXIT_FAILURE)
        else Exit EXIT_FAILURE)
  | _, _ => Fault OutOfBounds
  end.

Definition pipe_child1 (cmd1 : string) (rd wr : Z) : prog unit :=
  call (SysClose rd) (
  call (SysDup2 wr STDOUT_FILENO) (
  call (SysClose wr) (
  do args1 <- split_line cmd1;
  exec_or_die args1))).

Definition pipe_child2 (cmd2 : string) (rd wr : Z) : prog unit :=
  call (SysClose wr) (
  call (SysDup2 rd STDIN_FILENO) (
  call (SysClose rd) (
  do args2 <- split_line cmd2;
  exec_or_die args2))).

Definition pipe_parent (rd wr p1 p2 : Z) : prog unit :=
  call (SysClose rd) (
  call (SysClose wr) (
  call (SysWaitpid p1) (
  call (SysWaitpid p2) (Ret tt)))).

(** [execute_pipe], from the inside out: what follows the first [fork] in
    the parent, what follows [pipe], and the function itself. *)
Definition pipe_second_fork (cmd2 : string) (rd wr p1 : Z) : prog unit :=
  Act SysFork (λ p2,
    if p2 =? 0 then pipe_child2 cmd2 rd wr
    else if p2 <? 0 then call (SysPerror "dragonshell: fork failed") (Ret tt)
    else pipe_parent rd wr p1 p2).

Definition pipe_first_fork (cmd1 cmd2 : string) (rd wr : Z) : prog unit :=
  Act SysFork (λ p1,
    if p1 =? 0 then pipe_child1 cmd1 rd wr
    else if p1 <? 0 then call (SysPerror "dragonshell: fork failed") (Ret tt)
    else pipe_second_fork cmd2 rd wr p1).

Definition execute_pipe (cmd1 cmd2 : string) : prog unit :=
  Pipe (λ rc rd wr,
    if rc =? -1 then call (SysPerror "dragonshell: pipe failed") (Ret tt)
    else pipe_first_fork cmd1 cmd2 rd wr).

(** One of the two redirection loops of [execute_command]: the descriptor
    it leaves in [output_fd] / [input_fd] (-1 when the loop meets no
    operator) and the vector as the loop leaves it. *)
Definition open_redirection (tok : string) (flags : Z) (mode : option Z)
    (args : argv) : prog (Z * argv) :=
  match scan tok args with
  | ScanHit i =>
      match args !! S i with
      | Some name =>
          Act (SysOpen name flags mode) (λ fd,
            if fd =? -1 then call (SysPerror "dragonshell") (Exit EXIT_FAILURE)
            else Ret (fd, <[i := None]> args))
      | None => Fault OutOfBounds
      end
  | ScanEnd => Ret (-1, args)
  | ScanOverrun => Fault OutOfBounds
  end.

(** [if (fd != -1) { dup2(fd, target); close(fd); }] *)
Definition bind_descriptor (fd target : Z) : prog unit :=
  if negb (fd =? -1) then call (SysDup2 fd target) (call (SysClose fd) (Ret tt))
  else Ret tt.

Definition OUTPUT_FLAGS : Z := Z.lor (Z.lor O_WRONLY O_CREAT) O_TRUNC.

(** The [pid == 0] branch of [execute_command]. *)
Definition execute_command_child (args : argv) : prog unit :=
  do (output_fd, args) <- open_redirection ">" OUTPUT_FLAGS (Some MODE_0644) args;
  do _ <- bind_descriptor output_fd STDOUT_FILENO;
  do (input_fd, args) <- open_redirection "<" O_RDONLY None args;
  do _ <- bind_descriptor input_fd STDIN_FILENO;
  exec_or_die args.

(** The [pid > 0] branch. *)
Definition execute_command_parent (pid background : Z) : prog unit :=
  if background =? 0 then
    call (SysWaitpid pid) (
    Getrusage (λ ut st,
      add_to G_total_user_time ut (
      add_to G_total_sys_time st (Ret tt))))
  else
    call (SysPrintf ("PID %d is sent to background" +:+ nl) [PInt pid]) (Ret tt).

Definition execute_command (args : argv) (background : Z) : prog unit :=
  Act SysFork (λ pid,
    if pid =? 0 then execute_command_child args
    else if pid >? 0 then execute_command_parent pid background
    else call (SysPerror "dragonshell") (Ret tt)).

(** What [main] does before its loop. *)
Definition main_init : prog unit :=
  Act SysGetpid (λ pid,
  call (GSet G_shell_pid pid) (
  call (SysSignal SIGINT H_sigint) (
  call (SysSignal SIGTSTP H_sigtstp) (
  call (SysPrintf ("Welcome to Dragon Shell!" +:+ nl) []) (Ret tt))))).

(** The [else] branch of the loop body: a line without a bar. *)
Definition run_tokens (tokens : argv) : prog unit :=
  match tokens !! 0%nat with
  | None => Fault OutOfBounds
  | Some None => Ret tt                                   (* continue *)
  | Some (Some t0) =>
      if String.eqb t0 "cd" then
        match tokens !! 1%nat with
        | Some path => cd path
        | None => Fault OutOfBounds
        end
      else if String.eqb t0 "pwd" then pwd
      else if String.eqb t0 "exit" then exit_shell
      else
        match is_background_process tokens with
        | Some (tokens, background) => execute_command tokens background
        | None => Fault OutOfBounds
        end
  end.

(** One turn of [while (1)]. *)
Definition main_body : prog unit :=
  call (SysPrintf "dragonshell > " []) (
  do input <- read_line;
  match is_pipe input with
  | Some (cmd1, cmd2) => execute_pipe cmd1 cmd2
  | None =>
      do tokens <- split_line input;
      run_tokens tokens
  end).

(** ** The operating system, as far as the source relies on it *)

(** What a descriptor refers to. *)
Inductive fobj :=
| FInherited                                  (* open since before the shell started *)
| FFile (path : option string) (flags : Z)
| FPipeRead (id : nat)
| FPipeWrite (id : nat).

(** The values of the global variables. *)
Record globals := {
  bg_processes : list Z;
  bg_count : Z;
  total_user_time : Z;
  total_sys_time : Z;
  shell_pid : Z;
  child_pid : Z;
}.

(** Their initialisers in the source ([shell_pid] has none and starts
    at 0). *)
Definition initial_globals : globals :=
  {| bg_processes := [-1]; bg_count := 0; total_user_time := 0;
     total_sys_time := 0; shell_pid := 0; child_pid := -1 |}.

Definition global_get (g : globals) (x : gvar) : option Z :=
  match x with
  | G_bg_processes i => bg_processes g !! i
  | G_bg_count => Some (bg_count g)
  | G_total_user_time => Some (total_user_time g)
  | G_total_sys_time => Some (total_sys_time g)
  | G_shell_pid => Some (shell_pid g)
  | G_child_pid => Some (child_pid g)
  end.

Definition global_set (g : globals) (x : gvar) (v : Z) : option globals :=
  match x with
  | G_bg_processes i =>
      if decide (i < length (bg_processes g))%nat then
        Some {| bg_processes := <[i := v]> (bg_processes g);
                bg_count := bg_count g; total_user_time := total_user_time g;
                total_sys_time := total_sys_time g; shell_pid := shell_pid g;
                child_pid := child_pid g |}
      else None
  | G_bg_count =>
      Some {| bg_processes := bg_processes g; bg_count := v;
              total_user_time := total_user_time g;
              total_sys_time := total_sys_time g; shell_pid := shell_pid g;
              child_pid := child_pid g |}
  | G_total_user_time =>
      Some {| bg_processes := bg_processes g; bg_count := bg_count g;
              total_user_time := v; total_sys_time := total_sys_time g;
              shell_pid := shell_pid g; child_pid := child_pid g |}
  | G_total_sys_time =>
      Some {| bg_processes := bg_processes g; bg_count := bg_count g;
              total_user_time := total_user_time g; total_sys_time := v;
              shell_pid := shell_pid g; child_pid := child_pid g |}
  | G_shell_pid =>
      Some {| bg_processes := bg_processes g; bg_count := bg_count g;
              total_user_time := total_user_time g;
              total_sys_time := total_sys_time g; shell_pid := v;
              child_pid := child_pid g |}
  | G_child_pid =>
      Some {| bg_processes := bg_processes g; bg_count := bg_count g;
              total_user_time := total_user_time g;
              total_sys_time := total_sys_time g; shell_pid := shell_pid g;
              child_pid := v |}
  end.

(** What a process has done that the outside can see: its calls, with
    their results, in order. *)
Inductive event :=
| EvAct (a : action) (r : Z)
| EvPipe (rc rd wr : Z)
| EvGetrusage (ut st : Z)
| EvGetcwd (r : option string)
| EvGetline (r : option string).

(** The state of one process. *)
Record pstate := {
  fds : gmap Z fobj;              (* its descriptor table *)
  pipes_made : nat;               (* names the next pipe it creates *)
  cwd : string;
  mem : globals;
  handlers : gmap Z handler;      (* dispositions set with [signal] *)
  log : list event;
}.

Definition with_fds (st : pstate) (t : gmap Z fobj) : pstate :=
  {| fds := t; pipes_made := pipes_made st; cwd := cwd st; mem := mem st;
     handlers := handlers st; log := log st |}.
Definition with_pipes_made (st : pstate) (n : nat) : pstate :=
  {| fds := fds st; pipes_made := n; cwd := cwd st; mem := mem st;
     handlers := handlers st; log := log st |}.
Definition with_cwd (st : pstate) (d : string) : pstate :=
  {| fds := fds st; pipes_made := pipes_made st; cwd := d; mem := mem st;
     handlers := handlers st; log := log st |}.
Definition with_mem (st : pstate) (g : globals) : pstate :=
  {| fds := fds st; pipes_made := pipes_made st; cwd := cwd st; mem := g;
     handlers := handlers st; log := log st |}.
Definition with_handlers (st : pstate) (h : gmap Z handler) : pstate :=
  {| fds := fds st; pipes_made := pipes_made st; cwd := cwd st; mem := mem st;
     handlers := h; log := log st |}.
Definition with_log (st : pstate) (l : list event) : pstate :=
  {| fds := fds st; pipes_made := pipes_made st; cwd := cwd st; mem := mem st;
     handlers := handlers st; log := l |}.
Definition logged (st : pstate) (e : event) : pstate :=
  with_log st (log st ++ [e]).

(** Everything the system decides and the program cannot: which files
    open, which programs exist, whether memory and process slots are left,
    what the user types, how much CPU time the children have used. *)
Record world := {
  can_open : option string → Z → bool;
  can_exec : string → list string → bool;
  fork_result : option Z;                  (* the new process id, if any *)
  pipe_ok : bool;
  chdir_to : string → option string;       (* the directory a path leads to *)
  getcwd_ok : bool;
  alloc_ok : bool;
  next_line : option string;               (* what getline reads *)
  at_eof : bool;
  rusage_children : Z * Z;
  self_pid : Z;
}.

(** The lowest descriptor not in use: the search tries 0, 1, ... and needs
    at most as many tries as there are descriptors in use. *)
Fixpoint first_free (t : gmap Z fobj) (tries : nat) (fd : Z) : Z :=
  match tries with
  | O => fd
  | S n => match t !! fd with
           | None => fd
           | Some _ => first_free t n (fd + 1)
           end
  end.

Definition lowest_free (t : gmap Z fobj) : Z := first_free t (size t) 0.
Arguments lowest_free : simpl never.

Inductive act_result :=
| Returns (st : pstate) (r : Z)
| Replaced (file : string) (args : list string) (st : pstate)   (* execvp succeeded *)
| Faults (why : fault)
| NeedsSystem.   (* fork and waitpid: other processes are involved *)

Definition do_act (w : world) (st : pstate) (a : action) : act_result :=
  match a with
  | SysFork | SysWaitpid _ => NeedsSystem
  | SysExecvp None _ => Faults NullDeref
  | SysExecvp (Some file) args =>
      if can_exec w file args then Replaced file args (logged st (EvAct a 0))
      else Returns (logged st (EvAct a (-1))) (-1)
  | SysOpen path flags mode =>
      if can_open w path flags then
        let fd := lowest_free (fds st) in
        Returns (logged (with_fds st (<[fd := FFile path flags]> (fds st)))
                        (EvAct a fd)) fd
      else Returns (logged st (EvAct a (-1))) (-1)
  | SysDup2 oldfd newfd =>
      match fds st !! oldfd with
      | Some o =>
          Returns (logged (with_fds st (<[newfd := o]> (fds st))) (EvAct a newfd))
                  newfd
      | None => Returns (logged st (EvAct a (-1))) (-1)
      end
  | SysClose fd =>
      let r := match fds st !! fd with Some _ => 0 | None => -1 end in
      Returns (logged (with_fds st (delete fd (fds st))) (EvAct a r)) r
  | SysChdir path =>
      match chdir_to w path with
      | Some d => Returns (logged (with_cwd st d) (EvAct a 0)) 0
      | None => Returns (logged st (EvAct a (-1))) (-1)
      end
  | SysGetpid => Returns (logged st (EvAct a (self_pid w))) (self_pid w)
  | SysSignal sig h =>
      Returns (logged (with_handlers st (<[sig := h]> (handlers st))) (EvAct a 0)) 0
  | SysAlloc =>
      let r := if alloc_ok w then 1 else 0 in
      Returns (logged st (EvAct a r)) r
  | SysFeof =>
      let r := if at_eof w then 1 else 0 in
      Returns (logged st (EvAct a r)) r
  | SysKill _ _ | SysPrintf _ _ | SysEprintf _ | SysPerror _ | SysFflush =>
      Returns (logged st (EvAct a 0)) 0
  | GGet x =>
      match global_get (mem st) x with
      | Some v => Returns st v
      | None => Faults OutOfBounds
      end
  | GSet x v =>
      match global_set (mem st) x v with
      | Some g => Returns (with_mem st g) 0
      | None => Faults OutOfBounds
      end
  end.

(** [pipe(pipefd)]: on success the two lowest free descriptors, the read
    end first.  On failure the array is not written; the source does not
    read it then. *)
Definition do_pipe (w : world) (st : pstate) : pstate * (Z * Z * Z) :=
  if pipe_ok w then
    let rd := lowest_free (fds st) in
    let t := <[rd := FPipeRead (pipes_made st)]> (fds st) in
    let wr := lowest_free t in
    let t := <[wr := FPipeWrite (pipes_made st)]> t in
    (logged (with_pipes_made (with_fds st t) (S (pipes_made st))) (EvPipe 0 rd wr),
     (0, rd, wr))
  else (logged st (EvPipe (-1) 0 0), (-1, 0, 0)).

Definition do_getrusage (w : world) (st : pstate) : pstate * (Z * Z) :=
  (logged st (EvGetrusage (rusage_children w).1 (rusage_children w).2),
   rusage_children w).

Definition do_getcwd (w : world) (st : pstate) : pstate * option string :=
  let r := if getcwd_ok w then Some (cwd st) else None in
  (logged st (EvGetcwd r), r).

Definition do_getline (w : world) (st : pstate) : pstate * option string :=
  (logged st (EvGetline (next_line w)), next_line w).

(** How a process that runs on its own ends. *)
Inductive outcome (R : Type) :=
| ODone (r : R) (st : pstate)                                (* the program returned *)
| OExit (status : Z) (st : pstate)
| OExec (file : string) (args : list string) (st : pstate)   (* a new image runs *)
| OFault (why : fault) (st : pstate)
| OBlocked (a : action) (st : pstate).                       (* at a fork or a wait *)

Arguments ODone {R} r st.
Arguments OExit {R} status st.
Arguments OExec {R} file args st.
Arguments OFault {R} why st.
Arguments OBlocked {R} a st.

(** A process on its own, in a world that does not change while it runs:
    a child between [fork] and [execvp], a signal handler, a built-in. *)
Fixpoint run_prog {R} (w : world) (p : prog R) (st : pstate) : outcome R :=
  match p with
  | Ret r => ODone r st
  | Fault why => OFault why st
  | Exit c => OExit c st
  | Act a k =>
      match do_act w st a with
      | Returns st' r => run_prog w (k r) st'
      | Replaced file args st' => OExec file args st'
      | Faults why => OFault why st
      | NeedsSystem => OBlocked a st
      end
  | Pipe k =>
      let '(st', (rc, rd, wr)) := do_pipe w st in run_prog w (k rc rd wr) st'
  | Getrusage k =>
      let '(st', (ut, stime)) := do_getrusage w st in run_prog w (k ut stime) st'
  | Getcwd k =>
      let '(st', r) := do_getcwd w st in run_prog w (k r) st'
  | Getline k =>
      let '(st', r) := do_getline w st in run_prog w (k r) st'
  end.

Definition final_state {R} (o : outcome R) : pstate :=
  match o with
  | ODone _ st | OExit _ st | OExec _ _ st | OFault _ st | OBlocked _ st => st
  end.

(** ** The shell and its children together *)

Inductive kstatus :=
| KRunning
| KZombie      (* terminated, not yet waited for *)
| KReaped.     (* terminated and waited for *)

(** A child: the program and the state it started with at [fork], and
    how far its life has got. *)
Record kid := {
  k_code : prog unit;
  k_start : pstate;
  k_status : kstatus;
}.

Record system := {
  sh_code : prog unit;                   (* what the shell still has to run *)
  sh_state : pstate;
  kids : gmap Z kid;
  delivered : list (Z * list event);     (* signals handled, and what the handler did *)
}.

Inductive tick :=
| TShell (w : world)             (* the shell performs its next action *)
| TChildExit (pid : Z)           (* a running child terminates *)
| TSignal (w : world) (sig : Z). (* the terminal sends the shell a signal *)

Definition is_live (kids : gmap Z kid) (pid : Z) : bool :=
  match kids !! pid with
  | Some k => match k_status k with KReaped => false | _ => true end
  | None => false
  end.

Definition advance (s : system) (p : prog unit) (st : pstate) : system :=
  {| sh_code := p; sh_state := st; kids := kids s; delivered := delivered s |}.

Definition shell_step (w : world) (s : system) : option system :=
  let st := sh_state s in
  match sh_code s with
  | Ret _ | Fault _ | Exit _ => None
  | Act SysFork k =>
      match fork_result w with
      | Some pid =>
          if (0 <? pid) && negb (is_live (kids s) pid) then
            Some {| sh_code := k pid;
                    sh_state := logged st (EvAct SysFork pid);
                    kids := <[pid := {| k_code := k 0; k_start := st;
                                        k_status := KRunning |}]> (kids s);
                    delivered := delivered s |}
          else None
      | None => Some (advance s (k (-1)) (logged st (EvAct SysFork (-1))))
      end
  | Act (SysWaitpid pid) k =>
      match kids s !! pid with
      | Some kd =>
          match k_status kd with
          | KRunning => None                                  (* the call blocks *)
          | KZombie =>
              Some {| sh_code := k pid;
                      sh_state := logged st (EvAct (SysWaitpid pid) pid);
                      kids := <[pid := {| k_code := k_code kd; k_start := k_start kd;
                                          k_status := KReaped |}]> (kids s);
                      delivered := delivered s |}
          | KReaped =>
              Some (advance s (k (-1)) (logged st (EvAct (SysWaitpid pid) (-1))))
          end
      | None => Some (advance s (k (-1)) (logged st (EvAct (SysWaitpid pid) (-1))))
      end
  | Act a k =>
      match do_act w st a with
      | Returns st' r => Some (advance s (k r) st')
      | _ => None
      end
  | Pipe k =>
      let '(st', (rc, rd, wr)) := do_pipe w st in Some (advance s (k rc rd wr) st')
  | Getrusage k =>
      let '(st', (ut, stime)) := do_getrusage w st in Some (advance s (k ut stime) st')
  | Getcwd k =>
      let '(st', r) := do_getcwd w st in Some (advance s (k r) st')
  | Getline k =>
      let '(st', r) := do_getline w st in Some (advance s (k r) st')
  end.

(** A handler runs to its end on the shell's state; what it did is filed
    under [delivered], apart from the main program's own log.  The
    handlers are installed with [signal], which on Linux restarts an
    interrupted [waitpid]: a handled signal leaves the shell at the call
    it was in.  A signal for which no handler is installed yet has its
    default disposition and is no step of this model. *)
Definition signal_step (w : world) (sig : Z) (s : system) : option system :=
  match handlers (sh_state s) !! sig with
  | Some h =>
      match run_prog w (handler_code h sig) (with_log (sh_state s) []) with
      | ODone _ st' =>
          Some {| sh_code := sh_code s;
                  sh_state := with_log st' (log (sh_state s));
                  kids := kids s;
                  delivered := delivered s ++ [(sig, log st')] |}
      | _ => None
      end
  | None => None
  end.

Definition child_exit_step (pid : Z) (s : system) : option system :=
  match kids s !! pid with
  | Some kd =>
      match k_status kd with
      | KRunning =>
          Some {| sh_code := sh_code s; sh_state := sh_state s;
                  kids := <[pid := {| k_code := k_code kd; k_start := k_start kd;
                                      k_status := KZombie |}]> (kids s);
                  delivered := delivered s |}
      | _ => None
      end
  | None => None
  end.

Definition sys_step (t : tick) (s : system) : option system :=
  match t with
  | TShell w => shell_step w s
  | TChildExit pid => child_exit_step pid s
  | TSignal w sig => signal_step w sig s
  end.

(** A schedule is a list of ticks; it runs as far as every tick is
    possible in the state it meets. *)
Fixpoint sys_run (ts : list tick) (s : system) : option system :=
  match ts with
  | [] => Some s
  | t :: ts' =>
      match sys_step t s with
      | Some s' => sys_run ts' s'
      | None => None
      end
  end.

(** The interactive session: [while (1)] starts its body again whenever
    the body has returned. *)
Definition reenter (s : system) : system :=
  match sh_code s with
  | Ret _ => advance s main_body (sh_state s)
  | _ => s
  end.

Definition session_step (t : tick) (s : system) : option system :=
  sys_step t (reenter s).

Fixpoint session_run (ts : list tick) (s : system) : option system :=
  match ts with
  | [] => Some s
  | t :: ts' =>
      match session_step t s with
      | Some s' => session_run ts' s'
      | None => None
      end
  end.

(** ** Vocabulary of the statements *)

(** A vector as the scans see it: the tokens before the first [NULL],
    that [NULL], and whatever slots follow it. *)
Definition vec (toks : list string) (rest : argv) : argv :=
  (Some <$> toks) ++ None :: rest.

(** Where a token first occurs. *)
Fixpoint first_index (tok : string) (toks : list string) : option nat :=
  match toks with
  | [] => None
  | a :: toks' =>
      if String.eqb a tok then Some 0%nat else S <$> first_index tok toks'
  end.

Definition is_operator (tok : string) : bool :=
  String.eqb tok ">" || String.eqb tok "<".

(** The tokens in front of the first redirection operator. *)
Fixpoint before_operators (toks : list string) : list string :=
  match toks with
  | [] => []
  | a :: toks' => if is_operator a then [] else a :: before_operators toks'
  end.

(** The tokens in front of the first occurrence of [tok]. *)
Definition cut_at (tok : string) (toks : list string) : list string :=
  match first_index tok toks with
  | Some i => take i toks
  | None => toks
  end.

(** The state of a process after [open] has given it a descriptor for
    [name], and after a failed [open] and the [perror] that reports it. *)
Definition after_open (st : pstate) (name : option string) (flags : Z)
    (mode : option Z) : pstate :=
  let fd := lowest_free (fds st) in
  logged (with_fds st (<[fd := FFile name flags]> (fds st)))
         (EvAct (SysOpen name flags mode) fd).

Definition open_failed (st : pstate) (name : option string) (flags : Z)
    (mode : option Z) : pstate :=
  logged (logged st (EvAct (SysOpen name flags mode) (-1)))
         (EvAct (SysPerror "dragonshell") 0).

(** ... after [dup2(fd, target); close(fd)] where [fd] refers to [o]. *)
Definition after_bind (st : pstate) (fd target : Z) (o : fobj) : pstate :=
  logged (with_fds (logged (with_fds st (<[target := o]> (fds st)))
                           (EvAct (SysDup2 fd target) target))
                   (delete fd (<[target := o]> (fds st))))
         (EvAct (SysClose fd) 0).

(** One redirection loop with the [dup2]/[close] after it, read on the
    tokens of the vector: either the tokens and the state the child goes on
    with, or the state it exits in. *)
Definition redirect_stage (w : world) (tok : string) (flags : Z)
    (mode : option Z) (target : Z) (toks : list string) (st : pstate)
    : (list string * pstate) + pstate :=
  match first_index tok toks with
  | None => inl (toks, st)
  | Some i =>
      let name := toks !! S i in
      if can_open w name flags then
        inl (take i toks,
             after_bind (after_open st name flags mode)
                        (lowest_free (fds st)) target (FFile name flags))
      else inr (open_failed st name flags mode)
  end.

Definition exec_on_tokens (w : world) (toks : list string) (st : pstate)
    : outcome unit :=
  match toks with
  | [] => OFault NullDeref st
  | file :: _ =>
      if can_exec w file toks then
        OExec file toks (logged st (EvAct (SysExecvp (Some file) toks) 0))
      else
        OExit EXIT_FAILURE
          (logged (logged st (EvAct (SysExecvp (Some file) toks) (-1)))
                  (EvAct (SysPerror "dragonshell") 0))
  end.

(** The child of [execute_command], read on the tokens of its vector. *)
Definition child_on_tokens (w : world) (toks : list string) (st : pstate)
    : outcome unit :=
  match redirect_stage w ">" OUTPUT_FLAGS (Some MODE_0644) STDOUT_FILENO toks st with
  | inr st' => OExit EXIT_FAILURE st'
  | inl (toks, st) =>
      match redirect_stage w "<" O_RDONLY None STDIN_FILENO toks st with
      | inr st' => OExit EXIT_FAILURE st'
      | inl (toks, st) => exec_on_tokens w toks st
      end
  end.

(** The program image a process ends up running, if any. *)
Definition exec_of {R} (o : outcome R) : option (string * list string) :=
  match o with
  | OExec file args _ => Some (file, args)
  | _ => None
  end.

(** The spec's reading of a redirection: "remove both tokens from the
    vector", the operator and the file name after it, and nothing else. *)
Fixpoint spec_remove_pair (tok : string) (toks : list string) : list string :=
  match toks with
  | [] => []
  | a :: toks' =>
      if String.eqb a tok then tail toks' else a :: spec_remove_pair tok toks'
  end.

(** Concrete surroundings for examples: a world where every named file
    opens (a null path is refused, as Linux does with EFAULT), every
    program exists and [fork] yields process 4242; the same world with no
    program to execute; and a shell that has just started, with the three
    standard descriptors. *)
Definition world_forking (pid : Z) : world :=
  {| can_open := λ name _, match name with Some _ => true | None => false end;
     can_exec := λ _ _, true;
     fork_result := Some pid;
     pipe_ok := true;
     chdir_to := λ _, None;
     getcwd_ok := true;
     alloc_ok := true;
     next_line := None;
     at_eof := true;
     rusage_children := (3, 1);
     self_pid := 4000 |}.

Definition helpful_world : world := world_forking 4242.

Definition barren_world : world :=
  {| can_open := can_open helpful_world;
     can_exec := λ _ _, false;
     fork_result := fork_result helpful_world;
     pipe_ok := true;
     chdir_to := chdir_to helpful_world;
     getcwd_ok := true;
     alloc_ok := true;
     next_line := None;
     at_eof := true;
     rusage_children := (3, 1);
     self_pid := 4000 |}.

Definition boot_state : pstate :=
  {| fds := <[0 := FInherited]> (<[1 := FInherited]> (<[2 := FInherited]> ∅));
     pipes_made := 0;
     cwd := "/home";
     mem := initial_globals;
     handlers := ∅;
     log := [] |}.

(** A child of the shell that has not been waited for, and one that has:
    [c] and [st] are the program and the state it was forked with. *)
Definition unreaped (ks : gmap Z kid) (pid : Z) (c : prog unit) (st : pstate) : Prop :=
  ∃ kd, ks !! pid = Some kd ∧ k_code kd = c ∧ k_start kd = st
        ∧ k_status kd ≠ KReaped.

Definition reaped (ks : gmap Z kid) (pid : Z) (c : prog unit) (st : pstate) : Prop :=
  ∃ kd, ks !! pid = Some kd ∧ k_code kd = c ∧ k_start kd = st
        ∧ k_status kd = KReaped.

(** The worlds under which the shell's actions of a schedule happen. *)
Definition shell_worlds (ts : list tick) : list world :=
  omap (λ t, match t with TShell w => Some w | _ => None end) ts.

(** The accounting that follows the wait in [execute_command]. *)
Definition account_usage : prog unit :=
  Getrusage (λ ut st,
    add_to G_total_user_time ut (
    add_to G_total_sys_time st (Ret tt))).

(** Where the shell can be while it runs [execute_command args 0] from the
    state [st0]: what it has left to run, and what is known then. *)
Inductive fg_point (args : argv) (st0 : pstate) (s : system) : Prop :=
| FgStart :
    sh_code s = execute_command args 0 → sh_state s = st0 → fg_point args st0 s
| FgNoChild evs :
    sh_code s = call (SysPerror "dragonshell") (Ret tt) ∨ sh_code s = Ret tt →
    log (sh_state s) = log st0 ++ EvAct SysFork (-1) :: evs →
    mem (sh_state s) = mem st0 →
    fg_point args st0 s
| FgWaiting pid :
    0 < pid →
    sh_code s = call (SysWaitpid pid) account_usage →
    sh_state s = logged st0 (EvAct SysFork pid) →
    unreaped (kids s) pid (execute_command_child args) st0 →
    fg_point args st0 s
| FgAccounting pid evs :
    0 < pid →
    reaped (kids s) pid (execute_command_child args) st0 →
    log (sh_state s) =
      log st0 ++ EvAct SysFork pid :: EvAct (SysWaitpid pid) pid :: evs →
    (sh_code s = account_usage ∧ mem (sh_state s) = mem st0
     ∨ (∃ ut stime,
          0 ≤ ut ≤ LONG_MAX - total_user_time (mem st0)
          ∧ 0 ≤ stime ≤ LONG_MAX - total_sys_time (mem st0)
          ∧ (sh_code s = add_to G_total_user_time ut
                           (add_to G_total_sys_time stime (Ret tt))
             ∧ mem (sh_state s) = mem st0
             ∨ sh_code s = call (GSet G_total_user_time
                                  (wrap_long (total_user_time (mem st0) + ut)))
                             (add_to G_total_sys_time stime (Ret tt))
               ∧ mem (sh_state s) = mem st0
             ∨ total_sys_time (mem (sh_state s)) = total_sys_time (mem st0)
               ∧ total_user_time (mem (sh_state s))
                 = wrap_long (total_user_time (mem st0) + ut)
               ∧ (sh_code s = add_to G_total_sys_time stime (Ret tt)
                  ∨ sh_code s = call (GSet G_total_sys_time
                                       (wrap_long (total_sys_time (mem st0) + stime)))
                                  (Ret tt))
             ∨ sh_code s = Ret tt
               ∧ total_user_time (mem (sh_state s))
                 = wrap_long (total_user_time (mem st0) + ut)
               ∧ total_sys_time (mem (sh_state s))
                 = wrap_long (total_sys_time (mem st0) + stime)))) →
    fg_point args st0 s.

(** What the system reports as the children's CPU time is not negative
    and leaves the totals below [LONG_MAX]. *)
Definition long_range (z : Z) : Prop := - 2 ^ 63 ≤ z ≤ LONG_MAX.

Definition usage_fits (st0 : pstate) (w : world) : Prop :=
  0 ≤ (rusage_children w).1 ≤ LONG_MAX - total_user_time (mem st0)
  ∧ 0 ≤ (rusage_children w).2 ≤ LONG_MAX - total_sys_time (mem st0).

(** The descriptors a successful [pipe] hands out in the state [st], and
    the state after it. *)
Definition pipe_rd (st : pstate) : Z := lowest_free (fds st).
Definition pipe_wr (st : pstate) : Z :=
  lowest_free (<[pipe_rd st := FPipeRead (pipes_made st)]> (fds st)).
Definition piped (st : pstate) : pstate :=
  logged
    (with_pipes_made
       (with_fds st (<[pipe_wr st := FPipeWrite (pipes_made st)]>
                       (<[pipe_rd st := FPipeRead (pipes_made st)]> (fds st))))
       (S (pipes_made st)))
    (EvPipe 0 (pipe_rd st) (pipe_wr st)).

(** The state after [close(fd)]. *)
Definition closed (st : pstate) (fd : Z) : pstate :=
  logged (with_fds st (delete fd (fds st)))
         (EvAct (SysClose fd)
                (match fds st !! fd with Some _ => 0 | None => -1 end)).

(** No descriptor of the table refers to an end of pipe [n]. *)
Definition no_read_end (n : nat) (t : gmap Z fobj) : Prop :=
  ∀ fd, t !! fd ≠ Some (FPipeRead n).
Definition no_write_end (n : nat) (t : gmap Z fobj) : Prop :=
  ∀ fd, t !! fd ≠ Some (FPipeWrite n).

(** Where the shell can be while it runs [execute_pipe cmd1 cmd2] from the
    state [st0], as long as [pipe] and [fork] succeed. *)
Section PipePoints.
Variables (cmd1 cmd2 : string) (st0 : pstate).

Let rd := pipe_rd st0.
Let wr := pipe_wr st0.

Definition forked_once (p1 : Z) : pstate := logged (piped st0) (EvAct SysFork p1).
Definition forked_twice (p1 p2 : Z) : pstate :=
  logged (forked_once p1) (EvAct SysFork p2).
Definition ends_closed (p1 p2 : Z) : pstate :=
  closed (closed (forked_twice p1 p2) rd) wr.
Definition first_reaped (p1 p2 : Z) : pstate :=
  logged (ends_closed p1 p2) (EvAct (SysWaitpid p1) p1).
Definition both_reaped (p1 p2 : Z) : pstate :=
  logged (first_reaped p1 p2) (EvAct (SysWaitpid p2) p2).

Definition writer_forked (ks : gmap Z kid) (p1 : Z) : Prop :=
  unreaped ks p1 (pipe_child1 cmd1 rd wr) (piped st0).
Definition reader_forked (ks : gmap Z kid) (p1 p2 : Z) : Prop :=
  unreaped ks p2 (pipe_child2 cmd2 rd wr) (forked_once p1).

Inductive pipe_point (s : system) : Prop :=
| PpStart :
    sh_code s = execute_pipe cmd1 cmd2 → sh_state s = st0 → pipe_point s
| PpPiped :
    sh_code s = pipe_first_fork cmd1 cmd2 rd wr → sh_state s = piped st0 →
    pipe_point s
| PpForkedOnce p1 :
    0 < p1 →
    sh_code s = pipe_second_fork cmd2 rd wr p1 →
    sh_state s = forked_once p1 →
    writer_forked (kids s) p1 →
    pipe_point s
| PpForkedTwice p1 p2 :
    0 < p1 → 0 < p2 → p1 ≠ p2 →
    writer_forked (kids s) p1 → reader_forked (kids s) p1 p2 →
    (sh_code s = pipe_parent rd wr p1 p2 ∧ sh_state s = forked_twice p1 p2
     ∨ sh_code s = call (SysClose wr)
                     (call (SysWaitpid p1) (call (SysWaitpid p2) (Ret tt)))
       ∧ sh_state s = closed (forked_twice p1 p2) rd
     ∨ sh_code s = call (SysWaitpid p1) (call (SysWaitpid p2) (Ret tt))
       ∧ sh_state s = ends_closed p1 p2) →
    pipe_point s
| PpFirstReaped p1 p2 :
    0 < p1 → 0 < p2 → p1 ≠ p2 →
    reaped (kids s) p1 (pipe_child1 cmd1 rd wr) (piped st0) →
    reader_forked (kids s) p1 p2 →
    sh_code s = call (SysWaitpid p2) (Ret tt) →
    sh_state s = first_reaped p1 p2 →
    pipe_point s
| PpReturned p1 p2 :
    0 < p1 → 0 < p2 → p1 ≠ p2 →
    reaped (kids s) p1 (pipe_child1 cmd1 rd wr) (piped st0) →
    reaped (kids s) p2 (pipe_child2 cmd2 rd wr) (forked_once p1) →
    sh_code s = Ret tt →
    sh_state s = both_reaped p1 p2 →
    pipe_point s.
End PipePoints.

(** [pipe] and [fork] do not fail in this world. *)
Definition resources_last (w : world) : Prop :=
  pipe_ok w = true ∧ is_Some (fork_result w).

(** ** Policies

    A policy says which actions a program may perform, with which status
    it may exit, and which results its surroundings may hand back.  A
    program obeys it when every path through it that the admitted results
    allow stays within the policy.  [last] is the result of the latest
    [getline], if any. *)
Record policy := {
  okact : action → Prop;
  okpipe : Prop;
  okexit : option (option string) → Z → Prop;
  may : action → Z → Prop;
}.

Inductive obeys (π : policy) (last : option (option string)) : prog unit → Prop :=
| ObRet : obeys π last (Ret tt)
| ObFault why : obeys π last (Fault why)
| ObExit c : okexit π last c → obeys π last (Exit c)
| ObAct a k :
    okact π a → (∀ r, may π a r → obeys π last (k r)) → obeys π last (Act a k)
| ObPipe k :
    okpipe π → (∀ rc rd wr, obeys π last (k rc rd wr)) → obeys π last (Pipe k)
| ObGetrusage k :
    (∀ ut stime, obeys π last (k ut stime)) → obeys π last (Getrusage k)
| ObGetcwd k : (∀ r, obeys π last (k r)) → obeys π last (Getcwd k)
| ObGetline k : (∀ r, obeys π (Some r) (k r)) → obeys π last (Getline k).

(** The result of the latest [getline] in a log. *)
Fixpoint last_line (l : list event) : option (option string) :=
  match l with
  | [] => None
  | e :: l' =>
      match last_line l' with
      | Some r => Some r
      | None => match e with EvGetline r => Some r | _ => None end
      end
  end.

(** The policy of a program that leaves the descriptor table alone. *)
Definition touches_fds (a : action) : bool :=
  match a with
  | SysOpen _ _ _ | SysDup2 _ _ | SysClose _ => true
  | _ => false
  end.

Definition fds_untouched : policy :=
  {| okact := λ a, touches_fds a = false;
     okpipe := False;
     okexit := λ _ _, True;
     may := λ _ _, True |}.

(** The policy of the interpreter while neither the allocator nor the
    line reader fails: it exits with status 0 only, and only when the line
    it has read last is the end of the input or begins with [exit]. *)
Definition asks_to_exit (last : option (option string)) : Prop :=
  last = Some None
  ∨ ∃ line, last = Some (Some line) ∧ is_pipe line = None
            ∧ head (strtok_all line) = Some "exit".

Definition session_policy : policy :=
  {| okact := λ _, True;
     okpipe := True;
     okexit := λ last c, c = EXIT_SUCCESS ∧ asks_to_exit last;
     may := λ a r,
       match a with
       | SysAlloc | SysFork | SysFeof => r ≠ 0
       | _ => True
       end |}.

Definition no_failures (w : world) : Prop :=
  alloc_ok w = true ∧ at_eof w = true.

(** The table after [dup2(oldfd, newfd)], which changes nothing when
    [oldfd] is not open. *)
Definition dup2_table (t : gmap Z fobj) (oldfd newfd : Z) : gmap Z fobj :=
  match t !! oldfd with Some o => <[newfd := o]> t | None => t end.

(** A foreground command from start to end: the child terminates after
    the shell has begun to wait. *)
Definition fg_ticks : list tick :=
  [TShell helpful_world; TChildExit 4242; TShell helpful_world;
   TShell helpful_world; TShell helpful_world; TShell helpful_world;
   TShell helpful_world; TShell helpful_world].

Definition fg_start : system :=
  {| sh_code := execute_command (vector_of ["make"; "all"]) 0;
     sh_state := boot_state; kids := ∅; delivered := [] |}.


(** A world out of memory, in which the user has typed [ls -l]. *)
Definition starving_world : world :=
  {| can_open := can_open helpful_world;
     can_exec := λ _ _, true;
     fork_result := Some 4242;
     pipe_ok := true;
     chdir_to := λ _, None;
     getcwd_ok := true;
     alloc_ok := false;
     next_line := Some ("ls -l" +:+ nl);
     at_eof := false;
     rusage_children := (3, 1);
     self_pid := 4000 |}.

(** The shell at the head of its loop, freshly started. *)
Definition at_prompt : system :=
  {| sh_code := main_body; sh_state := boot_state; kids := ∅; delivered := [] |}.

(** The policy of a program that never records a child: it writes neither
    [child_pid] nor [bg_processes] and sends no signal; what it reads from
    [bg_processes] is the initial -1.  Like [session_policy] it describes
    the side of a [fork] on which the result is not 0. *)
Definition records_nothing : policy :=
  {| okact := λ a,
       match a with
       | GSet G_child_pid _ | GSet (G_bg_processes _) _ | SysKill _ _ => False
       | _ => True
       end;
     okpipe := True;
     okexit := λ _ _, True;
     may := λ a r,
       match a with
       | GGet (G_bg_processes _) => r = -1
       | SysFork => r ≠ 0
       | _ => True
       end |}.

Definition nothing_recorded (st : pstate) : Prop :=
  child_pid (mem st) = -1 ∧ bg_processes (mem st) = [-1].

(** What a policy and a property of the shell's state say of a system. *)
Definition holds (π : policy) (Φ : pstate → Prop) (s : system) : Prop :=
  Φ (sh_state s) ∧ obeys π (last_line (log (sh_state s))) (sh_code s).

(** A helpful world in which the user has typed [line]. *)
Definition world_typing (line : string) : world :=
  {| can_open := can_open helpful_world;
     can_exec := λ _ _, true;
     fork_result := Some 4242;
     pipe_ok := true;
     chdir_to := λ _, None;
     getcwd_ok := true;
     alloc_ok := true;
     next_line := Some (line +:+ nl);
     at_eof := false;
     rusage_children := (3, 1);
     self_pid := 4000 |}.

(** The shell as [main] starts. *)
Definition booting : system :=
  {| sh_code := main_init; sh_state := boot_state; kids := ∅; delivered := [] |}.

(** [n] actions of the shell in the world [w]. *)
Definition shell_ticks (n : nat) (w : world) : list tick := replicate n (TShell w).

(** A pipeline from start to end: the reader terminates first, and an
    interrupt arrives while the parent waits for the writer. *)
Definition pipe_ticks : list tick :=
  [TShell helpful_world; TShell (world_forking 4242); TShell (world_forking 4243);
   TShell helpful_world; TShell helpful_world;
   TChildExit 4243; TSignal helpful_world SIGINT; TChildExit 4242;
   TShell helpful_world; TShell helpful_world].

(** The shell's state once [main] has installed its handlers. *)
Definition armed_state : pstate :=
  with_handlers boot_state (<[SIGINT := H_sigint]> (<[SIGTSTP := H_sigtstp]> ∅)).

Definition pipe_start : system :=
  {| sh_code := execute_pipe "ls -l " " wc -l"; sh_state := armed_state;
     kids := ∅; delivered := [] |}.


(** What can be seen of a program without running it: the action it is
    about to perform, whether it has returned. *)
Definition next_action (p : prog unit) : option action :=
  match p with
  | Act a _ => Some a
  | _ => None
  end.

Definition has_returned (p : prog unit) : bool :=
  match p with
  | Ret _ => true
  | _ => false
  end.


(** ** Vocabulary of the further properties *)

(** A string without a delimiter of [LSH_TOK_DELIM], and a token: such a
    string that is not empty. *)
Fixpoint delim_free (t : string) : bool :=
  match t with
  | EmptyString => true
  | String c t' => negb (is_delim c) && delim_free t'
  end.

Definition is_token (t : string) : bool :=
  match t with
  | EmptyString => false
  | String _ _ => delim_free t
  end.

(** A string made of delimiters only. *)
Fixpoint all_delims (t : string) : bool :=
  match t with
  | EmptyString => true
  | String c t' => is_delim c && all_delims t'
  end.

(** The bar that [is_pipe] looks for, and a string without one. *)
Definition bar : ascii := ascii_of_nat 124.

Fixpoint bar_free (t : string) : bool :=
  match t with
  | EmptyString => true
  | String c t' => negb (Ascii.eqb c bar) && bar_free t'
  end.

(** What [strtok] gives when the text ends with the token being read. *)
Definition flush (cur : option string) : list string :=
  match cur with Some t => [t] | None => [] end.

(** The calls of the allocator [split_line] makes for a line, none of
    them refused. *)
Definition allocations (line : string) : list event :=
  replicate (S (Z.to_nat (Z.of_nat (length (strtok_all line)) / LSH_TOK_BUFSIZE)))
            (EvAct SysAlloc 1).

(** A helpful world in which every path leads to the directory it names
    and the user has typed [line]. *)
Definition world_roaming (line : string) : world :=
  {| can_open := can_open helpful_world;
     can_exec := λ _ _, true;
     fork_result := Some 4242;
     pipe_ok := true;
     chdir_to := λ path, Some path;
     getcwd_ok := true;
     alloc_ok := true;
     next_line := Some (line +:+ nl);
     at_eof := false;
     rusage_children := (3, 1);
     self_pid := 4000 |}.

(** What [exit_shell] sends to the process recorded in a slot of
    [bg_processes]. *)
Definition farewell (slot : Z) : list event :=
  if slot =? -1 then [] else [EvAct (SysKill slot SIGTERM) 0].

(** The policy of the parent's side of a program that leaves its
    descriptor table alone. *)
Definition keeps_table : policy :=
  {| okact := λ a, touches_fds a = false;
     okpipe := False;
     okexit := λ _ _, True;
     may := λ a r, match a with SysFork => r ≠ 0 | _ => True end |}.

(** The policy of a program that installs no signal handler. *)
Definition keeps_handlers : policy :=
  {| okact := λ a, match a with SysSignal _ _ => False | _ => True end;
     okpipe := True;
     okexit := λ _ _, True;
     may := λ _ _, True |}.

(** The policy of a program that never waits for the process [p]: it
    waits for the processes its own calls of [fork] have returned, none
    of which is [p]. *)
Definition spares (p : Z) : policy :=
  {| okact := λ a, a ≠ SysWaitpid p;
     okpipe := True;
     okexit := λ _ _, True;
     may := λ a r, match a with SysFork => r ≠ p | _ => True end |}.

(** A child that has not been waited for, whatever it runs. *)
Definition lingers (ks : gmap Z kid) (p : Z) : Prop :=
  ∃ kd, ks !! p = Some kd ∧ k_status kd ≠ KReaped.

(** The shell between two commands: about to start a turn of its loop. *)
Definition between_commands (s : system) : Prop :=
  sh_code s = main_body ∨ sh_code s = Ret tt.

(** A helpful world in which the user has typed [line] and [fork] yields
    the process [pid]. *)
Definition world_launching (line : string) (pid : Z) : world :=
  {| can_open := can_open helpful_world;
     can_exec := λ _ _, true;
     fork_result := Some pid;
     pipe_ok := true;
     chdir_to := λ _, None;
     getcwd_ok := true;
     alloc_ok := true;
     next_line := Some (line +:+ nl);
     at_eof := false;
     rusage_children := (3, 1);
     self_pid := 4000 |}.

(** The shell at its prompt with an earlier background job, process
    4242, that has terminated and has not been waited for. *)
Definition with_a_zombie : system :=
  {| sh_code := main_body; sh_state := armed_state;
     kids := {[ 4242 := {| k_code := Ret tt; k_start := boot_state;
                           k_status := KZombie |} ]};
     delivered := [] |}.

(** A foreground command typed after it, from the prompt to the return
    of the loop body: the new child is process 4243. *)
Definition later_command : list tick :=
  shell_ticks 4 (world_launching "ls -l" 4243)
  ++ [TChildExit 4243; TSignal helpful_world SIGTSTP]
  ++ shell_ticks 6 (world_launching "ls -l" 4243).

(** The state after [x = v] on a global. *)
Definition stored (st : pstate) (x : gvar) (v : Z) : pstate :=
  match global_set (mem st) x v with
  | Some g => with_mem st g
  | None => st
  end.

(** The state after [perror(msg)]. *)
Definition complained (st : pstate) (msg : string) : pstate :=
  logged st (EvAct (SysPerror msg) 0).

(** Where the shell can be while it runs [execute_command args background]
    from the state [st0], with the state it is in at each point. *)
Section CommandPoints.
Variables (args : argv) (background : Z) (st0 : pstate).

Definition launched (pid : Z) : pstate := logged st0 (EvAct SysFork pid).
Definition announced (pid : Z) : pstate :=
  logged (launched pid)
         (EvAct (SysPrintf ("PID %d is sent to background" +:+ nl) [PInt pid]) 0).
Definition waited (pid : Z) : pstate :=
  logged (launched pid) (EvAct (SysWaitpid pid) pid).
Definition measured (pid ut stime : Z) : pstate :=
  logged (waited pid) (EvGetrusage ut stime).
Definition user_time_added (pid ut stime : Z) : pstate :=
  stored (measured pid ut stime) G_total_user_time
         (wrap_long (total_user_time (mem st0) + ut)).
Definition accounted (pid ut stime : Z) : pstate :=
  stored (user_time_added pid ut stime) G_total_sys_time
         (wrap_long (total_sys_time (mem st0) + stime)).

Inductive cmd_point (s : system) : Prop :=
| CpStart :
    sh_code s = execute_command args background → sh_state s = st0 →
    cmd_point s
| CpForkFailed :
    sh_code s = call (SysPerror "dragonshell") (Ret tt) →
    sh_state s = launched (-1) →
    cmd_point s
| CpGaveUp :
    sh_code s = Ret tt → sh_state s = complained (launched (-1)) "dragonshell" →
    cmd_point s
| CpAnnouncing pid :
    0 < pid → background ≠ 0 →
    unreaped (kids s) pid (execute_command_child args) st0 →
    sh_code s = call (SysPrintf ("PID %d is sent to background" +:+ nl) [PInt pid])
                     (Ret tt) →
    sh_state s = launched pid →
    cmd_point s
| CpDetached pid :
    0 < pid → background ≠ 0 →
    unreaped (kids s) pid (execute_command_child args) st0 →
    sh_code s = Ret tt → sh_state s = announced pid →
    cmd_point s
| CpWaiting pid :
    0 < pid → background = 0 →
    unreaped (kids s) pid (execute_command_child args) st0 →
    sh_code s = call (SysWaitpid pid) account_usage →
    sh_state s = launched pid →
    cmd_point s
| CpAccounting pid :
    0 < pid → background = 0 →
    reaped (kids s) pid (execute_command_child args) st0 →
    sh_code s = account_usage → sh_state s = waited pid →
    cmd_point s
| CpAdding pid ut stime :
    0 < pid → background = 0 →
    reaped (kids s) pid (execute_command_child args) st0 →
    (sh_code s = add_to G_total_user_time ut
                   (add_to G_total_sys_time stime (Ret tt))
     ∧ sh_state s = measured pid ut stime
     ∨ sh_code s = call (GSet G_total_user_time
                           (wrap_long (total_user_time (mem st0) + ut)))
                     (add_to G_total_sys_time stime (Ret tt))
       ∧ sh_state s = measured pid ut stime
     ∨ sh_code s = add_to G_total_sys_time stime (Ret tt)
       ∧ sh_state s = user_time_added pid ut stime
     ∨ sh_code s = call (GSet G_total_sys_time
                           (wrap_long (total_sys_time (mem st0) + stime)))
                     (Ret tt)
       ∧ sh_state s = user_time_added pid ut stime) →
    cmd_point s
| CpAccounted pid ut stime :
    0 < pid → background = 0 →
    reaped (kids s) pid (execute_command_child args) st0 →
    sh_code s = Ret tt → sh_state s = accounted pid ut stime →
    cmd_point s.
End CommandPoints.

(** How [execute_pipe cmd1 cmd2], started in the state [st0], can go:
    the points on the three ways on which it gives up, with the state
    at each, and the way on which both children are forked. *)
Section PipeWays.
Variables (cmd1 cmd2 : string) (st0 : pstate).

Let rd := pipe_rd st0.
Let wr := pipe_wr st0.

Definition pipe_refused : pstate := logged st0 (EvPipe (-1) 0 0).
Definition first_fork_failed : pstate := logged (piped st0) (EvAct SysFork (-1)).
Definition second_fork_failed (p1 : Z) : pstate :=
  logged (forked_once st0 p1) (EvAct SysFork (-1)).

Inductive pipe_way (s : system) : Prop :=
| PwStart :
    sh_code s = execute_pipe cmd1 cmd2 → sh_state s = st0 → pipe_way s
| PwRefused :
    sh_code s = call (SysPerror "dragonshell: pipe failed") (Ret tt) →
    sh_state s = pipe_refused →
    pipe_way s
| PwRefusedReturned :
    sh_code s = Ret tt →
    sh_state s = complained pipe_refused "dragonshell: pipe failed" →
    pipe_way s
| PwPiped :
    sh_code s = pipe_first_fork cmd1 cmd2 rd wr → sh_state s = piped st0 →
    pipe_way s
| PwFirstFailed :
    sh_code s = call (SysPerror "dragonshell: fork failed") (Ret tt) →
    sh_state s = first_fork_failed →
    pipe_way s
| PwFirstFailedReturned :
    sh_code s = Ret tt →
    sh_state s = complained first_fork_failed "dragonshell: fork failed" →
    pipe_way s
| PwForkedOnce p1 :
    0 < p1 →
    unreaped (kids s) p1 (pipe_child1 cmd1 rd wr) (piped st0) →
    sh_code s = pipe_second_fork cmd2 rd wr p1 →
    sh_state s = forked_once st0 p1 →
    pipe_way s
| PwSecondFailed p1 :
    0 < p1 →
    unreaped (kids s) p1 (pipe_child1 cmd1 rd wr) (piped st0) →
    sh_code s = call (SysPerror "dragonshell: fork failed") (Ret tt) →
    sh_state s = second_fork_failed p1 →
    pipe_way s
| PwSecondFailedReturned p1 :
    0 < p1 →
    unreaped (kids s) p1 (pipe_child1 cmd1 rd wr) (piped st0) →
    sh_code s = Ret tt →
    sh_state s = complained (second_fork_failed p1) "dragonshell: fork failed" →
    pipe_way s
| PwLaunched p1 p2 evs :
    0 < p1 → 0 < p2 →
    log (sh_state s) = log (forked_twice st0 p1 p2) ++ evs →
    (sh_code s = pipe_parent rd wr p1 p2
     ∨ sh_code s = call (SysClose wr)
                     (call (SysWaitpid p1) (call (SysWaitpid p2) (Ret tt)))
     ∨ sh_code s = call (SysWaitpid p1) (call (SysWaitpid p2) (Ret tt))
     ∨ sh_code s = call (SysWaitpid p2) (Ret tt)
     ∨ sh_code s = Ret tt) →
    pipe_way s.
End PipeWays.

(** A world without a process slot left, and a pipeline during which the
    slots run out after the first [fork]. *)
Definition world_exhausted : world :=
  {| can_open := can_open helpful_world;
     can_exec := λ _ _, true;
     fork_result := None;
     pipe_ok := true;
     chdir_to := λ _, None;
     getcwd_ok := true;
     alloc_ok := true;
     next_line := None;
     at_eof := true;
     rusage_children := (3, 1);
     self_pid := 4000 |}.

Definition stranding_ticks : list tick :=
  [TShell helpful_world; TShell helpful_world; TChildExit 4242;
   TShell world_exhausted; TShell helpful_world].

Definition stranding_start : system :=
  {| sh_code := execute_pipe "yes " " head"; sh_state := boot_state;
     kids := ∅; delivered := [] |}.

(** A program none of whose paths on the parent's side of its [fork]s
    ends in a fault, that is, in a read outside an argument vector. *)
Inductive steady : prog unit → Prop :=
| StRet : steady (Ret tt)
| StExit c : steady (Exit c)
| StAct a k : (∀ r, (a = SysFork → r ≠ 0) → steady (k r)) → steady (Act a k)
| StPipe k : (∀ rc rd wr, steady (k rc rd wr)) → steady (Pipe k)
| StGetrusage k : (∀ ut stime, steady (k ut stime)) → steady (Getrusage k)
| StGetcwd k : (∀ r, steady (k r)) → steady (Getcwd k)
| StGetline k : (∀ r, steady (k r)) → steady (Getline k).

(** A world without any program to execute, in which the user has typed
    [line]; and a session in it from the start of [main] to the end of
    the first turn of the loop, the child terminating meanwhile. *)
Definition world_without (line : string) : world :=
  {| can_open := can_open helpful_world;
     can_exec := λ _ _, false;
     fork_result := Some 4242;
     pipe_ok := true;
     chdir_to := λ _, None;
     getcwd_ok := true;
     alloc_ok := true;
     next_line := Some (line +:+ nl);
     at_eof := true;
     rusage_children := (3, 1);
     self_pid := 4000 |}.

Definition mistyped_command : list tick :=
  shell_ticks 9 (world_without "sl -l")
  ++ [TChildExit 4242]
  ++ shell_ticks 6 (world_without "sl -l").

(** * Properties *)

(** ** Scans and vectors *)

Lemma vector_of_vec toks : vector_of toks = vec toks [].
Proof. reflexivity. Qed.

Lemma null_terminated_vec args :
  null_terminated args ↔ ∃ toks rest, args = vec toks rest.
Proof.
  unfold null_terminated, vec. split.
  - induction args as [|[a|] args IH]; intros Hin.
    + by apply elem_of_nil in Hin.
    + apply elem_of_cons in Hin as [|Hin]; [done|].
      destruct (IH Hin) as (toks & rest & ->). by exists (a :: toks), rest.
    + by exists [], args.
  - intros (toks & rest & ->). apply elem_of_app. right. by left.
Qed.

Lemma strings_until_null_vec toks rest :
  strings_until_null (vec toks rest) = Some toks.
Proof.
  unfold vec. induction toks as [|a toks IH]; csimpl; [done|]. by rewrite IH.
Qed.

Lemma scan_from_vec tok n toks rest :
  scan_from tok n (vec toks rest) =
  match first_index tok toks with
  | Some i => ScanHit (n + i)
  | None => ScanEnd
  end.
Proof.
  unfold vec. revert n. induction toks as [|a toks IH]; intros n; csimpl; [done|].
  destruct (String.eqb a tok); [by rewrite Nat.add_0_r|].
  rewrite IH. destruct (first_index tok toks); simpl; [|done].
  f_equal. lia.
Qed.

Lemma scan_vec tok toks rest :
  scan tok (vec toks rest) =
  match first_index tok toks with Some i => ScanHit i | None => ScanEnd end.
Proof. unfold scan. by rewrite scan_from_vec. Qed.

Lemma first_index_Some tok toks i :
  first_index tok toks = Some i →
  toks !! i = Some tok ∧ (tok ∉ take i toks) ∧ (i < length toks)%nat.
Proof.
  revert i. induction toks as [|a toks IH]; intros i; simpl; [done|].
  destruct (String.eqb a tok) eqn:E.
  - intros [= <-]. apply String.eqb_eq in E as ->. simpl.
    split_and!; [done| |lia]. apply not_elem_of_nil.
  - destruct (first_index tok toks) as [j|]; simpl; [|done].
    intros [= <-]. destruct (IH j eq_refl) as (? & ? & ?).
    apply String.eqb_neq in E. simpl. split_and!; [done| |lia].
    intros [Heq|Hin]%elem_of_cons; [congruence|done].
Qed.

Lemma first_index_None tok toks : first_index tok toks = None ↔ tok ∉ toks.
Proof.
  induction toks as [|a toks IH]; simpl.
  - split; [intros _; apply not_elem_of_nil|done].
  - rewrite not_elem_of_cons. destruct (String.eqb a tok) eqn:E.
    + apply String.eqb_eq in E as ->. split; [done|]. by intros [? _].
    + apply String.eqb_neq in E. destruct (first_index tok toks); simpl.
      * split; [done|]. intros [_ Hn]. by apply IH in Hn.
      * split; [|done]. intros _. split; [congruence|by apply IH].
Qed.

Lemma first_index_app tok pre post :
  tok ∉ pre → first_index tok (pre ++ tok :: post) = Some (length pre).
Proof.
  induction pre as [|a pre IH]; simpl; intros Hn.
  - by rewrite String.eqb_refl.
  - apply not_elem_of_cons in Hn as [Hne Hn].
    apply not_eq_sym, String.eqb_neq in Hne. rewrite Hne, IH; done.
Qed.

Lemma first_index_split tok toks i :
  first_index tok toks = Some i →
  toks = take i toks ++ tok :: drop (S i) toks.
Proof.
  intros (Hi & _ & _)%first_index_Some.
  rewrite <- (take_drop_middle toks i tok) at 1; done.
Qed.

Lemma first_index_take tok toks i j :
  first_index tok toks = Some j → (i ≤ j)%nat →
  first_index tok (take i toks) = None.
Proof.
  intros (_ & Hn & _)%first_index_Some Hle. apply first_index_None.
  intros (k & Hk & Hlt)%elem_of_take. apply Hn, elem_of_take.
  exists k. split; [done|lia].
Qed.

Lemma vec_lookup toks rest i :
  (i ≤ length toks)%nat → vec toks rest !! i = Some (toks !! i).
Proof.
  intros Hle. unfold vec.
  destruct (decide (i < length toks)%nat) as [Hlt|Hge].
  - rewrite lookup_app_l by (by rewrite length_fmap).
    rewrite list_lookup_fmap.
    destruct (lookup_lt_is_Some_2 toks i Hlt) as [x ->]. done.
  - assert (i = length toks) as -> by lia.
    rewrite (lookup_ge_None_2 toks) by lia.
    rewrite lookup_app_r by (rewrite length_fmap; lia).
    by rewrite length_fmap, Nat.sub_diag.
Qed.

Lemma vec_insert toks rest i :
  (i < length toks)%nat →
  <[i := None]> (vec toks rest) =
  vec (take i toks) ((Some <$> drop (S i) toks) ++ None :: rest).
Proof.
  intros Hlt. unfold vec.
  rewrite insert_app_l by (by rewrite length_fmap).
  rewrite insert_take_drop by (by rewrite length_fmap).
  by rewrite <- fmap_take, <- fmap_drop, <- app_assoc.
Qed.

(** ** Descriptors *)

Lemma first_free_ge t n fd : fd ≤ first_free t n fd.
Proof.
  revert fd. induction n as [|n IH]; intros fd; simpl; [lia|].
  destruct (t !! fd); [|lia]. specialize (IH (fd + 1)). lia.
Qed.

Lemma lowest_free_nonneg t : 0 ≤ lowest_free t.
Proof. apply first_free_ge. Qed.

Lemma lowest_free_not_minus_one t : (lowest_free t =? -1) = false.
Proof. pose proof (lowest_free_nonneg t). lia. Qed.

(** If every number below [n] is in use and only [n] descriptors are, then
    [n] itself is free. *)
Lemma full_prefix_free (t : gmap Z fobj) (n : nat) :
  (∀ k : nat, (k < n)%nat → is_Some (t !! Z.of_nat k)) →
  size t = n → t !! Z.of_nat n = None.
Proof.
  intros Hfull Hsize.
  destruct (t !! Z.of_nat n) eqn:Hn; [exfalso|done].
  set (X := list_to_set (Z.of_nat <$> seq 0 (S n)) : gset Z).
  assert (X ⊆ dom t) as Hsub.
  { intros z. unfold X. rewrite elem_of_list_to_set, list_elem_of_fmap.
    intros (k & -> & Hk%elem_of_seq). apply elem_of_dom.
    destruct (decide (k = n)) as [->|]; [by eexists|]. apply Hfull. lia. }
  apply subseteq_size in Hsub. rewrite size_dom, Hsize in Hsub.
  unfold X in Hsub. rewrite size_list_to_set, length_fmap, length_seq in Hsub.
  - lia.
  - apply NoDup_fmap_2; [apply _|apply NoDup_seq].
Qed.

Lemma first_free_fresh t tries (fd : nat) :
  (∀ k : nat, (k < fd)%nat → is_Some (t !! Z.of_nat k)) →
  (fd + tries)%nat = size t →
  t !! first_free t tries (Z.of_nat fd) = None.
Proof.
  revert fd. induction tries as [|n IH]; intros fd Hfull Hsize; simpl.
  - apply full_prefix_free; [done|lia].
  - destruct (t !! Z.of_nat fd) eqn:Hfd; [|done].
    replace (Z.of_nat fd + 1) with (Z.of_nat (S fd)) by lia.
    apply IH; [|lia]. intros k Hk.
    destruct (decide (k = fd)) as [->|]; [by eexists|]. apply Hfull. lia.
Qed.

Lemma lowest_free_fresh t : t !! lowest_free t = None.
Proof.
  unfold lowest_free. apply (first_free_fresh t (size t) 0); [|done].
  intros k Hk. lia.
Qed.

Lemma before_operators_cut toks :
  before_operators toks = cut_at "<" (cut_at ">" toks).
Proof.
  unfold cut_at. induction toks as [|a toks IH]; [done|].
  cbn [before_operators first_index]. unfold is_operator.
  destruct (String.eqb a ">") eqn:E1; [done|].
  destruct (first_index ">" toks) as [i|] eqn:Ei;
    cbn [fmap option_fmap option_map take first_index orb].
  all: rewrite ?E1; destruct (String.eqb a "<") eqn:E2; cbn [orb]; try done.
  all: rewrite IH.
  - by destruct (first_index "<" (take i toks)).
  - by destruct (first_index "<" toks).
Qed.

(** ** The child of [execute_command] *)

Lemma run_open_redirection {R} w tok flags mode toks rest (k : Z * argv → prog R) st :
  run_prog w (bind (open_redirection tok flags mode (vec toks rest)) k) st =
  match first_index tok toks with
  | None => run_prog w (k (-1, vec toks rest)) st
  | Some i =>
      let name := toks !! S i in
      if can_open w name flags then
        run_prog w
          (k (lowest_free (fds st),
              vec (take i toks) ((Some <$> drop (S i) toks) ++ None :: rest)))
          (after_open st name flags mode)
      else OExit EXIT_FAILURE (open_failed st name flags mode)
  end.
Proof.
  unfold open_redirection. rewrite scan_vec.
  destruct (first_index tok toks) as [i|] eqn:Hi; [|done].
  apply first_index_Some in Hi as (_ & _ & Hlt).
  rewrite vec_lookup by lia. cbn [bind run_prog do_act].
  destruct (can_open w (toks !! S i) flags); cbn zeta; [|done].
  rewrite lowest_free_not_minus_one. cbn [bind]. by rewrite vec_insert.
Qed.

Lemma run_bind_descriptor {R} w fd target o (k : unit → prog R) st :
  (fd =? -1) = false → fds st !! fd = Some o →
  run_prog w (bind (bind_descriptor fd target) k) st =
  run_prog w (k tt) (after_bind st fd target o).
Proof.
  intros Hfd Ho. unfold bind_descriptor, call. rewrite Hfd.
  cbn [negb bind run_prog do_act]. rewrite Ho.
  cbn [run_prog do_act fds logged with_log with_fds].
  assert (is_Some (<[target := o]> (fds st) !! fd)) as [o' ->]; [|done].
  destruct (decide (target = fd)) as [->|Hne].
  - rewrite lookup_insert_eq. by eexists.
  - rewrite lookup_insert_ne by done. by eexists.
Qed.

Lemma run_bind_descriptor_none {R} w target (k : unit → prog R) st :
  run_prog w (bind (bind_descriptor (-1) target) k) st = run_prog w (k tt) st.
Proof. done. Qed.

Lemma run_exec_or_die w toks rest st :
  run_prog w (exec_or_die (vec toks rest)) st = exec_on_tokens w toks st.
Proof.
  unfold exec_or_die. rewrite vec_lookup by lia.
  rewrite strings_until_null_vec.
  destruct toks as [|file toks]; [done|].
  cbn [lookup list_lookup run_prog do_act exec_on_tokens].
  by destruct (can_exec w file (file :: toks)).
Qed.

Lemma after_open_lookup st name flags mode :
  fds (after_open st name flags mode) !! lowest_free (fds st) =
  Some (FFile name flags).
Proof. cbn. apply lookup_insert_eq. Qed.

Lemma child_run_eq w toks rest st :
  run_prog w (execute_command_child (vec toks rest)) st =
  child_on_tokens w toks st.
Proof.
  unfold execute_command_child, child_on_tokens, redirect_stage.
  rewrite run_open_redirection.
  destruct (first_index ">" toks) as [i|].
  - cbn zeta. destruct (can_open w (toks !! S i) OUTPUT_FLAGS); [|done].
    cbn beta iota.
    erewrite run_bind_descriptor;
      [|apply lowest_free_not_minus_one|apply after_open_lookup].
    rewrite run_open_redirection.
    destruct (first_index "<" (take i toks)) as [j|].
    + cbn zeta. destruct (can_open w (take i toks !! S j) O_RDONLY); [|done].
      cbn beta iota.
      erewrite run_bind_descriptor;
        [|apply lowest_free_not_minus_one|apply after_open_lookup].
      apply run_exec_or_die.
    + cbn beta iota. rewrite run_bind_descriptor_none. apply run_exec_or_die.
  - cbn beta iota. rewrite run_bind_descriptor_none.
    rewrite run_open_redirection.
    destruct (first_index "<" toks) as [j|].
    + cbn zeta. destruct (can_open w (toks !! S j) O_RDONLY); [|done].
      cbn beta iota.
      erewrite run_bind_descriptor;
        [|apply lowest_free_not_minus_one|apply after_open_lookup].
      apply run_exec_or_die.
    + cbn beta iota. rewrite run_bind_descriptor_none. apply run_exec_or_die.
Qed.

Lemma drop_past_middle {A} (pre post : list A) (a : A) :
  drop (S (length pre)) (pre ++ a :: post) = post.
Proof. induction pre as [|b pre IH]; [done|]. simpl. apply IH. Qed.

Lemma redirect_stage_tokens w tok flags mode target toks st toks' st' :
  redirect_stage w tok flags mode target toks st = inl (toks', st') →
  toks' = cut_at tok toks.
Proof.
  unfold redirect_stage, cut_at. destruct (first_index tok toks) as [i|].
  - cbn zeta. destruct (can_open w (toks !! S i) flags); [|done].
    by intros [= <- _].
  - by intros [= <- _].
Qed.

Lemma exec_on_tokens_exec w toks st file args st' :
  exec_on_tokens w toks st = OExec file args st' →
  args = toks ∧ head args = Some file ∧ can_exec w file args = true.
Proof.
  unfold exec_on_tokens. destruct toks as [|f toks]; [done|].
  destruct (can_exec w f (f :: toks)) eqn:E; [|done].
  by intros [= <- <- _].
Qed.

Lemma child_on_tokens_exec w toks st file args st' :
  child_on_tokens w toks st = OExec file args st' →
  args = before_operators toks ∧ head args = Some file.
Proof.
  unfold child_on_tokens. rewrite before_operators_cut.
  destruct (redirect_stage w ">" _ _ _ toks st) as [[toks1 st1]|] eqn:E1; [|done].
  apply redirect_stage_tokens in E1 as ->.
  destruct (redirect_stage w "<" _ _ _ _ st1) as [[toks2 st2]|] eqn:E2; [|done].
  apply redirect_stage_tokens in E2 as ->.
  intros (-> & ? & _)%exec_on_tokens_exec. done.
Qed.

Lemma after_bind_fds st fd target o :
  fds (after_bind st fd target o) = delete fd (<[target := o]> (fds st)).
Proof. done. Qed.

Lemma after_bind_log st fd target o :
  log (after_bind st fd target o) =
  log st ++ [EvAct (SysDup2 fd target) target; EvAct (SysClose fd) 0].
Proof. cbn. by rewrite <- app_assoc. Qed.

Lemma after_open_fds st name flags mode :
  fds (after_open st name flags mode) =
  <[lowest_free (fds st) := FFile name flags]> (fds st).
Proof. done. Qed.

Lemma after_open_log st name flags mode :
  log (after_open st name flags mode) =
  log st ++ [EvAct (SysOpen name flags mode) (lowest_free (fds st))].
Proof. done. Qed.


Lemma open_failed_log st name flags mode :
  log (open_failed st name flags mode) =
  log st ++ [EvAct (SysOpen name flags mode) (-1);
             EvAct (SysPerror "dragonshell") 0].
Proof. cbn. by rewrite <- app_assoc. Qed.

(** What the log holds once the first stage has run. *)
Lemma redirect_stage_log w tok flags mode target toks st i :
  first_index tok toks = Some i →
  ∃ r evs,
    log (match redirect_stage w tok flags mode target toks st with
         | inl (_, st') => st'
         | inr st' => st'
         end) = log st ++ EvAct (SysOpen (toks !! S i) flags mode) r :: evs.
Proof.
  intros Hi. unfold redirect_stage. rewrite Hi. cbn zeta.
  destruct (can_open w (toks !! S i) flags).
  - rewrite after_bind_log, after_open_log, <- app_assoc. by eexists _, _.
  - rewrite open_failed_log. by eexists _, _.
Qed.

Lemma redirect_stage_log_grows w tok flags mode target toks st :
  ∃ evs,
    log (match redirect_stage w tok flags mode target toks st with
         | inl (_, st') => st'
         | inr st' => st'
         end) = log st ++ evs.
Proof.
  destruct (first_index tok toks) as [i|] eqn:Hi.
  - destruct (redirect_stage_log w tok flags mode target toks st i Hi)
      as (r & evs & ->). by eexists.
  - unfold redirect_stage. rewrite Hi. exists []. by rewrite app_nil_r.
Qed.

Lemma exec_on_tokens_log w toks st :
  ∃ evs, log (final_state (exec_on_tokens w toks st)) = log st ++ evs.
Proof.
  unfold exec_on_tokens. destruct toks as [|f toks].
  - exists []. by rewrite app_nil_r.
  - destruct (can_exec w f (f :: toks)); cbn; rewrite <- ?app_assoc; by eexists.
Qed.


Lemma child_on_tokens_in_bounds w toks st st' :
  child_on_tokens w toks st ≠ OFault OutOfBounds st'.
Proof.
  unfold child_on_tokens.
  destruct (redirect_stage w ">" _ _ _ toks st) as [[toks1 st1]|]; [|done].
  destruct (redirect_stage w "<" _ _ _ toks1 st1) as [[toks2 st2]|]; [|done].
  unfold exec_on_tokens. destruct toks2 as [|f toks2]; [done|].
  by destruct (can_exec w f (f :: toks2)).
Qed.

Lemma first_index_snoc_other tok a pre :
  first_index tok pre = None → a ≠ tok → first_index tok (pre ++ [a]) = None.
Proof.
  rewrite !first_index_None. intros Hpre Hne [Hin|Hin]%elem_of_app; [done|].
  apply list_elem_of_singleton in Hin. done.
Qed.

Lemma first_index_snoc tok pre :
  first_index tok pre = None → first_index tok (pre ++ [tok]) = Some (length pre).
Proof. intros Hpre%first_index_None. by apply first_index_app. Qed.

Lemma lookup_past_snoc {A} (pre : list A) (a : A) :
  (pre ++ [a]) !! S (length pre) = None.
Proof. apply lookup_ge_None_2. rewrite length_app. simpl. lia. Qed.


(** ** Ticks of the surroundings *)

Lemma with_log_same st : with_log st (log st) = st.
Proof. by destruct st. Qed.

Lemma with_log_with_log st l l' : with_log (with_log st l) l' = with_log st l'.
Proof. done. Qed.

Lemma handler_keeps_state w h sig st :
  ∃ evs, run_prog w (handler_code h sig) (with_log st []) = ODone tt (with_log st evs).
Proof.
  destruct h; cbn; destruct (child_pid (mem st) =? -1); cbn; by eexists.
Qed.

Lemma signal_step_shell w sig s s' :
  signal_step w sig s = Some s' →
  sh_code s' = sh_code s ∧ sh_state s' = sh_state s ∧ kids s' = kids s.
Proof.
  unfold signal_step. destruct (handlers (sh_state s) !! sig) as [h|]; [|done].
  destruct (handler_keeps_state w h sig (sh_state s)) as [evs ->].
  intros [= <-]. cbn [sh_code sh_state kids].
  by rewrite with_log_with_log, with_log_same.
Qed.

Lemma child_exit_step_shell pid s s' :
  child_exit_step pid s = Some s' →
  sh_code s' = sh_code s ∧ sh_state s' = sh_state s
  ∧ delivered s' = delivered s.
Proof.
  unfold child_exit_step. destruct (kids s !! pid) as [kd|]; [|done].
  destruct (k_status kd); [|done..]. by intros [= <-].
Qed.

Lemma child_exit_step_unreaped pid s s' p c st :
  child_exit_step pid s = Some s' →
  unreaped (kids s) p c st → unreaped (kids s') p c st.
Proof.
  unfold child_exit_step. destruct (kids s !! pid) as [kd|] eqn:Hkd; [|done].
  destruct (k_status kd) eqn:Hst; [|done..]. intros [= <-]. cbn.
  intros (kd' & Hp & Hc & Hs & Hn). unfold unreaped.
  destruct (decide (pid = p)) as [->|Hne].
  - rewrite lookup_insert_eq. eexists. split; [done|]. cbn.
    rewrite Hkd in Hp. injection Hp as ->. done.
  - rewrite lookup_insert_ne by done. by exists kd'.
Qed.

Lemma child_exit_step_reaped pid s s' p c st :
  child_exit_step pid s = Some s' →
  reaped (kids s) p c st → reaped (kids s') p c st.
Proof.
  unfold child_exit_step. destruct (kids s !! pid) as [kd|] eqn:Hkd; [|done].
  destruct (k_status kd) eqn:Hst; [|done..]. intros [= <-]. cbn.
  intros (kd' & Hp & Hc & Hs & Hn). unfold reaped.
  destruct (decide (pid = p)) as [->|Hne].
  - rewrite Hkd in Hp. injection Hp as ->. congruence.
  - rewrite lookup_insert_ne by done. by exists kd'.
Qed.

(** A wait for a child that has not been waited for: it blocks while the
    child runs and reaps it once it has terminated. *)
Lemma shell_step_wait w s pid k c st s' :
  sh_code s = Act (SysWaitpid pid) k →
  unreaped (kids s) pid c st →
  shell_step w s = Some s' →
  sh_code s' = k pid
  ∧ sh_state s' = logged (sh_state s) (EvAct (SysWaitpid pid) pid)
  ∧ reaped (kids s') pid c st
  ∧ (∃ kd, kids s !! pid = Some kd ∧ k_status kd = KZombie)
  ∧ (∀ p, p ≠ pid → kids s' !! p = kids s !! p).
Proof.
  intros Hcode (kd & Hkd & Hc & Hst & Hn). unfold shell_step.
  rewrite Hcode, Hkd. destruct (k_status kd) eqn:Hks; [done| |done].
  intros [= <-]. cbn. split_and!; [done|done| |by eexists|].
  - unfold reaped. rewrite lookup_insert_eq. by eexists.
  - intros p Hp. by rewrite lookup_insert_ne.
Qed.

(** ** A foreground command *)

Lemma fg_point_env args st0 s s' :
  sh_code s' = sh_code s → sh_state s' = sh_state s →
  (∀ p c st, unreaped (kids s) p c st → unreaped (kids s') p c st) →
  (∀ p c st, reaped (kids s) p c st → reaped (kids s') p c st) →
  fg_point args st0 s → fg_point args st0 s'.
Proof.
  intros Hc Hs Hu Hr [H1 H2|evs H1 H2 H3|pid H0 H1 H2 H3|pid evs H0 H1 H2 H3];
    rewrite <- ?Hc, <- ?Hs in *.
  - by apply FgStart.
  - by eapply FgNoChild.
  - apply (FgWaiting _ _ _ pid); auto.
  - apply (FgAccounting _ _ _ pid evs); auto.
Qed.

Lemma wrap_long_fits z : - 2 ^ 63 ≤ z ≤ LONG_MAX → wrap_long z = z.
Proof.
  unfold wrap_long, LONG_MAX. intros Hz.
  rewrite Z.mod_small by lia. lia.
Qed.

Lemma shell_step_fg_point args st0 w s s' :
  usage_fits st0 w →
  fg_point args st0 s → shell_step w s = Some s' → fg_point args st0 s'.
Proof.
  intros [Hu Hs]. destruct (rusage_children w) as [ut0 stime0] eqn:Hru.
  cbn in Hu, Hs.
  intros [H1 H2|evs H1 H2 H3|pid H0 H1 H2 H3|pid evs H0 H1 H2 H3].
  - unfold shell_step. rewrite H1, H2. unfold execute_command.
    destruct (fork_result w) as [pid|]; [|intros [= <-]].
    + destruct (0 <? pid) eqn:Hpos; [|done].
      destruct (negb (is_live (kids s) pid)); [|done].
      intros [= <-]. apply Z.ltb_lt in Hpos. apply (FgWaiting _ _ _ pid); cbn.
      * done.
      * replace (pid =? 0) with false by lia.
        by replace (pid >? 0) with true by lia.
      * done.
      * unfold unreaped. rewrite lookup_insert_eq. eexists. by split_and!.
    + apply (FgNoChild _ _ _ []); cbn; [by left|done..].
  - unfold shell_step. destruct H1 as [-> | ->]; [|done]. cbn.
    intros [= <-]. apply (FgNoChild _ _ _ (evs ++ [EvAct (SysPerror "dragonshell") 0]));
      cbn; [by right| |done].
    rewrite H2. by rewrite <- app_assoc.
  - intros Hstep.
    destruct (shell_step_wait _ _ _ _ _ _ _ H1 H3 Hstep) as (Hc & Hst & Hr & _).
    apply (FgAccounting _ _ _ pid []); [done|done| |].
    + rewrite Hst, H2. cbn. by rewrite <- app_assoc.
    + left. split; [done|]. by rewrite Hst, H2.
  - unfold shell_step.
    destruct H3 as [[Hc Hm]|(ut & stime & Hut & Hst &
      [[Hc Hm]|[[Hc Hm]|[(Hm1 & Hm2 & [Hc|Hc])|(Hc & Hm1 & Hm2)]]])];
      rewrite Hc; cbn; rewrite ?Hru; [..|done].
    + intros [= <-]. eapply (FgAccounting _ _ _ pid); [done|done|..]; cbn.
      * rewrite H2. rewrite <- app_assoc. cbn. reflexivity.
      * right. exists ut0, stime0. split_and!; try lia. by left.
    + intros [= <-]. eapply (FgAccounting _ _ _ pid); [done|done|..]; cbn.
      * done.
      * right. exists ut, stime. split_and!; try lia. right. left.
        by rewrite Hm.
    + intros [= <-]. eapply (FgAccounting _ _ _ pid); [done|done|..]; cbn.
      * done.
      * right. exists ut, stime. split_and!; try lia. right. right. left.
        rewrite Hm. cbn. split_and!; [done|done|by left].
    + intros [= <-]. eapply (FgAccounting _ _ _ pid); [done|done|..]; cbn.
      * done.
      * right. exists ut, stime. split_and!; try lia. right. right. left.
        split_and!; [done|done|right]. by rewrite Hm1.
    + intros [= <-]. eapply (FgAccounting _ _ _ pid); [done|done|..]; cbn.
      * done.
      * right. exists ut, stime. split_and!; try lia. do 3 right.
        cbn. done.
Qed.

Lemma sys_step_fg_point args st0 t s s' :
  (∀ w, t = TShell w → usage_fits st0 w) →
  fg_point args st0 s → sys_step t s = Some s' → fg_point args st0 s'.
Proof.
  intros Hw Hpt. destruct t as [w|pid|w sig]; cbn.
  - by apply shell_step_fg_point; [apply Hw|].
  - intros Hstep. destruct (child_exit_step_shell _ _ _ Hstep) as (? & ? & _).
    eapply fg_point_env; eauto using child_exit_step_unreaped, child_exit_step_reaped.
  - intros (? & ? & Hk)%signal_step_shell.
    eapply fg_point_env; eauto; by rewrite Hk.
Qed.

Lemma sys_run_fg_point args st0 ts s s' :
  Forall (usage_fits st0) (shell_worlds ts) →
  fg_point args st0 s → sys_run ts s = Some s' → fg_point args st0 s'.
Proof.
  revert s. induction ts as [|t ts IH]; intros s Hws Hpt; cbn.
  - by intros [= <-].
  - destruct (sys_step t s) as [s1|] eqn:Hstep; [|done].
    apply IH.
    + destruct t; cbn in Hws; [by apply Forall_cons in Hws as [_ ?]|done..].
    + eapply sys_step_fg_point; [|done..].
      intros w ->. cbn in Hws. by apply Forall_cons in Hws as [? _].
Qed.

(** ** A pipeline *)

Lemma pipe_point_env cmd1 cmd2 st0 s s' :
  sh_code s' = sh_code s → sh_state s' = sh_state s →
  (∀ p c st, unreaped (kids s) p c st → unreaped (kids s') p c st) →
  (∀ p c st, reaped (kids s) p c st → reaped (kids s') p c st) →
  pipe_point cmd1 cmd2 st0 s → pipe_point cmd1 cmd2 st0 s'.
Proof.
  intros Hc Hs Hu Hr Hpt.
  destruct Hpt as [? ?|? ?|p1 ? ? ? ?|p1 p2 ? ? ? ? ? ?|p1 p2 ? ? ? ? ? ? ?
                  |p1 p2 ? ? ? ? ? ? ?];
    rewrite <- ?Hc, <- ?Hs in *; unfold writer_forked, reader_forked in *.
  - by apply PpStart.
  - by apply PpPiped.
  - apply (PpForkedOnce _ _ _ _ p1); unfold writer_forked; auto.
  - apply (PpForkedTwice _ _ _ _ p1 p2); unfold writer_forked, reader_forked; auto.
  - apply (PpFirstReaped _ _ _ _ p1 p2); unfold reader_forked; auto.
  - apply (PpReturned _ _ _ _ p1 p2); auto.
Qed.

Lemma do_pipe_ok w st :
  pipe_ok w = true → do_pipe w st = (piped st, (0, pipe_rd st, pipe_wr st)).
Proof. unfold do_pipe. by intros ->. Qed.

Lemma unreaped_is_live ks p c st : unreaped ks p c st → is_live ks p = true.
Proof.
  intros (kd & Hkd & _ & _ & Hn). unfold is_live. rewrite Hkd.
  by destruct (k_status kd).
Qed.

Lemma unreaped_insert_ne ks p q kd c st :
  p ≠ q → unreaped ks p c st → unreaped (<[q := kd]> ks) p c st.
Proof.
  intros Hne (kd' & ? & ?). exists kd'. by rewrite lookup_insert_ne.
Qed.

Lemma unreaped_other (ks ks' : gmap Z kid) p c st :
  ks' !! p = ks !! p → unreaped ks p c st → unreaped ks' p c st.
Proof. intros Heq (kd & ? & ?). exists kd. by rewrite Heq. Qed.

Lemma reaped_other (ks ks' : gmap Z kid) p c st :
  ks' !! p = ks !! p → reaped ks p c st → reaped ks' p c st.
Proof. intros Heq (kd & ? & ?). exists kd. by rewrite Heq. Qed.

Lemma shell_step_pipe_point cmd1 cmd2 st0 w s s' :
  resources_last w →
  pipe_point cmd1 cmd2 st0 s → shell_step w s = Some s' →
  pipe_point cmd1 cmd2 st0 s'.
Proof.
  intros [Hpipe [pid Hfork]] Hpt. destruct Hpt as
    [Hc Hs|Hc Hs|p1 H1 Hc Hs Hk1|p1 p2 H1 H2 Hne Hk1 Hk2 Hcs
    |p1 p2 H1 H2 Hne Hk1 Hk2 Hc Hs|p1 p2 H1 H2 Hne Hk1 Hk2 Hc Hs].
  - unfold shell_step. rewrite Hc, Hs. unfold execute_pipe.
    rewrite do_pipe_ok by done. intros [= <-]. by apply PpPiped.
  - unfold shell_step. rewrite Hc, Hs. unfold pipe_first_fork. rewrite Hfork.
    destruct (0 <? pid) eqn:Hpos; [|done].
    destruct (negb (is_live (kids s) pid)); [|done].
    intros [= <-]. apply Z.ltb_lt in Hpos. apply (PpForkedOnce _ _ _ _ pid); cbn.
    + done.
    + replace (pid =? 0) with false by lia. by replace (pid <? 0) with false by lia.
    + done.
    + unfold writer_forked, unreaped. rewrite lookup_insert_eq.
      eexists. by split_and!.
  - unfold shell_step. rewrite Hc, Hs. unfold pipe_second_fork. rewrite Hfork.
    destruct (0 <? pid) eqn:Hpos; [|done].
    destruct (is_live (kids s) pid) eqn:Hlive; [done|].
    intros [= <-]. apply Z.ltb_lt in Hpos.
    assert (p1 ≠ pid) as Hne.
    { intros ->. apply unreaped_is_live in Hk1. congruence. }
    apply (PpForkedTwice _ _ _ _ p1 pid); cbn; [done..| | |].
    + by apply unreaped_insert_ne.
    + unfold reader_forked, unreaped. rewrite lookup_insert_eq.
      eexists. by split_and!.
    + left. replace (pid =? 0) with false by lia.
      by replace (pid <? 0) with false by lia.
  - destruct Hcs as [[Hc Hs]|[[Hc Hs]|[Hc Hs]]].
    + unfold shell_step. rewrite Hc, Hs. cbn. intros [= <-].
      apply (PpForkedTwice _ _ _ _ p1 p2); [done..|]. right. left. done.
    + unfold shell_step. rewrite Hc, Hs. cbn. intros [= <-].
      apply (PpForkedTwice _ _ _ _ p1 p2); [done..|]. right. right. done.
    + intros Hstep.
      destruct (shell_step_wait _ _ _ _ _ _ _ Hc Hk1 Hstep)
        as (Hc' & Hs' & Hr & _ & Hoth).
      apply (PpFirstReaped _ _ _ _ p1 p2); auto.
      * eapply unreaped_other; [|done]. apply Hoth. done.
      * by rewrite Hs', Hs.
  - intros Hstep.
    destruct (shell_step_wait _ _ _ _ _ _ _ Hc Hk2 Hstep)
      as (Hc' & Hs' & Hr & _ & Hoth).
    apply (PpReturned _ _ _ _ p1 p2); auto.
    + eapply reaped_other; [|done]. apply Hoth. done.
    + by rewrite Hs', Hs.
  - unfold shell_step. by rewrite Hc.
Qed.

Lemma sys_step_pipe_point cmd1 cmd2 st0 t s s' :
  (∀ w, t = TShell w → resources_last w) →
  pipe_point cmd1 cmd2 st0 s → sys_step t s = Some s' →
  pipe_point cmd1 cmd2 st0 s'.
Proof.
  intros Hw Hpt. destruct t as [w|pid|w sig]; cbn.
  - by apply shell_step_pipe_point; [apply Hw|].
  - intros Hstep. destruct (child_exit_step_shell _ _ _ Hstep) as (? & ? & _).
    eapply pipe_point_env;
      eauto using child_exit_step_unreaped, child_exit_step_reaped.
  - intros (? & ? & Hk)%signal_step_shell.
    eapply pipe_point_env; eauto; by rewrite Hk.
Qed.

Lemma sys_run_pipe_point cmd1 cmd2 st0 ts s s' :
  Forall resources_last (shell_worlds ts) →
  pipe_point cmd1 cmd2 st0 s → sys_run ts s = Some s' →
  pipe_point cmd1 cmd2 st0 s'.
Proof.
  revert s. induction ts as [|t ts IH]; intros s Hws Hpt; cbn.
  - by intros [= <-].
  - destruct (sys_step t s) as [s1|] eqn:Hstep; [|done].
    apply IH.
    + destruct t; cbn in Hws; [by apply Forall_cons in Hws as [_ ?]|done..].
    + eapply sys_step_pipe_point; [|done..].
      intros w ->. cbn in Hws. by apply Forall_cons in Hws as [? _].
Qed.

(** ** Programs that obey a policy *)

Lemma last_line_app l1 l2 :
  last_line (l1 ++ l2) =
  match last_line l2 with Some r => Some r | None => last_line l1 end.
Proof.
  induction l1 as [|e l1 IH]; cbn; [by destruct (last_line l2)|].
  rewrite IH. by destruct (last_line l2).
Qed.

Lemma last_line_snoc_act l a r : last_line (l ++ [EvAct a r]) = last_line l.
Proof. by rewrite last_line_app. Qed.

Lemma do_act_last_line w st a st' r :
  do_act w st a = Returns st' r → last_line (log st') = last_line (log st).
Proof.
  destruct a as [| |[f|] args|path flags mode|o n|fd|p sg|path| |sg h| | |f l|m|m| |x|x v];
    cbn; try discriminate.
  all: repeat match goal with
       | |- context [if ?b then _ else _] => destruct b
       | |- context [match ?o with Some _ => _ | None => _ end] => destruct o
       end;
    intros [= <- <-] || discriminate; cbn; by rewrite ?last_line_snoc_act.
Qed.

Lemma do_act_replaced w st a f args st' :
  do_act w st a = Replaced f args st' → st' = logged st (EvAct a 0).
Proof.
  destruct a as [| |[f'|] args'| | | | | | | | | | | | | |x|x v]; cbn;
    try discriminate.
  all: repeat match goal with
       | |- context [if ?b then _ else _] => destruct b
       | |- context [match ?o with Some _ => _ | None => _ end] => destruct o
       end; try discriminate.
  by intros [= _ _ <-].
Qed.

Section Policy.
Variables (π : policy) (Φ : pstate → Prop) (w : world).

Hypothesis act_sound : ∀ st a st' r,
  okact π a → Φ st → do_act w st a = Returns st' r → may π a r ∧ Φ st'.
Hypothesis pipe_sound : okpipe π → ∀ st, Φ st → Φ (do_pipe w st).1.
Hypothesis log_sound : ∀ st e, Φ st → Φ (logged st e).

Lemma run_prog_obeys last p st :
  obeys π last p → Φ st → Φ (final_state (run_prog w p st)).
Proof.
  intros Hob. revert st.
  induction Hob as [last|last why|last c Hc|last a k Ha Hk IH|last k Hp Hk IH
                   |last k Hk IH|last k Hk IH|last k Hk IH]; intros st HΦ;
    cbn [run_prog final_state]; try done.
  - destruct (do_act w st a) as [st' r|f args st'|why|] eqn:Hact; cbn; try done.
    + destruct (act_sound _ _ _ _ Ha HΦ Hact). by apply IH.
    + apply do_act_replaced in Hact as ->. by apply log_sound.
  - specialize (pipe_sound Hp st HΦ).
    destruct (do_pipe w st) as [st' [[rc rd] wr]]. by apply IH.
  - unfold do_getrusage. destruct (rusage_children w). apply IH, log_sound, HΦ.
  - apply IH, log_sound, HΦ.
  - apply IH, log_sound, HΦ.
Qed.

Hypothesis fork_sound : ∀ r, r ≠ 0 → may π SysFork r.
Hypothesis wait_sound : ∀ pid r, may π (SysWaitpid pid) r.

Lemma shell_step_obeys s s' :
  Φ (sh_state s) → obeys π (last_line (log (sh_state s))) (sh_code s) →
  shell_step w s = Some s' →
  Φ (sh_state s') ∧ obeys π (last_line (log (sh_state s'))) (sh_code s').
Proof.
  intros HΦ Hob. unfold shell_step.
  inversion Hob as [|why|c Hc|a k Ha Hk Hcode|k Hp Hk Hcode|k Hk Hcode
                   |k Hk Hcode|k Hk Hcode]; try done.
  - destruct a; try (
      destruct (do_act w (sh_state s) _) as [st' r| | |] eqn:Hact; [|done..];
      intros [= <-]; cbn [sh_state sh_code advance];
      destruct (act_sound _ _ _ _ Ha HΦ Hact);
      rewrite (do_act_last_line _ _ _ _ _ Hact); split; [done|by apply Hk]).
    + destruct (fork_result w) as [pid|].
      * destruct (0 <? pid) eqn:Hpos; [|done].
        destruct (negb (is_live (kids s) pid)); [|done].
        intros [= <-]. cbn. rewrite last_line_snoc_act.
        split; [by apply log_sound|]. apply Hk, fork_sound. lia.
      * intros [= <-]. cbn. rewrite last_line_snoc_act.
        split; [by apply log_sound|]. by apply Hk, fork_sound.
    + destruct (kids s !! pid) as [kd|]; [destruct (k_status kd)|];
        try done; intros [= <-]; cbn; rewrite last_line_snoc_act;
        (split; [by apply log_sound|apply Hk, wait_sound]).
  - specialize (pipe_sound Hp _ HΦ). unfold do_pipe in *.
    destruct (pipe_ok w); intros [= <-]; cbn in *;
      rewrite last_line_app; cbn; (split; [done|apply Hk]).
  - unfold do_getrusage. destruct (rusage_children w). intros [= <-]. cbn.
    rewrite last_line_app. cbn. split; [by apply log_sound|apply Hk].
  - intros [= <-]. cbn. rewrite last_line_app. cbn.
    split; [by apply log_sound|apply Hk].
  - intros [= <-]. cbn. rewrite last_line_app. cbn.
    split; [by apply log_sound|apply Hk].
Qed.
End Policy.

Lemma obeys_store_tokens {A} π last toks pos buf acc
    (f : list string → prog A) (k : A → prog unit) :
  okact π SysAlloc →
  (may π SysAlloc 0 → obeys π last alloc_failed) →
  obeys π last (bind (f (acc ++ toks)) k) →
  obeys π last (bind (bind (store_tokens toks pos buf acc) f) k).
Proof.
  intros Ha Hfail. revert pos buf acc.
  induction toks as [|token toks IH]; intros pos buf acc Hk; cbn.
  - by rewrite app_nil_r in Hk.
  - rewrite (cons_middle token), app_assoc in Hk.
    destruct (pos + 1 >=? buf); [|by apply IH].
    cbn. apply ObAct; [done|]. intros r Hr.
    destruct (r =? 0) eqn:Hr0; [|by apply IH].
    apply Z.eqb_eq in Hr0 as ->. by apply Hfail.
Qed.

Lemma obeys_split_line π last line (k : argv → prog unit) :
  okact π SysAlloc →
  (may π SysAlloc 0 → obeys π last alloc_failed) →
  obeys π last (k (vector_of (strtok_all line))) →
  obeys π last (bind (split_line line) k).
Proof.
  intros Ha Hfail Hk. unfold split_line. cbn. apply ObAct; [done|].
  intros r Hr. destruct (r =? 0) eqn:Hr0.
  - apply Z.eqb_eq in Hr0 as ->. by apply Hfail.
  - by apply obeys_store_tokens.
Qed.

Lemma obeys_exec_or_die π last args :
  (∀ f a, okact π (SysExecvp f a)) → okact π (SysPerror "dragonshell") →
  okexit π last EXIT_FAILURE →
  obeys π last (exec_or_die args).
Proof.
  intros He Hp Hx. unfold exec_or_die.
  destruct (args !! 0%nat) as [file|]; [|apply ObFault].
  destruct (strings_until_null args) as [strs|]; [|apply ObFault].
  apply ObAct; [done|]. intros r _.
  destruct (r =? -1); [|by apply ObExit].
  apply ObAct; [done|]. intros _ _. by apply ObExit.
Qed.

Lemma pipe_stage_keeps_fds w cmd st :
  fds (final_state (run_prog w (do args <- split_line cmd; exec_or_die args) st))
  = fds st.
Proof.
  apply (run_prog_obeys fds_untouched (λ st', fds st' = fds st) w) with (last := None);
    [| |done| |done].
  - intros st1 a st2 r Ha Hst Hact. split; [done|]. rewrite <- Hst.
    destruct a as [| |[f|] args'| | | | | | | | | | | | | |x|x v];
      cbn in Ha, Hact; try discriminate.
    all: repeat match type of Hact with
         | context [if ?b then _ else _] => destruct b
         | context [match ?o with Some _ => _ | None => _ end] => destruct o
         end; try discriminate; by injection Hact as <- <-.
  - intros [].
  - apply obeys_split_line; [done| |].
    + intros _. apply ObAct; [done|]. intros _ _. by apply ObExit.
    + by apply obeys_exec_or_die.
Qed.

Lemma pipe_child1_fds w cmd rd wr st :
  fds (final_state (run_prog w (pipe_child1 cmd rd wr) st))
  = delete wr (dup2_table (delete rd (fds st)) wr STDOUT_FILENO).
Proof.
  unfold pipe_child1, call, dup2_table. cbn [run_prog do_act].
  cbn [fds logged with_fds with_log].
  destruct (delete rd (fds st) !! wr) as [o|]; cbn [run_prog do_act];
    by rewrite pipe_stage_keeps_fds.
Qed.

Lemma pipe_child2_fds w cmd rd wr st :
  fds (final_state (run_prog w (pipe_child2 cmd rd wr) st))
  = delete rd (dup2_table (delete wr (fds st)) rd STDIN_FILENO).
Proof.
  unfold pipe_child2, call, dup2_table. cbn [run_prog do_act].
  cbn [fds logged with_fds with_log].
  destruct (delete wr (fds st) !! rd) as [o|]; cbn [run_prog do_act];
    by rewrite pipe_stage_keeps_fds.
Qed.

Lemma no_read_end_delete n fd t : no_read_end n t → no_read_end n (delete fd t).
Proof.
  intros H fd'. destruct (decide (fd = fd')) as [->|Hne].
  - by rewrite lookup_delete_eq.
  - by rewrite lookup_delete_ne.
Qed.

Lemma no_write_end_delete n fd t : no_write_end n t → no_write_end n (delete fd t).
Proof.
  intros H fd'. destruct (decide (fd = fd')) as [->|Hne].
  - by rewrite lookup_delete_eq.
  - by rewrite lookup_delete_ne.
Qed.

Lemma no_read_end_dup2 n t oldfd newfd :
  no_read_end n t → no_read_end n (dup2_table t oldfd newfd).
Proof.
  intros H. unfold dup2_table. destruct (t !! oldfd) as [o|] eqn:Ho; [|done].
  intros fd. destruct (decide (newfd = fd)) as [->|Hne].
  - rewrite lookup_insert_eq. intros [= ->]. by apply (H oldfd).
  - by rewrite lookup_insert_ne.
Qed.

Lemma no_write_end_dup2 n t oldfd newfd :
  no_write_end n t → no_write_end n (dup2_table t oldfd newfd).
Proof.
  intros H. unfold dup2_table. destruct (t !! oldfd) as [o|] eqn:Ho; [|done].
  intros fd. destruct (decide (newfd = fd)) as [->|Hne].
  - rewrite lookup_insert_eq. intros [= ->]. by apply (H oldfd).
  - by rewrite lookup_insert_ne.
Qed.

(** Closing the read descriptor of a fresh pipe leaves no read end, and
    likewise for the write end. *)
Lemma piped_without_rd st :
  no_read_end (pipes_made st) (fds st) →
  no_read_end (pipes_made st) (delete (pipe_rd st) (fds (piped st))).
Proof.
  intros H fd. cbn. destruct (decide (pipe_rd st = fd)) as [->|Hne].
  - by rewrite lookup_delete_eq.
  - rewrite lookup_delete_ne by done.
    destruct (decide (pipe_wr st = fd)) as [->|Hne'].
    + by rewrite lookup_insert_eq.
    + by rewrite !lookup_insert_ne.
Qed.

Lemma piped_without_wr st :
  no_write_end (pipes_made st) (fds st) →
  no_write_end (pipes_made st) (delete (pipe_wr st) (fds (piped st))).
Proof.
  intros H fd. cbn. destruct (decide (pipe_wr st = fd)) as [->|Hne].
  - by rewrite lookup_delete_eq.
  - rewrite lookup_delete_ne by done. rewrite lookup_insert_ne by done.
    destruct (decide (pipe_rd st = fd)) as [->|Hne'].
    + by rewrite lookup_insert_eq.
    + by rewrite lookup_insert_ne.
Qed.

(** ** Single steps of the system *)

Lemma is_live_insert_ne ks p q kd : p ≠ q → is_live (<[q := kd]> ks) p = is_live ks p.
Proof. intros Hne. unfold is_live. by rewrite lookup_insert_ne. Qed.

Lemma sys_run_cons t ts s s1 :
  sys_step t s = Some s1 → sys_run (t :: ts) s = sys_run ts s1.
Proof. cbn. by intros ->. Qed.

Lemma shell_step_eq_pipe w s k :
  sh_code s = Pipe k → pipe_ok w = true →
  shell_step w s
  = Some (advance s (k 0 (pipe_rd (sh_state s)) (pipe_wr (sh_state s)))
                  (piped (sh_state s))).
Proof. intros Hc Hp. unfold shell_step. rewrite Hc. by rewrite do_pipe_ok. Qed.

Lemma shell_step_eq_fork w s k pid :
  sh_code s = Act SysFork k → fork_result w = Some pid →
  0 < pid → is_live (kids s) pid = false →
  shell_step w s
  = Some {| sh_code := k pid;
            sh_state := logged (sh_state s) (EvAct SysFork pid);
            kids := <[pid := {| k_code := k 0; k_start := sh_state s;
                                k_status := KRunning |}]> (kids s);
            delivered := delivered s |}.
Proof.
  intros Hc Hf Hpos Hl. unfold shell_step. rewrite Hc, Hf, Hl.
  by replace (0 <? pid) with true by lia.
Qed.

Lemma shell_step_eq_close w s fd k :
  sh_code s = Act (SysClose fd) k →
  ∃ r, shell_step w s = Some (advance s (k r) (closed (sh_state s) fd)).
Proof. intros Hc. unfold shell_step. rewrite Hc. by eexists. Qed.

Lemma shell_step_eq_wait w s pid k kd :
  sh_code s = Act (SysWaitpid pid) k →
  kids s !! pid = Some kd → k_status kd = KZombie →
  shell_step w s
  = Some {| sh_code := k pid;
            sh_state := logged (sh_state s) (EvAct (SysWaitpid pid) pid);
            kids := <[pid := {| k_code := k_code kd; k_start := k_start kd;
                                k_status := KReaped |}]> (kids s);
            delivered := delivered s |}.
Proof. intros Hc Hk Hz. unfold shell_step. by rewrite Hc, Hk, Hz. Qed.

Lemma shell_step_blocked w s pid k kd :
  sh_code s = Act (SysWaitpid pid) k →
  kids s !! pid = Some kd → k_status kd = KRunning →
  shell_step w s = None.
Proof. intros Hc Hk Hz. unfold shell_step. by rewrite Hc, Hk, Hz. Qed.

Lemma child_exit_step_eq pid s kd :
  kids s !! pid = Some kd → k_status kd = KRunning →
  child_exit_step pid s
  = Some {| sh_code := sh_code s; sh_state := sh_state s;
            kids := <[pid := {| k_code := k_code kd; k_start := k_start kd;
                                k_status := KZombie |}]> (kids s);
            delivered := delivered s |}.
Proof. intros Hk Hr. unfold child_exit_step. by rewrite Hk, Hr. Qed.

Ltac look :=
  cbn [kids advance];
  repeat (rewrite lookup_insert_eq || rewrite lookup_insert_ne by done);
  reflexivity.


(** Both orders in which the two stages can terminate let the parent
    through its two waits. *)
Lemma pipeline_either_order cmd1 cmd2 st0 kids0 dl0 w0 w1 w2 w p1 p2 first second :
  pipe_ok w0 = true → fork_result w1 = Some p1 → fork_result w2 = Some p2 →
  0 < p1 → 0 < p2 → p1 ≠ p2 →
  is_live kids0 p1 = false → is_live kids0 p2 = false →
  (first = p1 ∧ second = p2) ∨ (first = p2 ∧ second = p1) →
  ∃ s, sys_run [TShell w0; TShell w1; TShell w2; TShell w; TShell w;
                TChildExit first; TChildExit second; TShell w; TShell w]
         {| sh_code := execute_pipe cmd1 cmd2; sh_state := st0;
            kids := kids0; delivered := dl0 |} = Some s
       ∧ sh_code s = Ret tt.
Proof.
  intros Hpipe Hf1 Hf2 H1 H2 Hne Hl1 Hl2 Horder.
  erewrite sys_run_cons; [|by apply shell_step_eq_pipe].
  erewrite sys_run_cons;
    [|eapply shell_step_eq_fork with (pid := p1); [reflexivity|done..]].
  cbn beta. replace (p1 =? 0) with false by lia.
  replace (p1 <? 0) with false by lia.
  erewrite sys_run_cons;
    [|eapply shell_step_eq_fork with (pid := p2); [reflexivity|done|done|];
      cbn [kids]; by rewrite is_live_insert_ne].
  cbn beta. replace (p2 =? 0) with false by lia.
  replace (p2 <? 0) with false by lia.
  edestruct shell_step_eq_close as [r1 Hs1];
    [|erewrite sys_run_cons; [|exact Hs1]]; [reflexivity|].
  edestruct shell_step_eq_close as [r2 Hs2];
    [|erewrite sys_run_cons; [|exact Hs2]]; [reflexivity|].
  clear Hs1 Hs2. cbn [advance kids delivered sh_code sh_state].
  destruct Horder as [[-> ->]|[-> ->]].
  - erewrite sys_run_cons;
      [|apply child_exit_step_eq; [look|done]].
    erewrite sys_run_cons;
      [|apply child_exit_step_eq;
        [look|done]].
    erewrite sys_run_cons;
      [|eapply shell_step_eq_wait;
        [reflexivity|look|done]].
    erewrite sys_run_cons;
      [|eapply shell_step_eq_wait;
        [reflexivity|look|done]].
    by eexists.
  - erewrite sys_run_cons;
      [|apply child_exit_step_eq; [look|done]].
    erewrite sys_run_cons;
      [|apply child_exit_step_eq;
        [look|done]].
    erewrite sys_run_cons;
      [|eapply shell_step_eq_wait;
        [reflexivity|look|done]].
    erewrite sys_run_cons;
      [|eapply shell_step_eq_wait;
        [reflexivity|look|done]].
    by eexists.
Qed.

Lemma both_reaped_log st0 p1 p2 :
  ∃ c1 c2,
    log (both_reaped st0 p1 p2) = log st0 ++
      [EvPipe 0 (pipe_rd st0) (pipe_wr st0); EvAct SysFork p1; EvAct SysFork p2;
       EvAct (SysClose (pipe_rd st0)) c1; EvAct (SysClose (pipe_wr st0)) c2;
       EvAct (SysWaitpid p1) p1; EvAct (SysWaitpid p2) p2].
Proof.
  unfold both_reaped, first_reaped, ends_closed, closed, forked_twice,
    forked_once, piped.
  cbn [log logged with_log with_fds with_pipes_made fds].
  eexists _, _. rewrite <- !app_assoc. cbn [app]. reflexivity.
Qed.

Lemma both_reaped_fds st0 p1 p2 :
  fds (both_reaped st0 p1 p2)
  = delete (pipe_wr st0) (delete (pipe_rd st0) (fds (piped st0))).
Proof. done. Qed.


(** ** The tokenizer *)

Lemma run_store_tokens {A R} w toks pos buf acc
    (f : list string → prog A) (k : A → prog R) st :
  alloc_ok w = true →
  ∃ n, run_prog w (bind (bind (store_tokens toks pos buf acc) f) k) st
       = run_prog w (bind (f (acc ++ toks)) k)
           (with_log st (log st ++ replicate n (EvAct SysAlloc 1))).
Proof.
  intros Halloc. revert pos buf acc st.
  induction toks as [|token toks IH]; intros pos buf acc st; cbn [store_tokens].
  - exists 0%nat. cbn. by rewrite !app_nil_r, with_log_same.
  - cbn zeta. destruct (pos + 1 >=? buf).
    + cbn [bind run_prog do_act]. rewrite Halloc. cbn [Z.eqb].
      destruct (IH (pos + 1) (buf + LSH_TOK_BUFSIZE) (acc ++ [token])
                   (logged st (EvAct SysAlloc 1))) as [n ->].
      exists (S n). rewrite <- app_assoc. cbn [app replicate log logged with_log].
      by rewrite <- app_assoc.
    + destruct (IH (pos + 1) buf (acc ++ [token]) st) as [n ->].
      exists n. by rewrite <- app_assoc.
Qed.

Lemma run_split_line {R} w line (k : argv → prog R) st :
  alloc_ok w = true →
  ∃ n, run_prog w (bind (split_line line) k) st
       = run_prog w (k (vector_of (strtok_all line)))
           (with_log st (log st ++ replicate (S n) (EvAct SysAlloc 1))).
Proof.
  intros Halloc. unfold split_line. cbn [bind run_prog do_act].
  rewrite Halloc. cbn [Z.eqb].
  destruct (run_store_tokens w (strtok_all line) 0 LSH_TOK_BUFSIZE []
              (λ toks, Ret (vector_of toks)) k (logged st (EvAct SysAlloc 1))
              Halloc) as [n ->].
  exists n. cbn [bind app log logged with_log]. by rewrite <- app_assoc.
Qed.


(** ** The interpreter's own exits *)

Ltac obey :=
  repeat match goal with
  | |- obeys _ _ (Ret _) => apply ObRet
  | |- obeys _ _ (Fault _) => apply ObFault
  | |- obeys _ _ (call _ _) => unfold call
  | |- obeys _ _ (add_to _ _ _) => unfold add_to
  | |- obeys _ _ (Act _ _) => apply ObAct; [try done|intros ? ?]
  | |- obeys _ _ (Pipe _) => apply ObPipe; [try done|intros ? ? ?]
  | |- obeys _ _ (Getrusage _) => apply ObGetrusage; intros ? ?
  | |- obeys _ _ (Getcwd _) => apply ObGetcwd; intros ?
  | |- obeys _ _ (if ?b then _ else _) => destruct b eqn:?
  | |- obeys _ _ (match ?o with Some _ => _ | None => _ end) => destruct o eqn:?
  end.

(** The parent's side of the launchers never exits. *)
Lemma execute_pipe_session last cmd1 cmd2 :
  obeys session_policy last (execute_pipe cmd1 cmd2).
Proof.
  unfold execute_pipe, pipe_first_fork, pipe_second_fork, pipe_parent. obey.
  all: cbn in *; lia.
Qed.

Lemma execute_command_session last args background :
  obeys session_policy last (execute_command args background).
Proof.
  unfold execute_command, execute_command_parent, account_usage. obey.
  cbn in *; lia.
Qed.

Lemma cd_session last path : obeys session_policy last (cd path).
Proof. unfold cd. obey. Qed.

Lemma pwd_session last : obeys session_policy last pwd.
Proof. unfold pwd. obey. Qed.

Lemma kill_background_session last idxs k :
  obeys session_policy last k →
  obeys session_policy last (kill_background idxs k).
Proof. intros Hk. induction idxs as [|i idxs IH]; cbn; [done|]. obey; done. Qed.

Lemma exit_shell_session last :
  asks_to_exit last → obeys session_policy last exit_shell.
Proof.
  intros Hlast. unfold exit_shell. obey.
  apply kill_background_session. by apply ObExit.
Qed.

Lemma run_tokens_session line :
  is_pipe line = None →
  obeys session_policy (Some (Some line)) (run_tokens (vector_of (strtok_all line))).
Proof.
  intros Hpipe. unfold run_tokens. rewrite vector_of_vec.
  rewrite vec_lookup by lia. rewrite <- head_lookup.
  destruct (head (strtok_all line)) as [t0|] eqn:Ht0; [|apply ObRet].
  destruct (String.eqb t0 "cd") eqn:Hcd.
  { destruct (vec (strtok_all line) [] !! 1%nat); [apply cd_session|apply ObFault]. }
  destruct (String.eqb t0 "pwd"); [apply pwd_session|].
  destruct (String.eqb t0 "exit") eqn:Hexit.
  { apply exit_shell_session. right. exists line.
    apply String.eqb_eq in Hexit as ->. done. }
  destruct (is_background_process _) as [[tokens background]|];
    [apply execute_command_session|apply ObFault].
Qed.

Lemma main_body_session last : obeys session_policy last main_body.
Proof.
  unfold main_body, call, read_line. apply ObAct; [done|]. intros _ _.
  cbn [bind]. apply ObGetline. intros [line|]; cbn [bind].
  - destruct (is_pipe line) as [[cmd1 cmd2]|] eqn:Hpipe.
    + apply execute_pipe_session.
    + apply obeys_split_line; [done| |by apply run_tokens_session].
      cbn. done.
  - apply ObAct; [done|]. intros eof Heof. cbn in Heof.
    replace (eof =? 0) with false by lia. cbn.
    apply ObExit. split; [done|by left].
Qed.

Lemma main_init_session last : obeys session_policy last main_init.
Proof. unfold main_init. obey. Qed.

Lemma session_act_sound w st a st' r :
  no_failures w → do_act w st a = Returns st' r → may session_policy a r.
Proof.
  intros [Halloc Heof].
  destruct a as [| |[f|] args'| | | | | | | | | | | | | |x|x v]; cbn;
    try done; rewrite ?Halloc, ?Heof; by intros [= _ <-].
Qed.


(** A policy the loop body obeys holds throughout the session. *)
Section SessionPolicy.
Variables (π : policy) (Φ : pstate → Prop) (envok : world → Prop).

Hypothesis act_sound : ∀ w st a st' r,
  envok w → okact π a → Φ st → do_act w st a = Returns st' r →
  may π a r ∧ Φ st'.
Hypothesis pipe_sound : ∀ w st, Φ st → Φ (do_pipe w st).1.
Hypothesis log_sound : ∀ st e, Φ st → Φ (logged st e).
Hypothesis fork_sound : ∀ r, r ≠ 0 → may π SysFork r.
Hypothesis wait_sound : ∀ pid r, may π (SysWaitpid pid) r.
Hypothesis body_obeys : ∀ last, obeys π last main_body.

Lemma reenter_holds s : holds π Φ s → holds π Φ (reenter s).
Proof.
  intros [HΦ Hob]. unfold reenter, holds.
  destruct (sh_code s) eqn:E; try (by rewrite E). cbn. split; [done|].
  apply body_obeys.
Qed.

Lemma session_step_holds t s s' :
  (∀ w, t = TShell w → envok w) →
  holds π Φ s → session_step t s = Some s' → holds π Φ s'.
Proof.
  intros Hw [HΦ Hob]%reenter_holds. unfold session_step, holds.
  destruct t as [w|pid|w sig]; cbn.
  - intros Hstep.
    eapply (shell_step_obeys π Φ w); [..|done|done|exact Hstep]; try done.
    + intros st a st' r. apply act_sound. by apply Hw.
    + intros _. apply pipe_sound.
  - intros (-> & -> & _)%child_exit_step_shell. done.
  - intros (-> & -> & _)%signal_step_shell. done.
Qed.

Lemma session_run_holds ts s s' :
  Forall envok (shell_worlds ts) →
  holds π Φ s → session_run ts s = Some s' → holds π Φ s'.
Proof.
  revert s. induction ts as [|t ts IH]; intros s Hws Hs; cbn.
  - by intros [= <-].
  - destruct (session_step t s) as [s1|] eqn:Hstep; [|done].
    apply IH.
    + destruct t; cbn in Hws; [by apply Forall_cons in Hws as [_ ?]|done..].
    + eapply session_step_holds; [|done..].
      intros w ->. cbn in Hws. by apply Forall_cons in Hws as [? _].
Qed.
End SessionPolicy.

Lemma session_run_obeys ts s s' :
  Forall no_failures (shell_worlds ts) →
  obeys session_policy (last_line (log (sh_state s))) (sh_code s) →
  session_run ts s = Some s' →
  obeys session_policy (last_line (log (sh_state s'))) (sh_code s').
Proof.
  intros Hws Hob Hrun.
  eapply (session_run_holds session_policy (λ _, True) no_failures);
    [..|exact Hws| |exact Hrun]; try done.
  - intros w st a st' r Hw _ _ Hact. split; [|done].
    by eapply session_act_sound.
  - apply main_body_session.
Qed.

(** *** The interpreter records no child *)

Lemma execute_pipe_records last cmd1 cmd2 :
  obeys records_nothing last (execute_pipe cmd1 cmd2).
Proof.
  unfold execute_pipe, pipe_first_fork, pipe_second_fork, pipe_parent. obey.
  all: cbn in *; lia.
Qed.

Lemma execute_command_records last args background :
  obeys records_nothing last (execute_command args background).
Proof.
  unfold execute_command, execute_command_parent, account_usage. obey.
  cbn in *; lia.
Qed.

Lemma cd_records last path : obeys records_nothing last (cd path).
Proof. unfold cd. obey. Qed.

Lemma pwd_records last : obeys records_nothing last pwd.
Proof. unfold pwd. obey. Qed.

Lemma kill_background_records last idxs k :
  obeys records_nothing last k →
  obeys records_nothing last (kill_background idxs k).
Proof.
  intros Hk. induction idxs as [|i idxs IH]; cbn; [done|].
  apply ObAct; [done|]. intros p Hp. cbn in Hp. subst p. done.
Qed.

Lemma exit_shell_records last : obeys records_nothing last exit_shell.
Proof.
  unfold exit_shell. obey. apply kill_background_records. by apply ObExit.
Qed.

Lemma run_tokens_records last tokens :
  obeys records_nothing last (run_tokens tokens).
Proof.
  unfold run_tokens.
  destruct (tokens !! 0%nat) as [[t0|]|]; [|apply ObRet|apply ObFault].
  destruct (String.eqb t0 "cd").
  { destruct (tokens !! 1%nat); [apply cd_records|apply ObFault]. }
  destruct (String.eqb t0 "pwd"); [apply pwd_records|].
  destruct (String.eqb t0 "exit"); [apply exit_shell_records|].
  destruct (is_background_process _) as [[tokens' background]|];
    [apply execute_command_records|apply ObFault].
Qed.

Lemma main_body_records last : obeys records_nothing last main_body.
Proof.
  unfold main_body, call, read_line. apply ObAct; [done|]. intros _ _.
  cbn [bind]. apply ObGetline. intros [line|]; cbn [bind].
  - destruct (is_pipe line) as [[cmd1 cmd2]|].
    + apply execute_pipe_records.
    + apply obeys_split_line; [done| |apply run_tokens_records].
      intros _. unfold alloc_failed. obey. by apply ObExit.
  - apply ObAct; [done|]. intros eof _.
    destruct (negb (eof =? 0)); cbn; [by apply ObExit|].
    apply ObAct; [done|]. intros _ _. by apply ObExit.
Qed.

Lemma main_init_records last : obeys records_nothing last main_init.
Proof. unfold main_init. obey. Qed.

Lemma records_act_sound w st a st' r :
  okact records_nothing a → nothing_recorded st →
  do_act w st a = Returns st' r →
  may records_nothing a r ∧ nothing_recorded st'.
Proof.
  unfold nothing_recorded. intros Ha [Hc Hb].
  destruct a as [| |[f|] args'| | | | | | | | | | | | | |x|x v]; cbn in Ha |- *;
    try done.
  all: repeat match goal with
       | |- context [if ?b then _ else _] => destruct b
       | |- context [match ?o with Some _ => _ | None => _ end] =>
           destruct o eqn:?
       end; try done; try (by intros [= <- <-]).
  - destruct x; cbn in *; intros [= <- <-]; try done.
    rewrite Hb in *. split; [|done].
    match goal with H : [-1] !! _ = Some _ |- _ =>
      by apply list_elem_of_lookup_2, list_elem_of_singleton in H end.
  - destruct x; cbn in *; try done;
      match goal with H : Some _ = Some _ |- _ => injection H as <- end;
      by intros [= <- <-].
Qed.

Lemma session_run_records ts s s' :
  nothing_recorded (sh_state s) →
  obeys records_nothing (last_line (log (sh_state s))) (sh_code s) →
  session_run ts s = Some s' →
  nothing_recorded (sh_state s')
  ∧ obeys records_nothing (last_line (log (sh_state s'))) (sh_code s').
Proof.
  intros HΦ Hob Hrun.
  eapply (session_run_holds records_nothing nothing_recorded (λ _, True));
    [..| |exact Hrun]; try done.
  - intros w st a st' r _. apply records_act_sound.
  - intros w st. unfold do_pipe. by destruct (pipe_ok w).
  - apply main_body_records.
  - by apply Forall_true.
Qed.

Lemma redirect_stage_failed w tok flags mode target toks st st' :
  redirect_stage w tok flags mode target toks st = inr st' →
  last (log st') = Some (EvAct (SysPerror "dragonshell") 0).
Proof.
  unfold redirect_stage. destruct (first_index tok toks) as [i|]; [|done].
  cbn zeta. destruct (can_open w (toks !! S i) flags); [done|].
  intros [= <-]. rewrite open_failed_log. by rewrite last_app.
Qed.

Lemma exec_on_tokens_failed w toks st file :
  head toks = Some file → can_exec w file toks = false →
  ∃ st', exec_on_tokens w toks st = OExit EXIT_FAILURE st'
         ∧ last (log st') = Some (EvAct (SysPerror "dragonshell") 0).
Proof.
  unfold exec_on_tokens. destruct toks as [|f toks]; [done|].
  intros [= ->] ->. eexists. split; [done|]. cbn. by rewrite last_snoc.
Qed.

Lemma child_on_tokens_failed w toks st file :
  head (before_operators toks) = Some file →
  can_exec w file (before_operators toks) = false →
  ∃ st', child_on_tokens w toks st = OExit EXIT_FAILURE st'
         ∧ last (log st') = Some (EvAct (SysPerror "dragonshell") 0).
Proof.
  rewrite before_operators_cut. intros Hfile Hexec. unfold child_on_tokens.
  destruct (redirect_stage w ">" _ _ _ toks st) as [[toks1 st1]|st1] eqn:E1.
  - apply redirect_stage_tokens in E1 as ->.
    destruct (redirect_stage w "<" _ _ _ _ st1) as [[toks2 st2]|st2] eqn:E2.
    + apply redirect_stage_tokens in E2 as ->. by eapply exec_on_tokens_failed.
    + apply redirect_stage_failed in E2. by eexists.
  - apply redirect_stage_failed in E1. by eexists.
Qed.

Lemma pipe_stage_failed w cmd st file :
  alloc_ok w = true → head (strtok_all cmd) = Some file →
  can_exec w file (strtok_all cmd) = false →
  ∃ st', run_prog w (do args <- split_line cmd; exec_or_die args) st
         = OExit EXIT_FAILURE st'
         ∧ last (log st') = Some (EvAct (SysPerror "dragonshell") 0).
Proof.
  intros Halloc Hfile Hexec.
  destruct (run_split_line w cmd (λ args, exec_or_die args) st Halloc) as [n ->].
  rewrite vector_of_vec, run_exec_or_die. by eapply exec_on_tokens_failed.
Qed.


Lemma signal_step_prompts w sig s s' :
  child_pid (mem (sh_state s)) = -1 →
  signal_step w sig s = Some s' →
  delivered s' = delivered s ++
    [(sig, [EvAct (SysPrintf (nl +:+ "dragonshell > ") []) 0; EvAct SysFflush 0])].
Proof.
  intros Hpid. unfold signal_step.
  destruct (handlers (sh_state s) !! sig) as [h|]; [|done].
  destruct h; cbn; rewrite Hpid; cbn; by intros [= <-].
Qed.


(** The descriptors of a shell that has just started are the three it
    has inherited. *)
Lemma boot_fds_inherited fd o : fds boot_state !! fd = Some o → o = FInherited.
Proof.
  unfold boot_state. cbn [fds]. intros H.
  repeat (apply lookup_insert_Some in H as [[_ <-]|[_ H]]; [done|]).
  by rewrite lookup_empty in H.
Qed.


(** * The claims *)

(** C1 (the source departs from it).  The claim has [child_pid] set to the
    child's process id just before the shell waits for a foreground child
    and cleared just after, so that an interrupt reaches the child's
    process group.  The source never assigns [child_pid]: in every session
    that starts from the initialisers it is -1 in every state, so every
    signal the shell handles prints the prompt and none is forwarded.  The
    second half runs the failing input: [sleep 5] in the foreground and an
    interrupt while the shell is blocked in [waitpid] for process 4242. *)
Theorem foreground_reference_is_never_set :
  (∀ st0 kids0 dl0 ts s,
     mem st0 = initial_globals →
     session_run ts {| sh_code := main_init; sh_state := st0;
                       kids := kids0; delivered := dl0 |} = Some s →
     child_pid (mem (sh_state s)) = -1
     ∧ ∀ w sig s', sys_step (TSignal w sig) s = Some s' →
         delivered s' = delivered s ++
           [(sig, [EvAct (SysPrintf (nl +:+ "dragonshell > ") []) 0;
                   EvAct SysFflush 0])])
  ∧ match session_run (shell_ticks 9 (world_typing "sleep 5")
                       ++ [TSignal helpful_world SIGINT]) booting with
    | Some s =>
        log (sh_state s) =
          [EvAct SysGetpid 4000; EvAct (SysSignal SIGINT H_sigint) 0;
           EvAct (SysSignal SIGTSTP H_sigtstp) 0;
           EvAct (SysPrintf ("Welcome to Dragon Shell!" +:+ nl) []) 0;
           EvAct (SysPrintf "dragonshell > " []) 0;
           EvGetline (Some ("sleep 5" +:+ nl)); EvAct SysAlloc 1;
           EvAct SysFork 4242]
        ∧ next_action (sh_code s) = Some (SysWaitpid 4242)
        ∧ k_status <$> kids s !! 4242 = Some KRunning
        ∧ child_pid (mem (sh_state s)) = -1
        ∧ delivered s =
            [(SIGINT, [EvAct (SysPrintf (nl +:+ "dragonshell > ") []) 0;
                       EvAct SysFflush 0])]
    | None => False
    end.
Proof.
  split.
  - intros st0 kids0 dl0 ts s Hmem Hrun.
    assert (nothing_recorded (sh_state s)) as [Hpid _].
    { eapply session_run_records; [| |exact Hrun]; cbn.
      - unfold nothing_recorded. by rewrite Hmem.
      - apply main_init_records. }
    split; [done|]. intros w sig s'. cbn. by apply signal_step_prompts.
  - vm_compute. split_and!; reflexivity.
Qed.



(** C2 (the source departs from it).  The claim has the process id of a
    background command stored in the background slot, and [exit] sending
    SIGTERM to it.  The source never writes [bg_processes]: in every
    session that starts from the initialisers the slot stays -1 and the
    shell is never about to call [kill].  The second half runs the failing
    input, [sleep 100 &] followed by [exit]: the shell exits with the job
    still running and its log holds no [kill]. *)
Theorem background_slot_is_never_filled :
  (∀ st0 kids0 dl0 ts s,
     mem st0 = initial_globals →
     session_run ts {| sh_code := main_init; sh_state := st0;
                       kids := kids0; delivered := dl0 |} = Some s →
     bg_processes (mem (sh_state s)) = [-1]
     ∧ ∀ pid sig k, sh_code s ≠ Act (SysKill pid sig) k)
  ∧ match session_run (shell_ticks 10 (world_typing "sleep 100 &")
                       ++ shell_ticks 13 (world_typing "exit")) booting with
    | Some s =>
        log (sh_state s) =
          [EvAct SysGetpid 4000; EvAct (SysSignal SIGINT H_sigint) 0;
           EvAct (SysSignal SIGTSTP H_sigtstp) 0;
           EvAct (SysPrintf ("Welcome to Dragon Shell!" +:+ nl) []) 0;
           EvAct (SysPrintf "dragonshell > " []) 0;
           EvGetline (Some ("sleep 100 &" +:+ nl)); EvAct SysAlloc 1;
           EvAct SysFork 4242;
           EvAct (SysPrintf ("PID %d is sent to background" +:+ nl) [PInt 4242]) 0;
           EvAct (SysPrintf "dragonshell > " []) 0;
           EvGetline (Some ("exit" +:+ nl)); EvAct SysAlloc 1;
           EvGetrusage 3 1;
           EvAct (SysPrintf ("User time: %ld seconds" +:+ nl) [PInt 3]) 0;
           EvAct (SysPrintf ("Sys time: %ld seconds" +:+ nl) [PInt 1]) 0]
        ∧ sh_code s = Exit 0
        ∧ k_status <$> kids s !! 4242 = Some KRunning
        ∧ bg_processes (mem (sh_state s)) = [-1]
    | None => False
    end.
Proof.
  split.
  - intros st0 kids0 dl0 ts s Hmem Hrun.
    assert (nothing_recorded (sh_state s)
            ∧ obeys records_nothing (last_line (log (sh_state s))) (sh_code s))
      as [[_ Hbg] Hob].
    { eapply session_run_records; [| |exact Hrun]; cbn.
      - unfold nothing_recorded. by rewrite Hmem.
      - apply main_init_records. }
    split; [done|]. intros pid sig k Hc. rewrite Hc in Hob.
    inversion Hob as [| | |a k' Ha| | | |]. done.
  - vm_compute. split_and!; reflexivity.
Qed.


(** C3 (amended).  For every argument vector, whatever the files and
    programs around it: the file named after the first [>] is opened with
    O_WRONLY|O_CREAT|O_TRUNC and mode 0644, as the child's first call; the
    file named after the first [<] is opened read-only when the first [>],
    if there is one, stands after that name and its own file could be
    opened; and the vector is cut at the operator, not closed up: the
    vector handed to [execvp] is the tokens in front of the first
    operator, so the operator, the file name and every argument after
    them are gone. *)
Theorem redirection_cuts_the_vector w st toks rest :
  let o := run_prog w (execute_command_child (vec toks rest)) st in
  (∀ i, first_index ">" toks = Some i →
     ∃ r evs, log (final_state o) = log st ++
       EvAct (SysOpen (toks !! S i) OUTPUT_FLAGS (Some MODE_0644)) r :: evs)
  ∧ (∀ j, first_index "<" toks = Some j →
       match first_index ">" toks with
       | Some i => (S j < i)%nat ∧ can_open w (toks !! S i) OUTPUT_FLAGS = true
       | None => True
       end →
       ∃ r, EvAct (SysOpen (toks !! S j) O_RDONLY None) r ∈ log (final_state o))
  ∧ (∀ file args st', o = OExec file args st' →
       args = before_operators toks ∧ head args = Some file)
  ∧ (∀ file, head (before_operators toks) = Some file →
       (∀ name flags, can_open w name flags = true) →
       can_exec w file (before_operators toks) = true →
       ∃ st', o = OExec file (before_operators toks) st').
Proof.
  intros o. unfold o. rewrite child_run_eq. clear o. split_and!.
  - intros i Hi. unfold child_on_tokens.
    destruct (redirect_stage_log w ">" OUTPUT_FLAGS (Some MODE_0644)
                STDOUT_FILENO toks st i Hi) as (r & evs & Hlog).
    destruct (redirect_stage w ">" _ _ _ toks st) as [[toks1 st1]|st1];
      [|by eexists _, _].
    destruct (redirect_stage_log_grows w "<" O_RDONLY None STDIN_FILENO toks1 st1)
      as (evs2 & Hlog2).
    destruct (redirect_stage w "<" _ _ _ toks1 st1) as [[toks2 st2]|st2].
    + destruct (exec_on_tokens_log w toks2 st2) as (evs3 & ->).
      rewrite Hlog2, Hlog. rewrite <- !app_assoc. by eexists _, _.
    + cbn. rewrite Hlog2, Hlog. rewrite <- !app_assoc. by eexists _, _.
  - intros j Hj Hgt. unfold child_on_tokens.
    pose proof (first_index_Some _ _ _ Hj) as (_ & _ & Hjlt).
    assert (∃ st1, redirect_stage w ">" OUTPUT_FLAGS (Some MODE_0644)
                     STDOUT_FILENO toks st = inl (cut_at ">" toks, st1)
                   ∧ first_index "<" (cut_at ">" toks) = Some j
                   ∧ cut_at ">" toks !! S j = toks !! S j) as (st1 & -> & Hj' & Hname).
    { unfold redirect_stage, cut_at.
      destruct (first_index ">" toks) as [i|] eqn:Hi; [|by eexists].
      destruct Hgt as [Hlt ->]. cbn zeta. eexists. split; [done|].
      split; [|apply lookup_take_lt; lia].
      rewrite (first_index_split _ _ _ Hi) in Hj.
      apply first_index_Some in Hj as (Hjth & Hjn & _).
      rewrite lookup_app_l in Hjth by (rewrite length_take; lia).
      rewrite take_app_le in Hjn by (rewrite length_take; lia).
      rewrite <- (take_drop_middle _ _ _ Hjth).
      rewrite first_index_app; [f_equal|done].
      rewrite length_take, length_take. lia. }
    destruct (redirect_stage_log w "<" O_RDONLY None STDIN_FILENO
                (cut_at ">" toks) st1 j Hj') as (r & evs & Hlog).
    rewrite Hname in Hlog.
    destruct (redirect_stage w "<" _ _ _ _ st1) as [[toks2 st2]|st2].
    + destruct (exec_on_tokens_log w toks2 st2) as (evs3 & ->).
      exists r. rewrite Hlog, <- app_assoc. apply elem_of_app. right. by left.
    + exists r. cbn. rewrite Hlog. apply elem_of_app. right. by left.
  - intros file args st'. apply child_on_tokens_exec.
  - intros file Hfile Hopen Hexec. unfold child_on_tokens, redirect_stage.
    rewrite before_operators_cut in *. unfold cut_at in *.
    destruct (first_index ">" toks) as [i|].
    + cbn zeta. rewrite Hopen.
      destruct (first_index "<" (take i toks)) as [j|].
      * cbn zeta. rewrite Hopen. unfold exec_on_tokens.
        destruct (take j (take i toks)); [done|].
        injection Hfile as ->. rewrite Hexec. by eexists.
      * unfold exec_on_tokens. destruct (take i toks); [done|].
        injection Hfile as ->. rewrite Hexec. by eexists.
    + destruct (first_index "<" toks) as [j|].
      * cbn zeta. rewrite Hopen. unfold exec_on_tokens.
        destruct (take j toks); [done|].
        injection Hfile as ->. rewrite Hexec. by eexists.
      * unfold exec_on_tokens. destruct toks; [done|].
        injection Hfile as ->. rewrite Hexec. by eexists.
Qed.


Lemma redirection_cuts_the_vector_witness :
  first_index ">" ["echo"; "a"; ">"; "out"; "b"]%string = Some 2%nat
  ∧ exec_of (run_prog helpful_world
       (execute_command_child (vec ["echo"; "a"; ">"; "out"; "b"] [])) boot_state)
    = Some ("echo"%string, before_operators ["echo"; "a"; ">"; "out"; "b"]%string)
  ∧ before_operators ["echo"; "a"; ">"; "out"; "b"]%string = ["echo"; "a"]%string.
Proof.
  split; [reflexivity|]. split; [|reflexivity].
  assert (fst <$> exec_of (run_prog helpful_world
            (execute_command_child (vec ["echo"; "a"; ">"; "out"; "b"]%string []))
            boot_state) = Some "echo"%string) as Hobs by (vm_compute; reflexivity).
  destruct (run_prog helpful_world
              (execute_command_child (vec ["echo"; "a"; ">"; "out"; "b"]%string []))
              boot_state) as [| |file args st'| |] eqn:Hrun;
    try discriminate Hobs.
  destruct (redirection_cuts_the_vector helpful_world boot_state
              ["echo"; "a"; ">"; "out"; "b"]%string []) as (_ & _ & Hexec & _).
  destruct (Hexec file args st' Hrun) as [-> _].
  cbn in Hobs |- *. by injection Hobs as <-.
Defined.

(** C3 as it is written fails on [echo a > out b]: the spec's reading
    keeps [b] in the vector, the code runs [echo a]. *)
Lemma redirection_drops_trailing_arguments :
  exec_of (run_prog helpful_world
     (execute_command_child (vector_of ["echo"; "a"; ">"; "out"; "b"])) boot_state)
  = Some ("echo"%string, ["echo"; "a"]%string)
  ∧ spec_remove_pair ">" ["echo"; "a"; ">"; "out"; "b"]%string
    = ["echo"; "a"; "b"]%string.
Proof. split; vm_compute; reflexivity. Qed.


(** C4 (amended).  The scans never read outside a null-terminated vector.
    When the last token is an operator that its scan reaches (a trailing
    [>] that is the first [>], or a trailing [<] in a vector without [>]
    and without an earlier [<]), the code has no check for the missing
    name: it reads the next slot, which is the terminating NULL, and
    passes that null pointer to [open]; when the system refuses it, the
    child reports the error and exits with status 1 without running the
    command. *)
Theorem trailing_operator_hands_null_to_open w st :
  (∀ args st', null_terminated args →
     run_prog w (execute_command_child args) st ≠ OFault OutOfBounds st')
  ∧ (∀ pre rest, first_index ">" pre = None →
       vec (pre ++ [">"]) rest !! S (length pre) = Some None
       ∧ (can_open w None OUTPUT_FLAGS = false →
          run_prog w (execute_command_child (vec (pre ++ [">"]) rest)) st
          = OExit EXIT_FAILURE
              (open_failed st None OUTPUT_FLAGS (Some MODE_0644))))
  ∧ (∀ pre rest, first_index ">" pre = None → first_index "<" pre = None →
       vec (pre ++ ["<"]) rest !! S (length pre) = Some None
       ∧ (can_open w None O_RDONLY = false →
          run_prog w (execute_command_child (vec (pre ++ ["<"]) rest)) st
          = OExit EXIT_FAILURE (open_failed st None O_RDONLY None))).
Proof.
  split_and!.
  - intros args st' (toks & rest & ->)%null_terminated_vec.
    rewrite child_run_eq. apply child_on_tokens_in_bounds.
  - intros pre rest Hpre. split.
    + rewrite vec_lookup by (rewrite length_app; simpl; lia).
      by rewrite lookup_past_snoc.
    + intros Hopen. rewrite child_run_eq. unfold child_on_tokens, redirect_stage.
      rewrite first_index_snoc by done. cbn zeta.
      by rewrite lookup_past_snoc, Hopen.
  - intros pre rest Hout Hin. split.
    + rewrite vec_lookup by (rewrite length_app; simpl; lia).
      by rewrite lookup_past_snoc.
    + intros Hopen. rewrite child_run_eq. unfold child_on_tokens, redirect_stage.
      rewrite first_index_snoc_other by done.
      rewrite first_index_snoc by done. cbn zeta.
      by rewrite lookup_past_snoc, Hopen.
Qed.

Lemma trailing_operator_hands_null_to_open_witness :
  first_index ">" ["sort"]%string = None
  ∧ can_open helpful_world None OUTPUT_FLAGS = false
  ∧ run_prog helpful_world
      (execute_command_child (vec (["sort"] ++ [">"]) [])) boot_state
    = OExit EXIT_FAILURE
        (open_failed boot_state None OUTPUT_FLAGS (Some MODE_0644)).
Proof.
  split; [reflexivity|]. split; [reflexivity|].
  destruct (trailing_operator_hands_null_to_open helpful_world boot_state)
    as (_ & H & _).
  destruct (H ["sort"]%string [] eq_refl) as [_ Hrun].
  exact (Hrun eq_refl).
Defined.


(** The claim fails on [cmd > out <]: the last token is an operator and
    the command runs. *)
Lemma trailing_operator_command_runs :
  last ["cmd"; ">"; "out"; "<"]%string = Some "<"%string
  ∧ exec_of (run_prog helpful_world
       (execute_command_child (vector_of ["cmd"; ">"; "out"; "<"])) boot_state)
    = Some ("cmd"%string, ["cmd"%string]).
Proof. split; [reflexivity|]. vm_compute. reflexivity. Qed.



(** C5.  A pipeline for which [pipe] and both [fork]s succeed: when
    [execute_pipe] has returned, the parent's calls were, in this order,
    pipe, fork, fork, close of the read end, close of the write end,
    waitpid of the first child, waitpid of the second; both children have
    terminated and been waited for; the parent holds no end of the pipe;
    the writer holds no read end and the reader no write end from the
    moment they have set themselves up; and the parent gets through its
    two waits in whichever order the children terminate. *)
Theorem pipeline_closes_ends_and_waits cmd1 cmd2 st0 kids0 dl0 ts s :
  no_read_end (pipes_made st0) (fds st0) →
  no_write_end (pipes_made st0) (fds st0) →
  Forall resources_last (shell_worlds ts) →
  sys_run ts {| sh_code := execute_pipe cmd1 cmd2; sh_state := st0;
                kids := kids0; delivered := dl0 |} = Some s →
  sh_code s = Ret tt →
  let n := pipes_made st0 in
  let rd := pipe_rd st0 in
  let wr := pipe_wr st0 in
  ∃ p1 p2 c1 c2,
    log (sh_state s) = log st0 ++
      [EvPipe 0 rd wr; EvAct SysFork p1; EvAct SysFork p2;
       EvAct (SysClose rd) c1; EvAct (SysClose wr) c2;
       EvAct (SysWaitpid p1) p1; EvAct (SysWaitpid p2) p2]
    ∧ reaped (kids s) p1 (pipe_child1 cmd1 rd wr) (piped st0)
    ∧ reaped (kids s) p2 (pipe_child2 cmd2 rd wr) (forked_once st0 p1)
    ∧ no_read_end n (fds (sh_state s)) ∧ no_write_end n (fds (sh_state s))
    ∧ (∀ w, no_read_end n
         (fds (final_state (run_prog w (pipe_child1 cmd1 rd wr) (piped st0)))))
    ∧ (∀ w, no_write_end n
         (fds (final_state (run_prog w (pipe_child2 cmd2 rd wr)
                                     (forked_once st0 p1)))))
    ∧ (∀ first second kids1 dl1,
         (first = p1 ∧ second = p2) ∨ (first = p2 ∧ second = p1) →
         is_live kids1 p1 = false → is_live kids1 p2 = false →
         ∃ w0 w1 w2 s',
           sys_run [TShell w0; TShell w1; TShell w2; TShell w0; TShell w0;
                    TChildExit first; TChildExit second; TShell w0; TShell w0]
             {| sh_code := execute_pipe cmd1 cmd2; sh_state := st0;
                kids := kids1; delivered := dl1 |} = Some s'
           ∧ sh_code s' = Ret tt).
Proof.
  intros Hnr Hnw Hws Hrun Hret n rd wr.
  assert (pipe_point cmd1 cmd2 st0 s) as Hpt.
  { eapply sys_run_pipe_point; [done| |done]. by apply PpStart. }
  destruct Hpt as
    [Hc Hs|Hc Hs|p1 H1 Hc Hs Hk1|p1 p2 H1 H2 Hne Hk1 Hk2 Hcs
    |p1 p2 H1 H2 Hne Hk1 Hk2 Hc Hs|p1 p2 H1 H2 Hne Hk1 Hk2 Hc Hs];
    try (rewrite Hc in Hret; discriminate).
  { destruct Hcs as [[Hc _]|[[Hc _]|[Hc _]]]; rewrite Hc in Hret; discriminate. }
  destruct (both_reaped_log st0 p1 p2) as (c1 & c2 & Hlog).
  exists p1, p2, c1, c2. rewrite Hs. split_and!; [done..| | | | |].
  - rewrite both_reaped_fds. apply no_read_end_delete. by apply piped_without_rd.
  - rewrite both_reaped_fds. rewrite delete_delete.
    apply no_write_end_delete. by apply piped_without_wr.
  - intros w. rewrite pipe_child1_fds.
    apply no_read_end_delete, no_read_end_dup2. by apply piped_without_rd.
  - intros w. rewrite pipe_child2_fds.
    apply no_write_end_delete, no_write_end_dup2. by apply piped_without_wr.
  - intros first second kids1 dl1 Horder Hl1 Hl2.
    exists (world_forking p1), (world_forking p1), (world_forking p2).
    by eapply pipeline_either_order.
Qed.


Lemma pipeline_closes_ends_and_waits_witness :
  match sys_run pipe_ticks pipe_start with
  | Some s =>
      has_returned (sh_code s) = true
      ∧ ∃ p1 p2,
          reaped (kids s) p1
            (pipe_child1 "ls -l " (pipe_rd armed_state) (pipe_wr armed_state))
            (piped armed_state)
          ∧ reaped (kids s) p2
              (pipe_child2 " wc -l" (pipe_rd armed_state) (pipe_wr armed_state))
              (forked_once armed_state p1)
          ∧ no_read_end 0 (fds (sh_state s))
          ∧ no_write_end 0 (fds (sh_state s))
  | None => False
  end.
Proof.
  assert ((λ s, has_returned (sh_code s)) <$> sys_run pipe_ticks pipe_start
          = Some true) as Hobs by (vm_compute; reflexivity).
  destruct (sys_run pipe_ticks pipe_start) as [s|] eqn:Hrun; [|discriminate Hobs].
  injection Hobs as Hret.
  assert (∀ n, no_read_end n (fds armed_state)) as Hnr.
  { intros n fd Hfd. by apply boot_fds_inherited in Hfd. }
  assert (∀ n, no_write_end n (fds armed_state)) as Hnw.
  { intros n fd Hfd. by apply boot_fds_inherited in Hfd. }
  assert (Forall resources_last (shell_worlds pipe_ticks)) as Hws.
  { repeat constructor; cbn; eauto. }
  assert (sh_code s = Ret tt) as Hcode.
  { by destruct (sh_code s) as [[]| | | | | | |]. }
  destruct (pipeline_closes_ends_and_waits "ls -l " " wc -l" armed_state ∅ []
              pipe_ticks s (Hnr _) (Hnw _) Hws Hrun Hcode)
    as (p1 & p2 & c1 & c2 & _ & Hr1 & Hr2 & Hp1 & Hp2 & _).
  split; [exact Hret|]. exists p1, p2.
  exact (conj Hr1 (conj Hr2 (conj Hp1 Hp2))).
Defined.


(** C6 (the source departs from it).  The claim has no failure of the
    error taxonomy end the interactive session, and the taxonomy has the
    session go on when the argument buffer cannot be allocated; the
    documentation of [split_line] has it return NULL then.  The source
    does neither: when the allocator refuses, [split_line] prints its
    message on the standard error and calls [exit(EXIT_FAILURE)] in the
    interpreter itself, whatever the line, so it never returns to [main]
    and the session ends with status 1 though the user has neither typed
    [exit] nor ended the input.  The last part runs the failing input:
    the line [ls -l] in a shell that has just started, with no memory
    left; nothing is launched. *)
Theorem allocation_failure_tears_down_the_interpreter :
  (∀ w st line,
     next_line w = Some line → is_pipe line = None → alloc_ok w = false →
     run_prog w main_body st
     = OExit EXIT_FAILURE
         (with_log st (log st ++
            [EvAct (SysPrintf "dragonshell > " []) 0; EvGetline (Some line);
             EvAct SysAlloc 0;
             EvAct (SysEprintf ("lsh: allocation error" +:+ nl)) 0])))
  ∧ (∀ w st line args st',
       alloc_ok w = false →
       run_prog w (split_line line) st ≠ ODone args st')
  ∧ match session_run (shell_ticks 4 starving_world) at_prompt with
    | Some s =>
        log (sh_state s) =
          [EvAct (SysPrintf "dragonshell > " []) 0;
           EvGetline (Some ("ls -l" +:+ nl)); EvAct SysAlloc 0;
           EvAct (SysEprintf ("lsh: allocation error" +:+ nl)) 0]
        ∧ sh_code s = Exit EXIT_FAILURE
        ∧ is_pipe ("ls -l" +:+ nl) = None
        ∧ strtok_all ("ls -l" +:+ nl) = ["ls"; "-l"]%string
        ∧ kids s !! 4242 = None
    | None => False
    end.
Proof.
  split_and!.
  - intros w st line Hline Hpipe Halloc. unfold main_body, call, read_line.
    cbn [run_prog do_act bind do_getline]. rewrite Hline. cbn [bind].
    rewrite Hpipe. unfold split_line, alloc_failed, call.
    cbn [bind run_prog do_act]. rewrite Halloc. cbn [Z.eqb bind run_prog do_act].
    f_equal. unfold logged. rewrite !with_log_with_log. f_equal.
    cbn [log with_log]. by rewrite <- !app_assoc.
  - intros w st line args st' Halloc. unfold split_line, alloc_failed, call.
    cbn [run_prog do_act]. rewrite Halloc. by cbn.
  - vm_compute. split_and!; reflexivity.
Qed.


(** C7.  A single foreground command: from the [fork] on, as long as the
    process it has spawned has not been waited for, the shell is at its
    [waitpid], which does not return while that process runs; when
    [execute_command] has returned the process has terminated and been
    waited for; and the two totals are at every moment at least what they
    were before the command, the system reporting CPU times that are not
    negative and that a [long] can hold. *)
Theorem foreground_waits_and_totals_grow args st0 kids0 dl0 ts s :
  long_range (total_user_time (mem st0)) →
  long_range (total_sys_time (mem st0)) →
  Forall (usage_fits st0) (shell_worlds ts) →
  sys_run ts {| sh_code := execute_command args 0; sh_state := st0;
                kids := kids0; delivered := dl0 |} = Some s →
  (∀ pid evs,
     log (sh_state s) = log st0 ++ EvAct SysFork pid :: evs → 0 < pid →
     (sh_code s = call (SysWaitpid pid) account_usage
      ∧ unreaped (kids s) pid (execute_command_child args) st0
      ∧ (∀ w kd, kids s !! pid = Some kd → k_status kd = KRunning →
           shell_step w s = None))
     ∨ (reaped (kids s) pid (execute_command_child args) st0
        ∧ ∃ evs', evs = EvAct (SysWaitpid pid) pid :: evs'))
  ∧ (sh_code s = Ret tt → ∀ pid evs,
       log (sh_state s) = log st0 ++ EvAct SysFork pid :: evs → 0 < pid →
       reaped (kids s) pid (execute_command_child args) st0)
  ∧ total_user_time (mem st0) ≤ total_user_time (mem (sh_state s))
  ∧ total_sys_time (mem st0) ≤ total_sys_time (mem (sh_state s)).
Proof.
  intros Hut Hst Hws Hrun.
  assert (fg_point args st0 s) as Hpt.
  { eapply sys_run_fg_point; [done| |done]. by apply FgStart. }
  assert (∀ pid evs,
     log (sh_state s) = log st0 ++ EvAct SysFork pid :: evs → 0 < pid →
     (sh_code s = call (SysWaitpid pid) account_usage
      ∧ unreaped (kids s) pid (execute_command_child args) st0
      ∧ (∀ w kd, kids s !! pid = Some kd → k_status kd = KRunning →
           shell_step w s = None))
     ∨ (reaped (kids s) pid (execute_command_child args) st0
        ∧ ∃ evs', evs = EvAct (SysWaitpid pid) pid :: evs')) as Hwait.
  { intros pid evs Hlog Hpos.
    destruct Hpt as [H1 H2|evs0 H1 H2 H3|pid0 H0 H1 H2 H3|pid0 evs0 H0 H1 H2 H3].
    - rewrite H2 in Hlog. rewrite <- (app_nil_r (log st0)) in Hlog at 1.
      by apply app_inv_head in Hlog.
    - rewrite H2 in Hlog. apply app_inv_head in Hlog. injection Hlog as <-. lia.
    - rewrite H2 in Hlog. cbn in Hlog. apply app_inv_head in Hlog.
      injection Hlog as <- <-. left. split_and!; [done..|].
      intros w kd Hkd Hrunning. by eapply shell_step_blocked.
    - rewrite H2 in Hlog. apply app_inv_head in Hlog. injection Hlog as <- <-.
      right. split; [done|by eexists]. }
  split_and!; [done| | |].
  - intros Hret pid evs Hlog Hpos.
    destruct (Hwait pid evs Hlog Hpos) as [(Hc & _)|[? _]]; [|done].
    rewrite Hc in Hret. discriminate.
  - destruct Hpt as [H1 H2|evs0 H1 H2 H3|pid0 H0 H1 H2 H3|pid0 evs0 H0 H1 H2 H3].
    + by rewrite H2.
    + by rewrite H3.
    + by rewrite H2.
    + unfold long_range in *.
      destruct H3 as [[_ ->]|(ut & stime & Hu & Hs &
        [[_ ->]|[[_ ->]|[(_ & -> & _)|(_ & -> & _)]]])]; try done;
        rewrite wrap_long_fits; lia.
  - destruct Hpt as [H1 H2|evs0 H1 H2 H3|pid0 H0 H1 H2 H3|pid0 evs0 H0 H1 H2 H3].
    + by rewrite H2.
    + by rewrite H3.
    + by rewrite H2.
    + unfold long_range in *.
      destruct H3 as [[_ ->]|(ut & stime & Hu & Hs &
        [[_ ->]|[[_ ->]|[(-> & _ & _)|(_ & _ & ->)]]])]; try done;
        rewrite wrap_long_fits; lia.
Qed.

Lemma foreground_waits_and_totals_grow_witness :
  match sys_run fg_ticks fg_start with
  | Some s =>
      has_returned (sh_code s) = true
      ∧ reaped (kids s) 4242
          (execute_command_child (vector_of ["make"; "all"])) boot_state
      ∧ total_user_time (mem (sh_state s)) = 3
      ∧ total_sys_time (mem (sh_state s)) = 1
  | None => False
  end.
Proof.
  assert ((λ s, (has_returned (sh_code s), log (sh_state s),
                 total_user_time (mem (sh_state s)),
                 total_sys_time (mem (sh_state s))))
            <$> sys_run fg_ticks fg_start
          = Some (true, [EvAct SysFork 4242; EvAct (SysWaitpid 4242) 4242;
                         EvGetrusage 3 1], 3, 1)) as Hobs
    by (vm_compute; reflexivity).
  destruct (sys_run fg_ticks fg_start) as [s|] eqn:Hrun; [|discriminate Hobs].
  injection Hobs as Hret Hlog Hu Hs.
  assert (long_range 0) as Hr by (unfold long_range, LONG_MAX; lia).
  assert (Forall (usage_fits boot_state) (shell_worlds fg_ticks)) as Hws.
  { repeat constructor; cbn; unfold LONG_MAX; lia. }
  destruct (foreground_waits_and_totals_grow (vector_of ["make"; "all"])
              boot_state ∅ [] fg_ticks s Hr Hr Hws Hrun)
    as (_ & Hreaped & _ & _).
  split_and!; [done| |done..].
  destruct (sh_code s) as [[]| | | | | | |] eqn:Hc; try discriminate Hret.
  eapply (Hreaped eq_refl 4242); [exact Hlog|lia].
Defined.


(** C8.  [cd] without an argument prints the message and the loop body
    returns, so the interpreter goes on to its next prompt; [cd] with a
    path the system does not accept reports the error with [perror], the
    working directory is what it was, and the loop body returns. *)
Theorem cd_complains_and_stays w st line :
  next_line w = Some line → alloc_ok w = true → is_pipe line = None →
  let read := [EvAct (SysPrintf "dragonshell > " []) 0; EvGetline (Some line)] in
  (strtok_all line = ["cd"%string] →
     ∃ st' n, run_prog w main_body st = ODone tt st'
       ∧ log st' = log st ++ read ++ replicate (S n) (EvAct SysAlloc 1) ++
           [EvAct (SysPrintf ("dragonshell: Expected argument to " +:+ dquote
                              +:+ "cd" +:+ dquote +:+ nl) []) 0]
       ∧ cwd st' = cwd st)
  ∧ (∀ path more, strtok_all line = "cd"%string :: path :: more →
       chdir_to w path = None →
       ∃ st' n, run_prog w main_body st = ODone tt st'
         ∧ log st' = log st ++ read ++ replicate (S n) (EvAct SysAlloc 1) ++
             [EvAct (SysChdir path) (-1); EvAct (SysPerror "dragonshell") 0]
         ∧ cwd st' = cwd st).
Proof.
  intros Hline Halloc Hpipe read. split.
  - intros Htoks. unfold main_body, call, read_line.
    cbn [run_prog do_act bind do_getline]. rewrite Hline. cbn [bind]. rewrite Hpipe.
    match goal with
    | |- context [run_prog w (bind (split_line line) ?k) ?st1] =>
        destruct (run_split_line w line k st1 Halloc) as [n ->]
    end.
    rewrite Htoks. cbn. eexists _, n. split; [reflexivity|].
    split; [|done]. unfold logged, with_log. cbn. by rewrite <- !app_assoc.
  - intros path more Htoks Hcd. unfold main_body, call, read_line.
    cbn [run_prog do_act bind do_getline]. rewrite Hline. cbn [bind]. rewrite Hpipe.
    match goal with
    | |- context [run_prog w (bind (split_line line) ?k) ?st1] =>
        destruct (run_split_line w line k st1 Halloc) as [n ->]
    end.
    rewrite Htoks. cbn. rewrite Hcd. cbn. eexists _, n. split; [reflexivity|].
    split; [|done]. unfold logged, with_log. cbn. by rewrite <- !app_assoc.
Qed.


Lemma cd_complains_and_stays_witness :
  next_line (world_typing "cd /nonexistent") = Some ("cd /nonexistent" +:+ nl)
  ∧ strtok_all ("cd /nonexistent" +:+ nl) = ["cd"; "/nonexistent"]%string
  ∧ ∃ st', run_prog (world_typing "cd /nonexistent") main_body boot_state
           = ODone tt st'
           ∧ last (log st') = Some (EvAct (SysPerror "dragonshell") 0)
           ∧ cwd st' = cwd boot_state.
Proof.
  split; [reflexivity|]. split; [reflexivity|].
  destruct (cd_complains_and_stays (world_typing "cd /nonexistent") boot_state
              ("cd /nonexistent" +:+ nl)) as [_ Hbad]; [reflexivity..|].
  destruct (Hbad "/nonexistent"%string [] eq_refl eq_refl)
    as (st' & n & Hrun & Hlog & Hcwd).
  exists st'. split; [exact Hrun|]. split; [|exact Hcwd].
  rewrite Hlog, !app_assoc, last_app. reflexivity.
Defined.


(** C9 (amended).  When the first [>] stands in front of the first [<]
    (and a command name in front of both): the output scan writes NULL
    over the [>], the input scan stops there and never meets the [<]; the
    child makes one [open], for the output file, standard input is the
    descriptor it was, standard output is the file, and the program runs
    with the tokens in front of the [>]. *)
Theorem output_before_input_drops_input w st toks rest i j file :
  first_index ">" toks = Some i →
  first_index "<" toks = Some j →
  (0 < i < j)%nat →
  head toks = Some file →
  can_open w (toks !! S i) OUTPUT_FLAGS = true →
  can_exec w file (take i toks) = true →
  is_Some (fds st !! STDOUT_FILENO) →
  let fd := lowest_free (fds st) in
  is_Some (toks !! S i)
  ∧ scan "<" (<[i := None]> (vec toks rest)) = ScanEnd
  ∧ ∃ st',
      run_prog w (execute_command_child (vec toks rest)) st
        = OExec file (take i toks) st'
      ∧ fds st' !! STDIN_FILENO = fds st !! STDIN_FILENO
      ∧ fds st' !! STDOUT_FILENO = Some (FFile (toks !! S i) OUTPUT_FLAGS)
      ∧ log st' = log st ++
          [EvAct (SysOpen (toks !! S i) OUTPUT_FLAGS (Some MODE_0644)) fd;
           EvAct (SysDup2 fd STDOUT_FILENO) STDOUT_FILENO;
           EvAct (SysClose fd) 0;
           EvAct (SysExecvp (Some file) (take i toks)) 0].
Proof.
  intros Hi Hj Hij Hfile Hopen Hexec Hout fd.
  pose proof (first_index_Some _ _ _ Hi) as (_ & _ & Hilt).
  pose proof (first_index_Some _ _ _ Hj) as (_ & _ & Hjlt).
  pose proof (first_index_take "<" toks i j Hj ltac:(lia)) as Hcut.
  split_and!.
  - apply lookup_lt_is_Some_2. lia.
  - rewrite vec_insert by done. by rewrite scan_vec, Hcut.
  - rewrite child_run_eq. unfold child_on_tokens, redirect_stage.
    rewrite Hi. cbn zeta. rewrite Hopen, Hcut.
    destruct toks as [|f toks]; [done|]. injection Hfile as ->.
    destruct i as [|i]; [lia|]. unfold exec_on_tokens.
    cbn [take]. cbn [take] in Hexec. rewrite Hexec.
    eexists. split; [reflexivity|].
    pose proof (lowest_free_fresh (fds st)) as Hfresh. fold fd in Hfresh.
    assert (fd ≠ STDOUT_FILENO) as Hne1.
    { intros Heq. rewrite Heq in Hfresh. rewrite Hfresh in Hout. by destruct Hout. }
    cbn [fds logged with_log with_fds log]. fold fd.
    rewrite after_bind_fds, after_bind_log, after_open_fds, after_open_log.
    fold fd. split_and!.
    + destruct (decide (fd = STDIN_FILENO)) as [Heq|Hne0].
      * rewrite <- Heq, lookup_delete_eq. done.
      * rewrite lookup_delete_ne, lookup_insert_ne, lookup_insert_ne; done.
    + rewrite lookup_delete_ne, lookup_insert_eq; done.
    + by rewrite <- !app_assoc.
Qed.


Lemma output_before_input_drops_input_witness :
  first_index ">" ["sort"; ">"; "out"; "<"; "in"]%string = Some 1%nat
  ∧ first_index "<" ["sort"; ">"; "out"; "<"; "in"]%string = Some 3%nat
  ∧ ∃ st', run_prog helpful_world
             (execute_command_child (vec ["sort"; ">"; "out"; "<"; "in"] []))
             boot_state
           = OExec "sort" ["sort"%string] st'
           ∧ fds st' !! STDIN_FILENO = Some FInherited
           ∧ fds st' !! STDOUT_FILENO = Some (FFile (Some "out"%string) OUTPUT_FLAGS).
Proof.
  split; [reflexivity|]. split; [reflexivity|].
  destruct (output_before_input_drops_input helpful_world boot_state
              ["sort"; ">"; "out"; "<"; "in"]%string [] 1 3 "sort"%string)
    as (_ & _ & st' & Hrun & Hin & Hout & _);
    [reflexivity|reflexivity|lia|reflexivity|reflexivity|reflexivity| |].
  - exists FInherited. reflexivity.
  - exists st'. split; [exact Hrun|]. split; [|exact Hout].
    rewrite Hin. reflexivity.
Defined.


(** C9 as it is written fails on [sort < a > out < in]: a [>] stands
    before a [<] there, at the indices 3 and 5, but the first [<] stands
    in front of the [>]; the input scan meets it, opens [a] and binds it
    to the standard input, which is no longer the descriptor the shell
    has. *)
Lemma earlier_input_operator_is_honoured :
  ["sort"; "<"; "a"; ">"; "out"; "<"; "in"]%string !! 3%nat = Some ">"%string
  ∧ ["sort"; "<"; "a"; ">"; "out"; "<"; "in"]%string !! 5%nat = Some "<"%string
  ∧ ∃ st',
      run_prog helpful_world
        (execute_command_child
           (vector_of ["sort"; "<"; "a"; ">"; "out"; "<"; "in"]%string))
        boot_state
      = OExec "sort" ["sort"%string] st'
      ∧ fds boot_state !! STDIN_FILENO = Some FInherited
      ∧ fds st' !! STDIN_FILENO = Some (FFile (Some "a"%string) O_RDONLY)
      ∧ fds st' !! STDOUT_FILENO = Some (FFile (Some "out"%string) OUTPUT_FLAGS)
      ∧ log st' =
          [EvAct (SysOpen (Some "out"%string) OUTPUT_FLAGS (Some MODE_0644)) 3;
           EvAct (SysDup2 3 STDOUT_FILENO) STDOUT_FILENO;
           EvAct (SysClose 3) 0;
           EvAct (SysOpen (Some "a"%string) O_RDONLY None) 3;
           EvAct (SysDup2 3 STDIN_FILENO) STDIN_FILENO;
           EvAct (SysClose 3) 0;
           EvAct (SysExecvp (Some "sort"%string) ["sort"%string]) 0].
Proof.
  split; [reflexivity|]. split; [reflexivity|].
  eexists. split; [reflexivity|]. split_and!; reflexivity.
Qed.


(** C10.  A [&] anywhere in the vector: [is_background_process] returns 1
    and writes NULL over the first [&], so the vector the command is
    launched with shows the tokens in front of it only; [main] launches
    that vector as a background command, and what the child executes is
    made of those tokens, whatever followed the [&]. *)
Theorem background_marker_anywhere (pre post : list string) :
  first_index "&" pre = None →
  is_background_process (vector_of (pre ++ "&" :: post))
    = Some (vec pre (vector_of post), 1)
  ∧ strings_until_null (vec pre (vector_of post)) = Some pre
  ∧ (∀ t0, head (pre ++ "&" :: post) = Some t0 →
       t0 ≠ "cd"%string → t0 ≠ "pwd"%string → t0 ≠ "exit"%string →
       run_tokens (vector_of (pre ++ "&" :: post))
         = execute_command (vec pre (vector_of post)) 1)
  ∧ (∀ w st file args st',
       run_prog w (execute_command_child (vec pre (vector_of post))) st
         = OExec file args st' →
       args = before_operators pre).
Proof.
  intros Hpre%first_index_None.
  assert (is_background_process (vector_of (pre ++ "&" :: post))
          = Some (vec pre (vector_of post), 1)) as Hbg.
  { unfold is_background_process. rewrite vector_of_vec, scan_vec.
    rewrite first_index_app by done.
    rewrite vec_insert by (rewrite length_app; simpl; lia).
    by rewrite take_app_length, drop_past_middle. }
  split_and!; [done|apply strings_until_null_vec| |].
  - intros t0 Ht0 Hcd Hpwd Hexit. unfold run_tokens.
    rewrite vector_of_vec at 1. rewrite vec_lookup by lia.
    rewrite <- head_lookup, Ht0.
    apply String.eqb_neq in Hcd, Hpwd, Hexit. rewrite Hcd, Hpwd, Hexit.
    by rewrite Hbg.
  - intros w st file args st'. rewrite child_run_eq.
    by intros [? _]%child_on_tokens_exec.
Qed.

Lemma background_marker_anywhere_witness :
  is_background_process (vector_of (["sleep"; "9"] ++ "&" :: ["echo"; "hi"]))
    = Some (vec ["sleep"; "9"] (vector_of ["echo"; "hi"]), 1)
  ∧ exec_of (run_prog helpful_world
       (execute_command_child (vec ["sleep"; "9"] (vector_of ["echo"; "hi"])))
       boot_state) = Some ("sleep"%string, ["sleep"; "9"]%string).
Proof.
  destruct (background_marker_anywhere ["sleep"; "9"]%string ["echo"; "hi"]%string)
    as (H1 & _ & _ & _); [reflexivity|].
  split; [exact H1|]. vm_compute. reflexivity.
Defined.


(** * Further properties: lemmas *)

(** ** Tokens *)

#[local] Arguments is_delim : simpl never.

Lemma append_cons x (a b : string) : String x a +:+ b = String x (a +:+ b).
Proof. done. Qed.

Lemma append_nil_l (b : string) : EmptyString +:+ b = b.
Proof. done. Qed.

Lemma append_assoc (a b c : string) : (a +:+ b) +:+ c = a +:+ b +:+ c.
Proof.
  induction a as [|x a IH]; [done|]. rewrite !append_cons. by rewrite IH.
Qed.

Lemma delim_free_app a b :
  delim_free (a +:+ b) = delim_free a && delim_free b.
Proof.
  induction a as [|c a IH]; [done|]. rewrite append_cons. simpl.
  rewrite IH. by rewrite andb_assoc.
Qed.

Lemma is_token_push cur c :
  is_delim c = false →
  match cur with Some t => is_token t = true | None => True end →
  match push_char cur c with Some t => is_token t = true | None => True end.
Proof.
  intros Hc. destruct cur as [[|c' t]|]; simpl; rewrite ?Hc; try done.
  intros Ht. rewrite delim_free_app. simpl. rewrite Hc. simpl.
  by rewrite andb_true_r.
Qed.

Lemma strtok_from_tokens cur line :
  match cur with Some t => is_token t = true | None => True end →
  Forall (λ t, is_token t = true) (strtok_from cur line).
Proof.
  revert cur. induction line as [|c line IH]; intros cur Hcur; simpl.
  - destruct cur; [by apply Forall_singleton|done].
  - destruct (is_delim c) eqn:Hc.
    + destruct cur; [apply Forall_cons; split; [done|]|]; by apply IH.
    + by apply IH, is_token_push.
Qed.

Lemma strtok_from_delim cur a d b :
  is_delim d = true →
  strtok_from cur (a +:+ String d b) = strtok_from cur a ++ strtok_from None b.
Proof.
  intros Hd. revert cur. induction a as [|c a IH]; intros cur.
  - rewrite append_nil_l. simpl. rewrite Hd. by destruct cur.
  - rewrite append_cons. simpl. destruct (is_delim c); [|apply IH].
    destruct cur; simpl; by rewrite IH.
Qed.

Lemma strtok_from_plain cur t :
  delim_free t = true →
  strtok_from cur t =
    flush (match t with
           | EmptyString => cur
           | String _ _ => Some (match cur with Some u => u +:+ t | None => t end)
           end).
Proof.
  revert cur. induction t as [|c t IH]; intros cur; simpl; [done|].
  intros [Hc Ht]%andb_prop. apply negb_true_iff in Hc. rewrite Hc.
  rewrite IH by done. destruct t as [|c' t]; [by destruct cur|].
  destruct cur as [u|]; simpl; [|done].
  by rewrite append_assoc.
Qed.

Lemma strtok_all_token t : is_token t = true → strtok_all t = [t].
Proof.
  intros Ht. unfold strtok_all. destruct t as [|c t]; [done|].
  by rewrite strtok_from_plain.
Qed.

Lemma strtok_from_delims cur ds :
  all_delims ds = true → strtok_from cur ds = flush cur.
Proof.
  revert cur. induction ds as [|c ds IH]; intros cur; simpl; [done|].
  intros [-> Hds]%andb_prop. rewrite IH by done. by destruct cur.
Qed.

Lemma strtok_from_app_delims cur a ds :
  all_delims ds = true → strtok_from cur (a +:+ ds) = strtok_from cur a.
Proof.
  intros Hds. revert cur. induction a as [|c a IH]; intros cur.
  - rewrite append_nil_l. by apply strtok_from_delims.
  - rewrite append_cons. simpl. destruct (is_delim c); [|apply IH].
    destruct cur; by rewrite IH.
Qed.

Lemma strtok_all_delims ds : all_delims ds = true → strtok_all ds = [].
Proof. apply strtok_from_delims. Qed.

(** ** The tokenizer's buffer *)

Lemma chunk_step pos :
  0 ≤ pos →
  (pos + 1 >=? LSH_TOK_BUFSIZE * (pos / LSH_TOK_BUFSIZE + 1)) =
    ((pos + 1) / LSH_TOK_BUFSIZE =? pos / LSH_TOK_BUFSIZE + 1)
  ∧ pos / LSH_TOK_BUFSIZE ≤ (pos + 1) / LSH_TOK_BUFSIZE
      ≤ pos / LSH_TOK_BUFSIZE + 1.
Proof.
  unfold LSH_TOK_BUFSIZE. intros Hpos.
  assert (pos / 64 ≤ (pos + 1) / 64 ≤ pos / 64 + 1) as H.
  { split; [apply Z.div_le_mono; lia|].
    replace (pos / 64 + 1) with ((pos + 1 * 64) / 64)
      by (rewrite Z.div_add; lia).
    apply Z.div_le_mono; lia. }
  split; [|done].
  pose proof (Z.mul_div_le (pos + 1) 64 eq_refl).
  pose proof (Z.mul_succ_div_gt (pos + 1) 64 eq_refl).
  pose proof (Z.mul_div_le pos 64 eq_refl).
  pose proof (Z.mul_succ_div_gt pos 64 eq_refl).
  destruct (Z.eqb_spec ((pos + 1) / 64) (pos / 64 + 1));
    destruct (Z.geb_spec (pos + 1) (64 * (pos / 64 + 1))); try done; lia.
Qed.

Lemma run_store_tokens_count {A R} w toks pos acc
    (f : list string → prog A) (k : A → prog R) st :
  alloc_ok w = true → 0 ≤ pos →
  run_prog w (bind (bind (store_tokens toks pos
                            (LSH_TOK_BUFSIZE * (pos / LSH_TOK_BUFSIZE + 1)) acc) f) k) st
  = run_prog w (bind (f (acc ++ toks)) k)
      (with_log st (log st ++
         replicate (Z.to_nat ((pos + Z.of_nat (length toks)) / LSH_TOK_BUFSIZE
                              - pos / LSH_TOK_BUFSIZE))
                   (EvAct SysAlloc 1))).
Proof.
  intros Halloc. revert pos acc st.
  induction toks as [|token toks IH]; intros pos acc st Hpos; cbn [store_tokens].
  - cbn [length]. rewrite Z.add_0_r, Z.sub_diag. cbn.
    by rewrite !app_nil_r, with_log_same.
  - cbn zeta. destruct (chunk_step pos Hpos) as [-> Hle].
    replace (pos + Z.of_nat (length (token :: toks)))
      with (pos + 1 + Z.of_nat (length toks)) by (cbn [length]; lia).
    assert ((pos + 1) / LSH_TOK_BUFSIZE
            ≤ (pos + 1 + Z.of_nat (length toks)) / LSH_TOK_BUFSIZE) as Hmono
      by (apply Z.div_le_mono; [done|lia]).
    destruct (Z.eqb_spec ((pos + 1) / LSH_TOK_BUFSIZE) (pos / LSH_TOK_BUFSIZE + 1))
      as [Heq|Hne].
    + cbn [bind run_prog do_act]. rewrite Halloc. cbn [Z.eqb].
      replace (LSH_TOK_BUFSIZE * (pos / LSH_TOK_BUFSIZE + 1) + LSH_TOK_BUFSIZE)
        with (LSH_TOK_BUFSIZE * ((pos + 1) / LSH_TOK_BUFSIZE + 1)) by lia.
      rewrite IH by lia. rewrite <- (app_assoc acc). cbn [app].
      f_equal. unfold logged. rewrite with_log_with_log. f_equal.
      cbn [log with_log]. rewrite <- app_assoc. f_equal.
      replace (Z.to_nat ((pos + 1 + Z.of_nat (length toks)) / LSH_TOK_BUFSIZE
                         - pos / LSH_TOK_BUFSIZE))
        with (S (Z.to_nat ((pos + 1 + Z.of_nat (length toks)) / LSH_TOK_BUFSIZE
                           - (pos + 1) / LSH_TOK_BUFSIZE))) by lia.
      done.
    + replace (pos / LSH_TOK_BUFSIZE) with ((pos + 1) / LSH_TOK_BUFSIZE) by lia.
      rewrite IH by lia. by rewrite <- (app_assoc acc).
Qed.

Lemma run_split_line_count {R} w line (k : argv → prog R) st :
  alloc_ok w = true →
  run_prog w (bind (split_line line) k) st
  = run_prog w (k (vector_of (strtok_all line)))
      (with_log st (log st ++
         replicate (S (Z.to_nat (Z.of_nat (length (strtok_all line))
                                 / LSH_TOK_BUFSIZE)))
                   (EvAct SysAlloc 1))).
Proof.
  intros Halloc. unfold split_line. cbn [bind run_prog do_act].
  rewrite Halloc. cbn [Z.eqb].
  pose proof (run_store_tokens_count w (strtok_all line) 0 []
                (λ toks, Ret (vector_of toks)) k (logged st (EvAct SysAlloc 1))
                Halloc (Z.le_refl 0)) as Hrun.
  change (LSH_TOK_BUFSIZE * (0 / LSH_TOK_BUFSIZE + 1)) with LSH_TOK_BUFSIZE in Hrun.
  rewrite Hrun. cbn [bind app]. f_equal. unfold logged.
  rewrite with_log_with_log. f_equal. cbn [log with_log].
  rewrite <- app_assoc. f_equal. rewrite Z.add_0_l.
  change (0 / LSH_TOK_BUFSIZE) with 0. by rewrite Z.sub_0_r.
Qed.

Lemma run_bind_ret {A} w (p : prog A) st :
  run_prog w (bind p Ret) st = run_prog w p st.
Proof.
  revert st.
  induction p as [r|why|c|a k IH|k IH|k IH|k IH|k IH]; intros st;
    cbn [bind run_prog]; try done.
  - by destruct (do_act w st a).
  - by destruct (do_pipe w st) as [st' [[rc rd] wr]].
  - by destruct (do_getrusage w st) as [st' [ut stime]].
  - by destruct (do_getcwd w st) as [st' r].
  - by destruct (do_getline w st) as [st' r].
Qed.

Lemma run_split_line_alone w line st :
  alloc_ok w = true →
  run_prog w (split_line line) st
  = ODone (vector_of (strtok_all line))
      (with_log st (log st ++
         replicate (S (Z.to_nat (Z.of_nat (length (strtok_all line))
                                 / LSH_TOK_BUFSIZE)))
                   (EvAct SysAlloc 1))).
Proof.
  intros Halloc. rewrite <- run_bind_ret. by rewrite run_split_line_count.
Qed.

Lemma run_split_line_starved {R} w line (k : argv → prog R) st :
  alloc_ok w = false →
  run_prog w (bind (split_line line) k) st
  = OExit EXIT_FAILURE
      (logged (logged st (EvAct SysAlloc 0))
              (EvAct (SysEprintf ("lsh: allocation error" +:+ nl)) 0)).
Proof. intros Halloc. unfold split_line. cbn. by rewrite Halloc. Qed.

(** ** One turn of the loop *)

Lemma is_delim_not_bar c : is_delim c = true → Ascii.eqb c bar = false.
Proof.
  intros Hc. destruct (Ascii.eqb_spec c bar) as [->|]; [|done].
  by vm_compute in Hc.
Qed.

Lemma is_pipe_bar_free input : bar_free input = true → is_pipe input = None.
Proof.
  induction input as [|c input IH]; simpl; [done|].
  intros [Hc Hin]%andb_prop. apply negb_true_iff in Hc.
  change (ascii_of_nat 124) with bar. rewrite Hc. by rewrite IH.
Qed.

Lemma all_delims_bar_free ds : all_delims ds = true → bar_free ds = true.
Proof.
  induction ds as [|c ds IH]; simpl; [done|].
  intros [Hc Hds]%andb_prop. by rewrite is_delim_not_bar, IH.
Qed.

Lemma run_main_body_line w st line :
  next_line w = Some line → is_pipe line = None → alloc_ok w = true →
  run_prog w main_body st
  = run_prog w (run_tokens (vector_of (strtok_all line)))
      (with_log st (log st ++ [EvAct (SysPrintf "dragonshell > " []) 0;
                               EvGetline (Some line)] ++ allocations line)).
Proof.
  intros Hline Hpipe Halloc. unfold main_body, call, read_line.
  cbn [run_prog do_act bind do_getline]. rewrite Hline. cbn [bind].
  rewrite Hpipe, run_split_line_count by done. f_equal.
  unfold logged. rewrite !with_log_with_log. f_equal.
  cbn [log with_log]. by rewrite <- !app_assoc.
Qed.

Lemma run_tokens_vector toks :
  run_tokens (vector_of toks) =
  match toks with
  | [] => Ret tt
  | t0 :: more =>
      if String.eqb t0 "cd" then cd (head more)
      else if String.eqb t0 "pwd" then pwd
      else if String.eqb t0 "exit" then exit_shell
      else match is_background_process (vector_of toks) with
           | Some (tokens, background) => execute_command tokens background
           | None => Fault OutOfBounds
           end
  end.
Proof.
  destruct toks as [|t0 more]; [done|]. unfold run_tokens.
  cbn [vector_of fmap list_fmap app lookup list_lookup].
  by destruct more.
Qed.

Lemma run_cd_line w st line path more d :
  next_line w = Some line → is_pipe line = None → alloc_ok w = true →
  strtok_all line = "cd"%string :: path :: more → chdir_to w path = Some d →
  run_prog w main_body st
  = ODone tt
      (logged (with_cwd
                 (with_log st (log st ++
                    [EvAct (SysPrintf "dragonshell > " []) 0;
                     EvGetline (Some line)] ++ allocations line)) d)
              (EvAct (SysChdir path) 0)).
Proof.
  intros Hline Hpipe Halloc Htoks Hcd.
  rewrite (run_main_body_line w st line) by done.
  rewrite run_tokens_vector, Htoks. cbn [String.eqb Ascii.eqb Bool.eqb head].
  unfold cd. cbn [run_prog do_act]. by rewrite Hcd.
Qed.

Lemma run_pwd_line w st line :
  next_line w = Some line → is_pipe line = None → alloc_ok w = true →
  head (strtok_all line) = Some "pwd"%string → getcwd_ok w = true →
  run_prog w main_body st
  = ODone tt
      (logged (logged
                 (with_log st (log st ++
                    [EvAct (SysPrintf "dragonshell > " []) 0;
                     EvGetline (Some line)] ++ allocations line))
                 (EvGetcwd (Some (cwd st))))
              (EvAct (SysPrintf ("%s" +:+ nl) [PStr (cwd st)]) 0)).
Proof.
  intros Hline Hpipe Halloc Htoks Hcwd.
  rewrite (run_main_body_line w st line) by done.
  rewrite run_tokens_vector.
  destruct (strtok_all line) as [|t0 more]; [done|]. injection Htoks as ->.
  cbn [String.eqb Ascii.eqb Bool.eqb].
  unfold pwd, call. cbn [run_prog do_getcwd do_act]. by rewrite Hcwd.
Qed.

(** ** Descriptors of a redirected command *)

Lemma lowest_free_zero (t : gmap Z fobj) : lowest_free t = 0 ↔ t !! 0 = None.
Proof.
  split.
  - intros <-. apply lowest_free_fresh.
  - intros Hfree. unfold lowest_free. destruct (size t); simpl; [done|].
    by rewrite Hfree.
Qed.

Lemma redirect_stage_fds w tok flags mode target toks st toks' st' :
  redirect_stage w tok flags mode target toks st = inl (toks', st') →
  (∀ fd, fd ≠ target → fds st' !! fd = fds st !! fd)
  ∧ fds st' !! target =
      match first_index tok toks with
      | None => fds st !! target
      | Some i =>
          if decide (lowest_free (fds st) = target) then None
          else Some (FFile (toks !! S i) flags)
      end.
Proof.
  unfold redirect_stage. destruct (first_index tok toks) as [i|];
    [|by intros [= _ <-]].
  cbn zeta. destruct (can_open w (toks !! S i) flags); [|done].
  intros [= _ <-]. rewrite after_bind_fds, after_open_fds.
  pose proof (lowest_free_fresh (fds st)) as Hfresh. split.
  - intros fd Hfd. destruct (decide (fd = lowest_free (fds st))) as [->|Hne].
    + by rewrite lookup_delete_eq.
    + by rewrite lookup_delete_ne, !lookup_insert_ne.
  - destruct (decide (lowest_free (fds st) = target)) as [<-|Hne].
    + by rewrite lookup_delete_eq.
    + by rewrite lookup_delete_ne, lookup_insert_eq.
Qed.

Lemma exec_on_tokens_fds w toks st :
  fds (final_state (exec_on_tokens w toks st)) = fds st.
Proof.
  unfold exec_on_tokens. destruct toks as [|f toks]; [done|].
  by destruct (can_exec w f (f :: toks)).
Qed.

(** ** Policies along a schedule *)

Section SchedulePolicy.
Variables (π : policy) (Φ : pstate → Prop).

Hypothesis act_sound : ∀ w st a st' r,
  okact π a → Φ st → do_act w st a = Returns st' r → may π a r ∧ Φ st'.
Hypothesis pipe_sound : ∀ w st, okpipe π → Φ st → Φ (do_pipe w st).1.
Hypothesis log_sound : ∀ st e, Φ st → Φ (logged st e).
Hypothesis fork_sound : ∀ r, r ≠ 0 → may π SysFork r.
Hypothesis wait_sound : ∀ pid r, may π (SysWaitpid pid) r.

Lemma sys_step_holds t s s' :
  holds π Φ s → sys_step t s = Some s' → holds π Φ s'.
Proof.
  intros [HΦ Hob]. unfold holds. destruct t as [w|pid|w sig]; cbn.
  - intros Hstep.
    eapply (shell_step_obeys π Φ w); [..|done|done|exact Hstep]; try done.
    + intros st a st' r. apply act_sound.
    + intros Hp st. by apply pipe_sound.
  - intros (-> & -> & _)%child_exit_step_shell. done.
  - intros (-> & -> & _)%signal_step_shell. done.
Qed.

Lemma sys_run_holds ts s s' :
  holds π Φ s → sys_run ts s = Some s' → holds π Φ s'.
Proof.
  revert s. induction ts as [|t ts IH]; intros s Hs; cbn.
  - by intros [= <-].
  - destruct (sys_step t s) as [s1|] eqn:Hstep; [|done].
    apply IH. by eapply sys_step_holds.
Qed.
End SchedulePolicy.

(** *** The parent's side of a single command *)

Lemma run_tokens_keeps_table last tokens :
  obeys keeps_table last (run_tokens tokens).
Proof.
  unfold run_tokens.
  destruct (tokens !! 0%nat) as [[t0|]|]; [|apply ObRet|apply ObFault].
  destruct (String.eqb t0 "cd").
  { destruct (tokens !! 1%nat); [unfold cd; obey|apply ObFault]. }
  destruct (String.eqb t0 "pwd"); [unfold pwd; obey|].
  destruct (String.eqb t0 "exit").
  { unfold exit_shell. obey. unfold MAX_BG_PROC. cbn [seq kill_background].
    obey; by apply ObExit. }
  destruct (is_background_process _) as [[tokens' background]|]; [|apply ObFault].
  unfold execute_command, execute_command_parent. obey.
  cbn in *; lia.
Qed.

Lemma keeps_table_act_sound (t : gmap Z fobj) w st a st' r :
  okact keeps_table a → fds st = t →
  do_act w st a = Returns st' r →
  may keeps_table a r ∧ fds st' = t.
Proof.
  intros Ha Hst.
  destruct a as [| |[f|] args'| | | | | | | | | | | | | |x|x v];
    cbn in Ha |- *; try done.
  all: repeat match goal with
       | |- context [if ?b then _ else _] => destruct b
       | |- context [match ?o with Some _ => _ | None => _ end] => destruct o
       end; try done; by intros [= <- <-].
Qed.

(** *** Both sides of the launchers *)

Ltac obey_all :=
  repeat match goal with
  | |- obeys _ _ (exec_or_die _) => by apply obeys_exec_or_die
  | |- obeys _ _ (Exit _) => by apply ObExit
  | |- obeys _ _ (bind (split_line _) _) =>
      apply obeys_split_line;
        [done|intros _; unfold alloc_failed, call|]
  | |- obeys _ _ (bind (match ?x with _ => _ end) _) => destruct x eqn:?
  | |- obeys _ _ (bind _ _) => progress cbn [bind]
  | |- obeys _ _ (match ?x with _ => _ end) => destruct x eqn:?
  | _ => progress obey
  end.

Lemma kill_background_obeys π last idxs k :
  (∀ i, okact π (GGet (G_bg_processes i))) →
  (∀ p, okact π (SysKill p SIGTERM)) →
  obeys π last k → obeys π last (kill_background idxs k).
Proof.
  intros Hget Hkill Hk. induction idxs as [|i idxs IH]; cbn; [done|].
  apply ObAct; [done|]. intros p _. destruct (negb (p =? -1)); [|done].
  apply ObAct; [done|]. by intros _ _.
Qed.

(** *** Signal handlers *)

Lemma main_body_keeps_handlers last : obeys keeps_handlers last main_body.
Proof.
  unfold main_body, read_line, call. apply ObAct; [done|]. intros _ _.
  cbn [bind]. apply ObGetline. intros [line|]; cbn [bind].
  - destruct (is_pipe line) as [[cmd1 cmd2]|].
    + unfold execute_pipe, pipe_first_fork, pipe_second_fork, pipe_parent,
        pipe_child1, pipe_child2, call.
      obey_all.
    + apply obeys_split_line; [done| |].
      { intros _. unfold alloc_failed. obey. by apply ObExit. }
      unfold run_tokens.
      destruct (_ !! 0%nat) as [[t0|]|]; [|apply ObRet|apply ObFault].
      destruct (String.eqb t0 "cd").
      { destruct (_ !! 1%nat); [unfold cd; obey|apply ObFault]. }
      destruct (String.eqb t0 "pwd"); [unfold pwd; obey|].
      destruct (String.eqb t0 "exit").
      { unfold exit_shell. obey. apply kill_background_obeys; try done.
        by apply ObExit. }
      destruct (is_background_process _) as [[tokens' background]|];
        [|apply ObFault].
      unfold execute_command, execute_command_parent, execute_command_child,
        open_redirection, bind_descriptor, call.
      obey_all.
  - apply ObAct; [done|]. intros eof _.
    destruct (negb (eof =? 0)); cbn; [by apply ObExit|].
    apply ObAct; [done|]. intros _ _. by apply ObExit.
Qed.

Lemma keeps_handlers_act_sound (h : gmap Z handler) w st a st' r :
  okact keeps_handlers a → handlers st = h →
  do_act w st a = Returns st' r → handlers st' = h.
Proof.
  intros Ha Hst.
  destruct a as [| |[f|] args'| | | | | | | | | | | | | |x|x v];
    cbn in Ha |- *; try done.
  all: repeat match goal with
       | |- context [if ?b then _ else _] => destruct b
       | |- context [match ?o with Some _ => _ | None => _ end] => destruct o
       end; try done; by intros [= <- <-].
Qed.

(** *** Children the shell has left behind *)

Lemma main_body_spares p last : obeys (spares p) last main_body.
Proof.
  unfold main_body, read_line, call. apply ObAct; [done|]. intros _ _.
  cbn [bind]. apply ObGetline. intros [line|]; cbn [bind].
  - destruct (is_pipe line) as [[cmd1 cmd2]|].
    + unfold execute_pipe, pipe_first_fork, pipe_second_fork, pipe_parent,
        pipe_child1, pipe_child2, call.
      obey_all; cbn in *; congruence.
    + apply obeys_split_line; [done| |].
      { intros _. unfold alloc_failed. obey. by apply ObExit. }
      unfold run_tokens.
      destruct (_ !! 0%nat) as [[t0|]|]; [|apply ObRet|apply ObFault].
      destruct (String.eqb t0 "cd").
      { destruct (_ !! 1%nat); [unfold cd; obey|apply ObFault]. }
      destruct (String.eqb t0 "pwd"); [unfold pwd; obey|].
      destruct (String.eqb t0 "exit").
      { unfold exit_shell. obey. apply kill_background_obeys; try done.
        by apply ObExit. }
      destruct (is_background_process _) as [[tokens' background]|];
        [|apply ObFault].
      unfold execute_command, execute_command_parent, execute_command_child,
        open_redirection, bind_descriptor, call.
      obey_all; cbn in *; congruence.
  - apply ObAct; [done|]. intros eof _.
    destruct (negb (eof =? 0)); cbn; [by apply ObExit|].
    apply ObAct; [done|]. intros _ _. by apply ObExit.
Qed.

Lemma lingers_is_live ks p : lingers ks p → is_live ks p = true.
Proof.
  intros (kd & Hkd & Hst). unfold is_live. rewrite Hkd. by destruct (k_status kd).
Qed.

Lemma shell_step_spares p w s s' :
  0 < p → lingers (kids s) p →
  obeys (spares p) (last_line (log (sh_state s))) (sh_code s) →
  shell_step w s = Some s' →
  lingers (kids s') p
  ∧ obeys (spares p) (last_line (log (sh_state s'))) (sh_code s').
Proof.
  intros Hpos Hp Hob. unfold shell_step.
  inversion Hob as [|why|c Hc|a k Ha Hk Hcode|k Hpi Hk Hcode|k Hk Hcode
                   |k Hk Hcode|k Hk Hcode]; try done.
  - destruct a; try (
      destruct (do_act w (sh_state s) _) as [st' r| | |] eqn:Hact; [|done..];
      intros [= <-]; cbn [sh_state sh_code advance kids];
      rewrite (do_act_last_line _ _ _ _ _ Hact); split; [done|by apply Hk]).
    + destruct (fork_result w) as [pid|].
      * destruct (0 <? pid) eqn:Hpid; [|done].
        destruct (is_live (kids s) pid) eqn:Hlive; [done|].
        intros [= <-]. cbn. rewrite last_line_snoc_act.
        assert (pid ≠ p) as Hne.
        { intros ->. apply lingers_is_live in Hp. congruence. }
        split; [|by apply Hk].
        destruct Hp as (kd & Hkd & Hst). exists kd.
        by rewrite lookup_insert_ne.
      * intros [= <-]. cbn. rewrite last_line_snoc_act.
        split; [done|]. apply Hk. cbn. lia.
    + assert (pid ≠ p) as Hne by (intros ->; by apply Ha).
      destruct Hp as (kdp & Hkdp & Hstp).
      destruct (kids s !! pid) as [kd|]; [destruct (k_status kd)|];
        try done; intros [= <-]; cbn; rewrite last_line_snoc_act;
        (split; [|by apply Hk]); exists kdp; by rewrite ?lookup_insert_ne.
  - unfold do_pipe. destruct (pipe_ok w); intros [= <-]; cbn;
      rewrite last_line_app; cbn; (split; [done|apply Hk]).
  - unfold do_getrusage. destruct (rusage_children w). intros [= <-]. cbn.
    rewrite last_line_app. cbn. split; [done|apply Hk].
  - intros [= <-]. cbn. rewrite last_line_app. cbn. split; [done|apply Hk].
  - intros [= <-]. cbn. rewrite last_line_app. cbn. split; [done|apply Hk].
Qed.

Lemma child_exit_step_lingers pid s s' p :
  child_exit_step pid s = Some s' → lingers (kids s) p → lingers (kids s') p.
Proof.
  unfold child_exit_step. destruct (kids s !! pid) as [kd|] eqn:Hkd; [|done].
  destruct (k_status kd) eqn:Hst; [|done..]. intros [= <-]. cbn.
  intros (kd' & Hp & Hn). unfold lingers.
  destruct (decide (pid = p)) as [->|Hne].
  - rewrite lookup_insert_eq. by eexists.
  - rewrite lookup_insert_ne by done. by exists kd'.
Qed.

Lemma session_run_spares p ts s s' :
  0 < p → lingers (kids s) p →
  obeys (spares p) (last_line (log (sh_state s))) (sh_code s) →
  session_run ts s = Some s' →
  lingers (kids s') p
  ∧ obeys (spares p) (last_line (log (sh_state s'))) (sh_code s').
Proof.
  intros Hpos. revert s. induction ts as [|t ts IH]; intros s Hp Hob; cbn.
  - by intros [= <-].
  - destruct (session_step t s) as [s1|] eqn:Hstep; [|done].
    assert (lingers (kids (reenter s)) p
            ∧ obeys (spares p) (last_line (log (sh_state (reenter s))))
                    (sh_code (reenter s))) as [Hp' Hob'].
    { unfold reenter. destruct (sh_code s) eqn:E; try (by rewrite E).
      cbn. split; [done|apply main_body_spares]. }
    unfold session_step in Hstep.
    destruct t as [w|pid|w sig]; cbn in Hstep.
    + destruct (shell_step_spares _ _ _ _ Hpos Hp' Hob' Hstep). by apply IH.
    + pose proof (child_exit_step_lingers _ _ _ _ Hstep Hp').
      apply child_exit_step_shell in Hstep as (Hc & Hs & _).
      apply IH; [done|]. by rewrite Hc, Hs.
    + apply signal_step_shell in Hstep as (Hc & Hs & Hk).
      apply IH; [by rewrite Hk|]. by rewrite Hc, Hs.
Qed.

(** ** The ways through [execute_command] *)

Lemma cmd_point_env args background st0 s s' :
  sh_code s' = sh_code s → sh_state s' = sh_state s →
  (∀ p c st, unreaped (kids s) p c st → unreaped (kids s') p c st) →
  (∀ p c st, reaped (kids s) p c st → reaped (kids s') p c st) →
  cmd_point args background st0 s → cmd_point args background st0 s'.
Proof.
  intros Hc Hs Hu Hr Hpt.
  destruct Hpt as [? ?|? ?|? ?|pid ? ? ? ? ?|pid ? ? ? ? ?|pid ? ? ? ? ?
                  |pid ? ? ? ? ?|pid ut stime ? ? ? ?|pid ut stime ? ? ? ? ?];
    rewrite <- ?Hc, <- ?Hs in *.
  - by apply CpStart.
  - by apply CpForkFailed.
  - by apply CpGaveUp.
  - apply (CpAnnouncing _ _ _ _ pid); auto.
  - apply (CpDetached _ _ _ _ pid); auto.
  - apply (CpWaiting _ _ _ _ pid); auto.
  - apply (CpAccounting _ _ _ _ pid); auto.
  - apply (CpAdding _ _ _ _ pid ut stime); auto.
  - apply (CpAccounted _ _ _ _ pid ut stime); auto.
Qed.

Lemma shell_step_cmd_point args background st0 w s s' :
  cmd_point args background st0 s → shell_step w s = Some s' →
  cmd_point args background st0 s'.
Proof.
  intros Hpt. destruct Hpt as
    [Hc Hs|Hc Hs|Hc Hs|pid Hpos Hbg Hk Hc Hs|pid Hpos Hbg Hk Hc Hs
    |pid Hpos Hbg Hk Hc Hs|pid Hpos Hbg Hk Hc Hs
    |pid ut stime Hpos Hbg Hk Hcs|pid ut stime Hpos Hbg Hk Hc Hs].
  - unfold shell_step. rewrite Hc, Hs. unfold execute_command.
    destruct (fork_result w) as [pid|]; [|intros [= <-]; by apply CpForkFailed].
    destruct (0 <? pid) eqn:Hpos; [|done].
    destruct (negb (is_live (kids s) pid)); [|done].
    intros [= <-]. apply Z.ltb_lt in Hpos.
    assert (unreaped (<[pid := {| k_code := execute_command_child args;
                                   k_start := st0; k_status := KRunning |}]> (kids s))
                     pid (execute_command_child args) st0) as Hkid.
    { unfold unreaped. rewrite lookup_insert_eq. eexists. by split_and!. }
    replace (pid =? 0) with false in * by lia.
    replace (pid >? 0) with true in * by lia.
    unfold execute_command_parent.
    destruct (background =? 0) eqn:Hbg.
    + by apply (CpWaiting _ _ _ _ pid); cbn; [|lia|..].
    + by apply (CpAnnouncing _ _ _ _ pid); cbn; [|lia|..].
  - unfold shell_step. rewrite Hc, Hs. cbn. intros [= <-]. by apply CpGaveUp.
  - unfold shell_step. by rewrite Hc.
  - unfold shell_step. rewrite Hc, Hs. cbn. intros [= <-].
    by apply (CpDetached _ _ _ _ pid).
  - unfold shell_step. by rewrite Hc.
  - intros Hstep.
    destruct (shell_step_wait _ _ _ _ _ _ _ Hc Hk Hstep) as (Hc' & Hs' & Hr & _).
    apply (CpAccounting _ _ _ _ pid); try done. by rewrite Hs', Hs.
  - unfold shell_step. rewrite Hc, Hs. unfold account_usage, do_getrusage.
    destruct (rusage_children w) as [ut stime]. intros [= <-].
    apply (CpAdding _ _ _ _ pid ut stime); try done. by left.
  - unfold shell_step.
    destruct Hcs as [[Hc Hs]|[[Hc Hs]|[[Hc Hs]|[Hc Hs]]]]; rewrite Hc, Hs; cbn;
      intros [= <-].
    + apply (CpAdding _ _ _ _ pid ut stime); try done. right. by left.
    + apply (CpAdding _ _ _ _ pid ut stime); try done. right. right. by left.
    + apply (CpAdding _ _ _ _ pid ut stime); try done. right. right. by right.
    + by apply (CpAccounted _ _ _ _ pid ut stime).
  - unfold shell_step. by rewrite Hc.
Qed.

Lemma sys_run_cmd_point args background st0 ts s s' :
  cmd_point args background st0 s → sys_run ts s = Some s' →
  cmd_point args background st0 s'.
Proof.
  revert s. induction ts as [|t ts IH]; intros s Hpt; cbn.
  - by intros [= <-].
  - destruct (sys_step t s) as [s1|] eqn:Hstep; [|done].
    apply IH. destruct t as [w|pid|w sig]; cbn in Hstep.
    + by eapply shell_step_cmd_point.
    + destruct (child_exit_step_shell _ _ _ Hstep) as (? & ? & _).
      eapply cmd_point_env;
        eauto using child_exit_step_unreaped, child_exit_step_reaped.
    + apply signal_step_shell in Hstep as (? & ? & Hk).
      eapply cmd_point_env; eauto; by rewrite Hk.
Qed.

(** ** The ways through [execute_pipe] *)

Lemma pipe_way_env cmd1 cmd2 st0 s s' :
  sh_code s' = sh_code s → sh_state s' = sh_state s →
  (∀ p c st, unreaped (kids s) p c st → unreaped (kids s') p c st) →
  pipe_way cmd1 cmd2 st0 s → pipe_way cmd1 cmd2 st0 s'.
Proof.
  intros Hc Hs Hu Hpt.
  destruct Hpt as [? ?|? ?|? ?|? ?|? ?|? ?|p1 ? ? ? ?|p1 ? ? ? ?|p1 ? ? ? ?
                  |p1 p2 evs ? ? ? ?];
    rewrite <- ?Hc, <- ?Hs in *.
  - by apply PwStart.
  - by apply PwRefused.
  - by apply PwRefusedReturned.
  - by apply PwPiped.
  - by apply PwFirstFailed.
  - by apply PwFirstFailedReturned.
  - apply (PwForkedOnce _ _ _ _ p1); auto.
  - apply (PwSecondFailed _ _ _ _ p1); auto.
  - apply (PwSecondFailedReturned _ _ _ _ p1); auto.
  - by apply (PwLaunched _ _ _ _ p1 p2 evs).
Qed.

Lemma shell_step_pipe_way cmd1 cmd2 st0 w s s' :
  pipe_way cmd1 cmd2 st0 s → shell_step w s = Some s' →
  pipe_way cmd1 cmd2 st0 s'.
Proof.
  intros Hpt. destruct Hpt as
    [Hc Hs|Hc Hs|Hc Hs|Hc Hs|Hc Hs|Hc Hs|p1 H1 Hk Hc Hs|p1 H1 Hk Hc Hs
    |p1 H1 Hk Hc Hs|p1 p2 evs H1 H2 Hlog Hcs].
  - unfold shell_step. rewrite Hc, Hs. unfold execute_pipe, do_pipe.
    destruct (pipe_ok w); intros [= <-]; [by apply PwPiped|by apply PwRefused].
  - unfold shell_step. rewrite Hc, Hs. cbn. intros [= <-].
    by apply PwRefusedReturned.
  - unfold shell_step. by rewrite Hc.
  - unfold shell_step. rewrite Hc, Hs. unfold pipe_first_fork.
    destruct (fork_result w) as [pid|]; [|intros [= <-]; by apply PwFirstFailed].
    destruct (0 <? pid) eqn:Hpos; [|done].
    destruct (negb (is_live (kids s) pid)); [|done].
    intros [= <-]. apply Z.ltb_lt in Hpos. apply (PwForkedOnce _ _ _ _ pid); cbn.
    + done.
    + unfold unreaped. rewrite lookup_insert_eq. eexists. by split_and!.
    + replace (pid =? 0) with false by lia. by replace (pid <? 0) with false by lia.
    + done.
  - unfold shell_step. rewrite Hc, Hs. cbn. intros [= <-].
    by apply PwFirstFailedReturned.
  - unfold shell_step. by rewrite Hc.
  - unfold shell_step. rewrite Hc, Hs. unfold pipe_second_fork.
    destruct (fork_result w) as [pid|];
      [|intros [= <-]; by apply (PwSecondFailed _ _ _ _ p1)].
    destruct (0 <? pid) eqn:Hpos; [|done].
    destruct (is_live (kids s) pid) eqn:Hlive; [done|].
    intros [= <-]. apply Z.ltb_lt in Hpos.
    apply (PwLaunched _ _ _ _ p1 pid []); cbn; [done|done|by rewrite app_nil_r|].
    left. replace (pid =? 0) with false by lia.
    by replace (pid <? 0) with false by lia.
  - unfold shell_step. rewrite Hc, Hs. cbn. intros [= <-].
    by apply (PwSecondFailedReturned _ _ _ _ p1).
  - unfold shell_step. by rewrite Hc.
  - unfold shell_step.
    destruct Hcs as [Hc|[Hc|[Hc|[Hc|Hc]]]]; rewrite Hc; unfold pipe_parent, call.
    + cbn. intros [= <-].
      eapply (PwLaunched _ _ _ _ p1 p2); [done|done| |right; by left].
      cbn. rewrite Hlog, <- app_assoc. done.
    + cbn. intros [= <-].
      eapply (PwLaunched _ _ _ _ p1 p2); [done|done| |right; right; by left].
      cbn. rewrite Hlog, <- app_assoc. done.
    + destruct (kids s !! p1) as [kd|]; [destruct (k_status kd)|];
        try done; intros [= <-];
        (eapply (PwLaunched _ _ _ _ p1 p2);
           [done|done| |right; right; right; by left]);
        cbn; rewrite Hlog, <- app_assoc; done.
    + destruct (kids s !! p2) as [kd|]; [destruct (k_status kd)|];
        try done; intros [= <-];
        (eapply (PwLaunched _ _ _ _ p1 p2);
           [done|done| |right; right; right; by right]);
        cbn; rewrite Hlog, <- app_assoc; done.
    + done.
Qed.

Lemma sys_run_pipe_way cmd1 cmd2 st0 ts s s' :
  pipe_way cmd1 cmd2 st0 s → sys_run ts s = Some s' → pipe_way cmd1 cmd2 st0 s'.
Proof.
  revert s. induction ts as [|t ts IH]; intros s Hpt; cbn.
  - by intros [= <-].
  - destruct (sys_step t s) as [s1|] eqn:Hstep; [|done].
    apply IH. destruct t as [w|pid|w sig]; cbn in Hstep.
    + by eapply shell_step_pipe_way.
    + destruct (child_exit_step_shell _ _ _ Hstep) as (? & ? & _).
      eapply pipe_way_env; eauto using child_exit_step_unreaped.
    + apply signal_step_shell in Hstep as (? & ? & Hk).
      eapply pipe_way_env; eauto; by rewrite Hk.
Qed.

Lemma piped_holds_both_ends st :
  fds (piped st) !! pipe_rd st = Some (FPipeRead (pipes_made st))
  ∧ fds (piped st) !! pipe_wr st = Some (FPipeWrite (pipes_made st))
  ∧ pipe_rd st ≠ pipe_wr st
  ∧ fds st !! pipe_rd st = None ∧ fds st !! pipe_wr st = None.
Proof.
  unfold piped, pipe_wr, pipe_rd. cbn [fds logged with_log with_pipes_made with_fds].
  pose proof (lowest_free_fresh (fds st)) as Hrd.
  pose proof (lowest_free_fresh
                (<[lowest_free (fds st) := FPipeRead (pipes_made st)]> (fds st)))
    as Hwr.
  assert (lowest_free (fds st)
          ≠ lowest_free (<[lowest_free (fds st) := FPipeRead (pipes_made st)]>
                           (fds st))) as Hne.
  { intros Heq. rewrite <- Heq in Hwr. by rewrite lookup_insert_eq in Hwr. }
  split_and!; try done.
  - rewrite lookup_insert_ne by done. apply lookup_insert_eq.
  - apply lookup_insert_eq.
  - by rewrite lookup_insert_ne in Hwr.
Qed.

(** ** The interpreter's side stays inside its vectors *)

Ltac steady :=
  repeat match goal with
  | |- steady (Ret _) => apply StRet
  | |- steady (Exit _) => apply StExit
  | |- steady (call _ _) => unfold call
  | |- steady (add_to _ _ _) => unfold add_to
  | |- steady (Act _ _) => apply StAct; intros ? ?
  | |- steady (Pipe _) => apply StPipe; intros ? ? ?
  | |- steady (Getrusage _) => apply StGetrusage; intros ? ?
  | |- steady (Getcwd _) => apply StGetcwd; intros ?
  | |- steady (if ?b then _ else _) => destruct b eqn:?
  | |- steady (match ?o with Some _ => _ | None => _ end) => destruct o eqn:?
  end.

Lemma steady_store_tokens {A} toks pos buf acc
    (f : list string → prog A) (k : A → prog unit) :
  steady (bind (f (acc ++ toks)) k) →
  steady (bind (bind (store_tokens toks pos buf acc) f) k).
Proof.
  revert pos buf acc.
  induction toks as [|token toks IH]; intros pos buf acc Hk; cbn.
  - by rewrite app_nil_r in Hk.
  - rewrite (cons_middle token), app_assoc in Hk.
    destruct (pos + 1 >=? buf); [|by apply IH].
    cbn. apply StAct. intros r _.
    destruct (r =? 0); [|by apply IH].
    unfold alloc_failed, call. cbn. apply StAct. intros _ _. apply StExit.
Qed.

Lemma steady_split_line line (k : argv → prog unit) :
  steady (k (vector_of (strtok_all line))) → steady (bind (split_line line) k).
Proof.
  intros Hk. unfold split_line. cbn. apply StAct. intros r _.
  destruct (r =? 0); [|by apply steady_store_tokens].
  unfold alloc_failed, call. cbn. apply StAct. intros _ _. apply StExit.
Qed.

Lemma steady_kill_background idxs k :
  steady k → steady (kill_background idxs k).
Proof.
  intros Hk. induction idxs as [|i idxs IH]; cbn; [done|].
  apply StAct. intros p _. destruct (negb (p =? -1)); [|done].
  apply StAct. by intros _ _.
Qed.

Lemma steady_execute_command args background :
  steady (execute_command args background).
Proof.
  unfold execute_command, execute_command_parent. apply StAct. intros pid Hpid.
  destruct (pid =? 0) eqn:E; [apply Z.eqb_eq in E; by destruct Hpid|].
  steady.
Qed.

Lemma steady_execute_pipe cmd1 cmd2 : steady (execute_pipe cmd1 cmd2).
Proof.
  unfold execute_pipe, pipe_first_fork, pipe_second_fork, pipe_parent.
  apply StPipe. intros rc rd wr. destruct (rc =? -1); [steady|].
  apply StAct. intros p1 Hp1.
  destruct (p1 =? 0) eqn:E1; [apply Z.eqb_eq in E1; by destruct Hp1|].
  destruct (p1 <? 0); [steady|].
  apply StAct. intros p2 Hp2.
  destruct (p2 =? 0) eqn:E2; [apply Z.eqb_eq in E2; by destruct Hp2|].
  steady.
Qed.

Lemma steady_run_tokens toks : steady (run_tokens (vector_of toks)).
Proof.
  rewrite run_tokens_vector. destruct toks as [|t0 more]; [apply StRet|].
  destruct (String.eqb t0 "cd"); [unfold cd; steady|].
  destruct (String.eqb t0 "pwd"); [unfold pwd; steady|].
  destruct (String.eqb t0 "exit").
  { unfold exit_shell. steady. apply steady_kill_background, StExit. }
  rewrite vector_of_vec. unfold is_background_process. rewrite scan_vec.
  destruct (first_index "&" (t0 :: more)); apply steady_execute_command.
Qed.

Lemma steady_main_body : steady main_body.
Proof.
  unfold main_body, read_line, call. apply StAct. intros _ _.
  cbn [bind]. apply StGetline. intros [line|]; cbn [bind].
  - destruct (is_pipe line) as [[cmd1 cmd2]|]; [apply steady_execute_pipe|].
    apply steady_split_line, steady_run_tokens.
  - apply StAct. intros eof _. destruct (negb (eof =? 0)); cbn; [apply StExit|].
    apply StAct. intros _ _. apply StExit.
Qed.

Lemma steady_main_init : steady main_init.
Proof. unfold main_init. steady. Qed.

Lemma shell_step_steady w s s' :
  steady (sh_code s) → shell_step w s = Some s' → steady (sh_code s').
Proof.
  intros Hst. unfold shell_step.
  inversion Hst as [|c Hc|a k Hk Hcode|k Hk Hcode|k Hk Hcode|k Hk Hcode
                   |k Hk Hcode]; try done.
  - destruct a; try (
      destruct (do_act w (sh_state s) _) as [st' r| | |]; [|done..];
      intros [= <-]; cbn [sh_code advance]; by apply Hk).
    + destruct (fork_result w) as [pid|].
      * destruct (0 <? pid) eqn:Hpid; [|done].
        destruct (negb (is_live (kids s) pid)); [|done].
        intros [= <-]. cbn. apply Hk. lia.
      * intros [= <-]. cbn. by apply Hk.
    + destruct (kids s !! pid) as [kd|]; [destruct (k_status kd)|];
        try done; intros [= <-]; cbn; by apply Hk.
  - destruct (do_pipe w (sh_state s)) as [st' [[rc rd] wr]].
    intros [= <-]. apply Hk.
  - destruct (do_getrusage w (sh_state s)) as [st' [ut stime]].
    intros [= <-]. apply Hk.
  - destruct (do_getcwd w (sh_state s)) as [st' r]. intros [= <-]. apply Hk.
  - destruct (do_getline w (sh_state s)) as [st' r]. intros [= <-]. apply Hk.
Qed.

Lemma session_run_steady ts s s' :
  steady (sh_code s) → session_run ts s = Some s' → steady (sh_code s').
Proof.
  revert s. induction ts as [|t ts IH]; intros s Hst; cbn.
  - by intros [= <-].
  - destruct (session_step t s) as [s1|] eqn:Hstep; [|done].
    apply IH. unfold session_step in Hstep.
    assert (steady (sh_code (reenter s))) as Hst'.
    { unfold reenter. destruct (sh_code s) eqn:E; try (by rewrite E).
      apply steady_main_body. }
    destruct t as [w|pid|w sig]; cbn in Hstep.
    + by eapply shell_step_steady.
    + apply child_exit_step_shell in Hstep as (-> & _). done.
    + apply signal_step_shell in Hstep as (-> & _). done.
Qed.


(** * Further properties of the code *)

(** X1.  Whatever the line, [split_line] returns (when it returns) the
    vector of the line's tokens closed by NULL, and each token is a
    non-empty string without any of the delimiters: no empty argument and
    no white space ever reaches a command. *)
Theorem split_line_yields_plain_tokens w line st args st' :
  run_prog w (split_line line) st = ODone args st' →
  args = vector_of (strtok_all line)
  ∧ strings_until_null args = Some (strtok_all line)
  ∧ Forall (λ t, is_token t = true) (strtok_all line).
Proof.
  intros Hrun. destruct (alloc_ok w) eqn:Halloc.
  - rewrite run_split_line_alone in Hrun by done. injection Hrun as <- _.
    split; [done|]. split; [|by apply strtok_from_tokens].
    rewrite vector_of_vec. apply strings_until_null_vec.
  - rewrite <- run_bind_ret, run_split_line_starved in Hrun by done. done.
Qed.

Lemma split_line_yields_plain_tokens_witness :
  strtok_all ("  ls   -l" +:+ chr 9 +:+ "/tmp " +:+ nl) = ["ls"; "-l"; "/tmp"]%string
  ∧ Forall (λ t, is_token t = true)
           (strtok_all ("  ls   -l" +:+ chr 9 +:+ "/tmp " +:+ nl)).
Proof.
  split; [reflexivity|].
  assert (∃ st', run_prog helpful_world
            (split_line ("  ls   -l" +:+ chr 9 +:+ "/tmp " +:+ nl)) boot_state
          = ODone (vector_of ["ls"; "-l"; "/tmp"]%string) st') as [st' Hrun]
    by (eexists; reflexivity).
  exact (proj2 (proj2 (split_line_yields_plain_tokens _ _ _ _ _ Hrun))).
Defined.


(** X2.  Tokens survive a round trip: joining tokens with a delimiter
    between them and splitting the result gives the same tokens back; in
    particular splitting a line, joining and splitting again changes
    nothing. *)
Theorem tokens_round_trip (d : ascii) (toks : list string) :
  is_delim d = true →
  Forall (λ t, is_token t = true) toks →
  strtok_all (String.concat (String d EmptyString) toks) = toks
  ∧ ∀ line,
      strtok_all (String.concat (String d EmptyString) (strtok_all line))
      = strtok_all line.
Proof.
  intros Hd. assert (∀ l, Forall (λ t, is_token t = true) l →
    strtok_all (String.concat (String d EmptyString) l) = l) as Hjoin.
  { induction 1 as [|t l Ht Hl IH]; [done|]. cbn [String.concat].
    destruct l as [|u l]; [by apply strtok_all_token|].
    unfold strtok_all in *. change (String d EmptyString +:+ ?s) with (String d s).
    rewrite strtok_from_delim, IH by done.
    destruct t as [|c t]; [done|]. by rewrite strtok_from_plain. }
  intros Htoks. split; [by apply Hjoin|].
  intros line. apply Hjoin, strtok_from_tokens. done.
Qed.

Lemma tokens_round_trip_witness :
  strtok_all (String.concat " " ["grep"; "-n"; "x|y"; "a.c"]%string)
  = ["grep"; "-n"; "x|y"; "a.c"]%string.
Proof.
  apply (tokens_round_trip " "%char ["grep"; "-n"; "x|y"; "a.c"]%string);
    [reflexivity|]. repeat constructor.
Defined.


(** X3.  Any delimiter separates: the tokens of a text with a delimiter
    in it are the tokens of what stands before the delimiter followed by
    the tokens of what stands after it.  Hence leading and trailing
    delimiters and runs of them add no token, and a text of delimiters
    only has no token. *)
Theorem delimiters_separate (d : ascii) (a b : string) :
  is_delim d = true →
  strtok_all (a +:+ String d b) = strtok_all a ++ strtok_all b
  ∧ strtok_all (String d b) = strtok_all b
  ∧ strtok_all (a +:+ String d EmptyString) = strtok_all a
  ∧ (all_delims b = true → strtok_all (a +:+ b) = strtok_all a).
Proof.
  intros Hd. unfold strtok_all. split_and!.
  - by apply strtok_from_delim.
  - simpl. by rewrite Hd.
  - rewrite strtok_from_delim by done. apply app_nil_r.
  - by apply strtok_from_app_delims.
Qed.

Lemma delimiters_separate_witness :
  strtok_all ("echo hi" +:+ String (ascii_of_nat 9) "  there")
  = ["echo"; "hi"; "there"]%string.
Proof.
  destruct (delimiters_separate (ascii_of_nat 9) "echo hi" "  there" eq_refl)
    as [-> _]. reflexivity.
Defined.


(** X4.  [split_line] asks the allocator once at its start and once
    more each time the number of tokens stored reaches the capacity, which
    grows by 64 slots: for [n] tokens that is [1 + n / 64] calls, and the
    capacity asked for last exceeds [n], so that the closing NULL has its
    slot.  When the allocator refuses, the tokenizer prints its message on
    the standard error and exits with status 1. *)
Theorem split_line_grows_by_chunks w line st :
  let n := Z.of_nat (length (strtok_all line)) in
  let calls := S (Z.to_nat (n / LSH_TOK_BUFSIZE)) in
  (alloc_ok w = true →
     run_prog w (split_line line) st
     = ODone (vector_of (strtok_all line))
         (with_log st (log st ++ replicate calls (EvAct SysAlloc 1)))
     ∧ n < LSH_TOK_BUFSIZE * Z.of_nat calls
     ∧ Z.of_nat (length (vector_of (strtok_all line))) = n + 1)
  ∧ (alloc_ok w = false →
       run_prog w (split_line line) st
       = OExit EXIT_FAILURE
           (with_log st (log st ++
              [EvAct SysAlloc 0;
               EvAct (SysEprintf ("lsh: allocation error" +:+ nl)) 0]))).
Proof.
  intros n calls. split; intros Halloc.
  - split; [by apply run_split_line_alone|]. split.
    + unfold calls, LSH_TOK_BUFSIZE.
      pose proof (Z.mul_succ_div_gt n 64 eq_refl).
      assert (0 ≤ n / 64) by (apply Z.div_pos; lia). lia.
    + unfold vector_of. rewrite length_app, length_fmap. cbn. lia.
  - rewrite <- run_bind_ret, run_split_line_starved by done. f_equal.
    unfold logged. rewrite with_log_with_log. cbn [log with_log].
    by rewrite <- app_assoc.
Qed.

Lemma split_line_grows_by_chunks_witness :
  log (final_state (run_prog helpful_world
         (split_line (String.concat " " (replicate 130 "a"%string))) boot_state))
  = replicate 3 (EvAct SysAlloc 1)
  ∧ ∃ st', run_prog starving_world (split_line "ls -l") boot_state
           = OExit EXIT_FAILURE st'.
Proof.
  destruct (split_line_grows_by_chunks helpful_world
              (String.concat " " (replicate 130 "a"%string)) boot_state)
    as [Hgood _].
  destruct (split_line_grows_by_chunks starving_world "ls -l" boot_state)
    as [_ Hbad].
  split.
  - destruct (Hgood eq_refl) as (-> & _). reflexivity.
  - eexists. exact (Hbad eq_refl).
Defined.


(** X5.  [is_pipe] cuts the line at its first bar: it answers with the
    text before the first bar and the text after it, from which the line
    is put together again, and it declines exactly the lines without a
    bar.  Further bars stay in the second command. *)
Theorem is_pipe_cuts_at_first_bar :
  (∀ input,
     match is_pipe input with
     | Some (cmd1, cmd2) =>
         input = cmd1 +:+ String bar cmd2 ∧ bar_free cmd1 = true
     | None => bar_free input = true
     end)
  ∧ (∀ cmd1 cmd2, bar_free cmd1 = true →
       is_pipe (cmd1 +:+ String bar cmd2) = Some (cmd1, cmd2)).
Proof.
  split.
  - induction input as [|c input IH]; simpl; [done|].
    change (ascii_of_nat 124) with bar.
    destruct (Ascii.eqb_spec c bar) as [->|Hne]; [done|].
    apply Ascii.eqb_neq in Hne.
    destruct (is_pipe input) as [[cmd1 cmd2]|]; simpl.
    + destruct IH as [-> H1]. split; [done|]. simpl. by rewrite Hne, H1.
    + done.
  - induction cmd1 as [|c cmd1 IH]; intros cmd2.
    + intros _. rewrite append_nil_l. simpl. done.
    + rewrite append_cons. simpl. intros [Hc H1]%andb_prop.
      apply negb_true_iff in Hc. change (ascii_of_nat 124) with bar.
      rewrite Hc. by rewrite IH.
Qed.

Lemma is_pipe_cuts_at_first_bar_witness :
  is_pipe "ls | grep x | wc" = Some ("ls "%string, " grep x | wc"%string).
Proof.
  apply (proj2 is_pipe_cuts_at_first_bar "ls " " grep x | wc"). reflexivity.
Defined.


(** X6.  A stage of a pipeline runs the tokens of its command as they
    are: after the three calls that connect it to the pipe and the calls
    of the tokenizer it executes the first token with every token of the
    command as arguments.  No token is taken for a redirection or for the
    background marker and no file is opened, unlike in a single
    command; a further bar reaches the program as an argument. *)
Theorem pipeline_stage_runs_its_tokens_verbatim w st cmd rd wr file more :
  alloc_ok w = true →
  strtok_all cmd = file :: more →
  can_exec w file (file :: more) = true →
  (∃ st' c1 c2 c3,
     run_prog w (pipe_child1 cmd rd wr) st = OExec file (file :: more) st'
     ∧ log st' = log st ++
         [EvAct (SysClose rd) c1; EvAct (SysDup2 wr STDOUT_FILENO) c2;
          EvAct (SysClose wr) c3] ++ allocations cmd ++
         [EvAct (SysExecvp (Some file) (file :: more)) 0])
  ∧ (∃ st' c1 c2 c3,
       run_prog w (pipe_child2 cmd rd wr) st = OExec file (file :: more) st'
       ∧ log st' = log st ++
           [EvAct (SysClose wr) c1; EvAct (SysDup2 rd STDIN_FILENO) c2;
            EvAct (SysClose rd) c3] ++ allocations cmd ++
           [EvAct (SysExecvp (Some file) (file :: more)) 0]).
Proof.
  intros Halloc Htoks Hexec.
  assert (∀ st1, run_prog w (do args <- split_line cmd; exec_or_die args) st1
          = OExec file (file :: more)
              (logged (with_log st1 (log st1 ++ allocations cmd))
                      (EvAct (SysExecvp (Some file) (file :: more)) 0))) as Hstage.
  { intros st1. rewrite run_split_line_count by done. fold (allocations cmd).
    rewrite vector_of_vec, run_exec_or_die, Htoks. cbn [exec_on_tokens].
    by rewrite Hexec. }
  split.
  - unfold pipe_child1, call. cbn [run_prog do_act].
    destruct (fds (logged _ _) !! wr) as [o|];
      cbn [run_prog do_act]; rewrite Hstage; eexists _, _, _, _;
      (split; [reflexivity|]); cbn [log logged with_log with_fds];
      by rewrite <- !app_assoc.
  - unfold pipe_child2, call. cbn [run_prog do_act].
    destruct (fds (logged _ _) !! rd) as [o|];
      cbn [run_prog do_act]; rewrite Hstage; eexists _, _, _, _;
      (split; [reflexivity|]); cbn [log logged with_log with_fds];
      by rewrite <- !app_assoc.
Qed.

Lemma pipeline_stage_runs_its_tokens_verbatim_witness :
  is_pipe "ls | sort > out | wc &" = Some ("ls "%string, " sort > out | wc &"%string)
  ∧ exec_of (run_prog helpful_world (pipe_child2 " sort > out | wc &" 3 4)
                      (piped boot_state))
    = Some ("sort"%string, ["sort"; ">"; "out"; "|"; "wc"; "&"]%string).
Proof.
  split; [reflexivity|].
  destruct (pipeline_stage_runs_its_tokens_verbatim helpful_world
              (piped boot_state) " sort > out | wc &" 3 4 "sort"
              [">"; "out"; "|"; "wc"; "&"]%string eq_refl eq_refl eq_refl)
    as [_ (st' & c1 & c2 & c3 & -> & _)].
  reflexivity.
Defined.


(** X7.  A line made of delimiters only (an empty line, blanks, tabs):
    the loop body prints the prompt, reads the line, tokenizes it with one
    call of the allocator and returns.  Nothing is forked or printed, and
    descriptors, directory and globals are what they were. *)
Theorem blank_line_does_nothing w st line :
  next_line w = Some line → alloc_ok w = true → all_delims line = true →
  run_prog w main_body st
  = ODone tt (with_log st (log st ++
      [EvAct (SysPrintf "dragonshell > " []) 0; EvGetline (Some line);
       EvAct SysAlloc 1])).
Proof.
  intros Hline Halloc Hblank.
  rewrite (run_main_body_line w st line) by
    (try done; by apply is_pipe_bar_free, all_delims_bar_free).
  unfold allocations. by rewrite strtok_all_delims.
Qed.

Lemma blank_line_does_nothing_witness :
  ∃ st', run_prog (world_typing ("  " +:+ chr 9)) main_body boot_state = ODone tt st'
         ∧ fds st' = fds boot_state ∧ mem st' = mem boot_state
         ∧ length (log st') = 3%nat.
Proof.
  eexists. split.
  - apply (blank_line_does_nothing (world_typing ("  " +:+ chr 9)) boot_state
             (("  " +:+ chr 9) +:+ nl)); reflexivity.
  - split_and!; reflexivity.
Defined.


(** X8.  When there is no line to read, the loop body exits on the
    spot: with status 0 at the end of the input, after the prompt and
    nothing else (no times are reported, no signal is sent, unlike with
    [exit]), and with status 1 after [perror("Error in getline()")] when
    the reading failed for another reason. *)
Theorem end_of_input_leaves_quietly w st :
  next_line w = None →
  run_prog w main_body st
  = if at_eof w then
      OExit EXIT_SUCCESS (with_log st (log st ++
        [EvAct (SysPrintf "dragonshell > " []) 0; EvGetline None;
         EvAct SysFeof 1]))
    else
      OExit EXIT_FAILURE (with_log st (log st ++
        [EvAct (SysPrintf "dragonshell > " []) 0; EvGetline None;
         EvAct SysFeof 0; EvAct (SysPerror "Error in getline()") 0])).
Proof.
  intros Hline. unfold main_body, call, read_line.
  cbn [run_prog do_act bind do_getline]. rewrite Hline. cbn [bind run_prog do_act].
  destruct (at_eof w); cbn; f_equal; unfold logged;
    rewrite !with_log_with_log; cbn [log with_log]; by rewrite <- !app_assoc.
Qed.

Lemma end_of_input_leaves_quietly_witness :
  ∃ st', run_prog helpful_world main_body boot_state = OExit 0 st'
         ∧ length (log st') = 3%nat.
Proof.
  eexists. split.
  - exact (end_of_input_leaves_quietly helpful_world boot_state eq_refl).
  - reflexivity.
Defined.


(** X9.  [cd] and [pwd] agree: a [cd] to a path the system accepts
    prints nothing and makes the directory the path leads to the working
    directory (arguments after the path are ignored); a [pwd] on a later
    line prints exactly that directory, followed by a newline, and leaves
    it unchanged. *)
Theorem cd_then_pwd_shows_the_new_directory w1 w2 st l1 l2 path more d :
  next_line w1 = Some l1 → is_pipe l1 = None → alloc_ok w1 = true →
  strtok_all l1 = "cd"%string :: path :: more → chdir_to w1 path = Some d →
  next_line w2 = Some l2 → is_pipe l2 = None → alloc_ok w2 = true →
  head (strtok_all l2) = Some "pwd"%string → getcwd_ok w2 = true →
  ∃ st1 st2,
    run_prog w1 main_body st = ODone tt st1
    ∧ cwd st1 = d
    ∧ log st1 = log st ++
        [EvAct (SysPrintf "dragonshell > " []) 0; EvGetline (Some l1)]
        ++ allocations l1 ++ [EvAct (SysChdir path) 0]
    ∧ run_prog w2 main_body st1 = ODone tt st2
    ∧ cwd st2 = d
    ∧ log st2 = log st1 ++
        [EvAct (SysPrintf "dragonshell > " []) 0; EvGetline (Some l2)]
        ++ allocations l2
        ++ [EvGetcwd (Some d); EvAct (SysPrintf ("%s" +:+ nl) [PStr d]) 0].
Proof.
  intros Hl1 Hp1 Ha1 Ht1 Hcd Hl2 Hp2 Ha2 Ht2 Hcwd.
  eexists _, _. split; [by eapply run_cd_line|].
  split; [done|]. split.
  { cbn [log logged with_log with_cwd]. by rewrite <- !app_assoc. }
  split; [by apply run_pwd_line|]. split; [done|].
  cbn [log logged with_log with_cwd cwd]. by rewrite <- !app_assoc.
Qed.

Lemma cd_then_pwd_shows_the_new_directory_witness :
  ∃ st1 st2,
    run_prog (world_roaming "cd /usr/lib extra") main_body boot_state = ODone tt st1
    ∧ run_prog (world_roaming "  pwd -P") main_body st1 = ODone tt st2
    ∧ last (log st2) = Some (EvAct (SysPrintf ("%s" +:+ nl) [PStr "/usr/lib"]) 0).
Proof.
  destruct (cd_then_pwd_shows_the_new_directory
              (world_roaming "cd /usr/lib extra") (world_roaming "  pwd -P")
              boot_state ("cd /usr/lib extra" +:+ nl) ("  pwd -P" +:+ nl)
              "/usr/lib" ["extra"%string] "/usr/lib")
    as (st1 & st2 & H1 & _ & _ & H2 & _ & Hlog); try reflexivity.
  exists st1, st2. split; [exact H1|]. split; [exact H2|].
  rewrite Hlog, !app_assoc. rewrite last_app. reflexivity.
Defined.


(** X10.  [exit] as the first token of a line, whatever follows it: the
    shell reads the children's CPU times once more, adds them to its two
    totals (on top of what every foreground command has added already),
    prints the two totals, sends SIGTERM to the process recorded in the
    background slot if the slot is not -1, and exits with status 0. *)
Theorem exit_reports_totals_and_leaves w st line more slot :
  next_line w = Some line → is_pipe line = None → alloc_ok w = true →
  strtok_all line = "exit"%string :: more →
  bg_processes (mem st) = [slot] →
  let ut := (rusage_children w).1 in
  let stime := (rusage_children w).2 in
  let u := wrap_long (total_user_time (mem st) + ut) in
  let s := wrap_long (total_sys_time (mem st) + stime) in
  ∃ st',
    run_prog w main_body st = OExit 0 st'
    ∧ log st' = log st ++
        [EvAct (SysPrintf "dragonshell > " []) 0; EvGetline (Some line)]
        ++ allocations line ++
        [EvGetrusage ut stime;
         EvAct (SysPrintf ("User time: %ld seconds" +:+ nl) [PInt u]) 0;
         EvAct (SysPrintf ("Sys time: %ld seconds" +:+ nl) [PInt s]) 0]
        ++ farewell slot
    ∧ total_user_time (mem st') = u ∧ total_sys_time (mem st') = s.
Proof.
  intros Hline Hpipe Halloc Htoks Hslot ut stime u s.
  rewrite (run_main_body_line w st line) by done.
  rewrite run_tokens_vector, Htoks. cbn [String.eqb Ascii.eqb Bool.eqb].
  unfold exit_shell, add_to, call, do_getrusage.
  cbn [run_prog do_getrusage]. unfold do_getrusage.
  destruct (rusage_children w) as [ut' st'] eqn:Hru. cbn in ut, stime.
  cbn [run_prog do_act global_get global_set mem with_mem logged with_log
       total_user_time total_sys_time bg_processes seq MAX_BG_PROC
       kill_background].
  rewrite Hslot. cbn [lookup list_lookup]. unfold farewell.
  destruct (slot =? -1); cbn [negb run_prog do_act]; eexists;
    (split; [reflexivity|]); cbn; rewrite <- !app_assoc; done.
Qed.

Lemma exit_reports_totals_and_leaves_witness :
  ∃ st', run_prog (world_typing "exit 7 now") main_body boot_state = OExit 0 st'
         ∧ total_user_time (mem st') = 3 ∧ total_sys_time (mem st') = 1.
Proof.
  destruct (exit_reports_totals_and_leaves (world_typing "exit 7 now") boot_state
              ("exit 7 now" +:+ nl) ["7"; "now"]%string (-1))
    as (st' & Hrun & _ & Hu & Hs); try reflexivity.
  exists st'. split; [exact Hrun|]. split; [exact Hu|exact Hs].
Defined.


(** X11.  How [execute_pipe] returns when something fails, whatever
    happens around the shell meanwhile.  When [pipe] fails: after
    [perror("dragonshell: pipe failed")], nothing forked, the state
    otherwise untouched.  When the first [fork] fails: after
    [perror("dragonshell: fork failed")], with both ends of the pipe still
    open in the shell, on descriptors that were free before.  When the
    second [fork] fails: likewise with both ends still open, and with the
    first child forked and never waited for.  The only other way to
    return is with both children forked. *)
Theorem execute_pipe_gives_up_with_the_pipe_open cmd1 cmd2 st0 kids0 dl0 ts s :
  sys_run ts {| sh_code := execute_pipe cmd1 cmd2; sh_state := st0;
                kids := kids0; delivered := dl0 |} = Some s →
  sh_code s = Ret tt →
  let n := pipes_made st0 in
  let rd := pipe_rd st0 in
  let wr := pipe_wr st0 in
  let leaked (t : gmap Z fobj) :=
    t !! rd = Some (FPipeRead n) ∧ t !! wr = Some (FPipeWrite n)
    ∧ fds st0 !! rd = None ∧ fds st0 !! wr = None in
  (sh_state s = with_log st0 (log st0 ++
      [EvPipe (-1) 0 0; EvAct (SysPerror "dragonshell: pipe failed") 0]))
  ∨ (log (sh_state s) = log st0 ++
       [EvPipe 0 rd wr; EvAct SysFork (-1);
        EvAct (SysPerror "dragonshell: fork failed") 0]
     ∧ leaked (fds (sh_state s)))
  ∨ (∃ p1, 0 < p1
       ∧ log (sh_state s) = log st0 ++
           [EvPipe 0 rd wr; EvAct SysFork p1; EvAct SysFork (-1);
            EvAct (SysPerror "dragonshell: fork failed") 0]
       ∧ leaked (fds (sh_state s))
       ∧ unreaped (kids s) p1 (pipe_child1 cmd1 rd wr) (piped st0))
  ∨ (∃ p1 p2 evs, 0 < p1 ∧ 0 < p2
       ∧ log (sh_state s) = log st0 ++
           EvPipe 0 rd wr :: EvAct SysFork p1 :: EvAct SysFork p2 :: evs).
Proof.
  intros Hrun Hret n rd wr leaked.
  assert (pipe_way cmd1 cmd2 st0 s) as Hpt.
  { eapply sys_run_pipe_way; [|exact Hrun]. by apply PwStart. }
  destruct (piped_holds_both_ends st0) as (Hrd & Hwr & Hne & Hfrd & Hfwr).
  destruct Hpt as
    [Hc Hs|Hc Hs|Hc Hs|Hc Hs|Hc Hs|Hc Hs|p1 H1 Hk Hc Hs|p1 H1 Hk Hc Hs
    |p1 H1 Hk Hc Hs|p1 p2 evs H1 H2 Hlog Hcs];
    try (rewrite Hret in Hc; discriminate Hc).
  - left. rewrite Hs. unfold complained, pipe_refused, logged.
    rewrite with_log_with_log. cbn [log with_log]. by rewrite <- app_assoc.
  - right. left. rewrite Hs. split; [|done].
    cbn. by rewrite <- !app_assoc.
  - right. right. left. exists p1. rewrite Hs. split_and!; try done.
    cbn. by rewrite <- !app_assoc.
  - right. right. right. exists p1, p2, evs. split_and!; try done.
    rewrite Hlog. cbn. by rewrite <- !app_assoc.
Qed.

Lemma execute_pipe_gives_up_with_the_pipe_open_witness :
  ∃ s, sys_run stranding_ticks stranding_start = Some s
       ∧ fds (sh_state s) !! 3 = Some (FPipeRead 0)
       ∧ fds (sh_state s) !! 4 = Some (FPipeWrite 0)
       ∧ ∃ c st, unreaped (kids s) 4242 c st.
Proof.
  assert ((λ s, (has_returned (sh_code s), log (sh_state s)))
            <$> sys_run stranding_ticks stranding_start
          = Some (true, [EvPipe 0 3 4; EvAct SysFork 4242; EvAct SysFork (-1);
                         EvAct (SysPerror "dragonshell: fork failed") 0]))
    as Hobs by (vm_compute; reflexivity).
  destruct (sys_run stranding_ticks stranding_start) as [s|] eqn:Hrun;
    [|discriminate Hobs].
  injection Hobs as Hret Hlog'. exists s. split; [reflexivity|].
  destruct (sh_code s) as [[]| | | | | | |] eqn:Hc; try discriminate Hret.
  destruct (execute_pipe_gives_up_with_the_pipe_open _ _ _ _ _ _ _ Hrun Hc)
    as [Hs|[[Hlog _]|[(p1 & _ & Hlog & (Hrd & Hwr & _) & Hk)
       |(p1 & p2 & evs & _ & H2 & Hlog)]]].
  - exfalso. rewrite Hs in Hlog'. discriminate Hlog'.
  - exfalso. rewrite Hlog in Hlog'. discriminate Hlog'.
  - rewrite Hlog in Hlog'. cbn in Hlog'. simplify_eq.
    split; [exact Hrd|]. split; [exact Hwr|]. by eexists _, _.
  - exfalso. rewrite Hlog in Hlog'. cbn in Hlog'. simplify_eq. lia.
Defined.


(** X12.  The three ways [execute_command] returns, whatever happens
    around the shell meanwhile.  When [fork] fails: after
    [perror("dragonshell")] and nothing else.  For a background command:
    after printing the child's process id, without waiting, so the child
    has not been waited for, and without touching the time totals.  For a
    foreground command: after exactly one [waitpid] for the child, which
    has then been waited for, and one [getrusage], whose two readings have
    been added to the two totals (wrapping as a [long] does).  In every
    case descriptors, directory and the other globals are what they
    were. *)
Theorem execute_command_returns_three_ways args background st0 kids0 dl0 ts s :
  sys_run ts {| sh_code := execute_command args background; sh_state := st0;
                kids := kids0; delivered := dl0 |} = Some s →
  sh_code s = Ret tt →
  (sh_state s = with_log st0 (log st0 ++
      [EvAct SysFork (-1); EvAct (SysPerror "dragonshell") 0]))
  ∨ (∃ pid, 0 < pid ∧ background ≠ 0
       ∧ sh_state s = with_log st0 (log st0 ++
           [EvAct SysFork pid;
            EvAct (SysPrintf ("PID %d is sent to background" +:+ nl) [PInt pid]) 0])
       ∧ unreaped (kids s) pid (execute_command_child args) st0)
  ∨ (∃ pid ut stime, 0 < pid ∧ background = 0
       ∧ reaped (kids s) pid (execute_command_child args) st0
       ∧ log (sh_state s) = log st0 ++
           [EvAct SysFork pid; EvAct (SysWaitpid pid) pid; EvGetrusage ut stime]
       ∧ total_user_time (mem (sh_state s))
         = wrap_long (total_user_time (mem st0) + ut)
       ∧ total_sys_time (mem (sh_state s))
         = wrap_long (total_sys_time (mem st0) + stime)
       ∧ bg_processes (mem (sh_state s)) = bg_processes (mem st0)
       ∧ child_pid (mem (sh_state s)) = child_pid (mem st0)
       ∧ fds (sh_state s) = fds st0 ∧ cwd (sh_state s) = cwd st0).
Proof.
  intros Hrun Hret.
  assert (cmd_point args background st0 s) as Hpt.
  { eapply sys_run_cmd_point; [|exact Hrun]. by apply CpStart. }
  destruct Hpt as
    [Hc Hs|Hc Hs|Hc Hs|pid Hpos Hbg Hk Hc Hs|pid Hpos Hbg Hk Hc Hs
    |pid Hpos Hbg Hk Hc Hs|pid Hpos Hbg Hk Hc Hs
    |pid ut stime Hpos Hbg Hk Hcs|pid ut stime Hpos Hbg Hk Hc Hs];
    try (rewrite Hret in Hc; discriminate Hc).
  - left. rewrite Hs. unfold complained, launched, logged.
    rewrite with_log_with_log. cbn [log with_log]. by rewrite <- app_assoc.
  - right. left. exists pid. split_and!; try done.
    rewrite Hs. unfold announced, launched, logged.
    rewrite with_log_with_log. cbn [log with_log]. by rewrite <- app_assoc.
  - rewrite Hret in Hcs.
    destruct Hcs as [[Hc _]|[[Hc _]|[[Hc _]|[Hc _]]]]; discriminate Hc.
  - right. right. exists pid, ut, stime. rewrite Hs.
    split_and!; try done. cbn. by rewrite <- !app_assoc.
Qed.

Lemma execute_command_returns_three_ways_witness :
  ∃ s, sys_run fg_ticks fg_start = Some s
       ∧ total_user_time (mem (sh_state s)) = 3
       ∧ total_sys_time (mem (sh_state s)) = 1.
Proof.
  assert ((λ s, (has_returned (sh_code s), log (sh_state s)))
            <$> sys_run fg_ticks fg_start
          = Some (true, [EvAct SysFork 4242; EvAct (SysWaitpid 4242) 4242;
                         EvGetrusage 3 1]))
    as Hobs by (vm_compute; reflexivity).
  destruct (sys_run fg_ticks fg_start) as [s|] eqn:Hrun; [|discriminate Hobs].
  injection Hobs as Hret Hlog'. exists s. split; [reflexivity|].
  destruct (sh_code s) as [[]| | | | | | |] eqn:Hc; try discriminate Hret.
  destruct (execute_command_returns_three_ways _ _ _ _ _ _ _ Hrun Hc)
    as [Hs|[(pid & _ & Hbg & _)|(pid & ut & stime & _ & _ & _ & Hlog & Hu & Hsy & _)]].
  - exfalso. rewrite Hs in Hlog'. discriminate Hlog'.
  - by exfalso.
  - rewrite Hlog in Hlog'. cbn in Hlog'. simplify_eq.
    split; [exact Hu|exact Hsy].
Defined.


(** X13.  The shell never waits for a child it has left behind.  A
    child that has not been waited for when a turn of the loop begins (a
    background command, or the first stage of a pipeline whose second
    [fork] failed) is not waited for in the rest of the session, whatever
    the user types and whenever children terminate: the shell only waits
    for the process its latest [fork] has returned, there is no
    [waitpid(-1)] and no handler of SIGCHLD.  Such a child stays a zombie
    once it has terminated. *)
Theorem children_left_behind_are_never_reaped p ts s s' :
  0 < p → between_commands s → lingers (kids s) p →
  session_run ts s = Some s' →
  lingers (kids s') p
  ∧ ∀ k, sh_code s' ≠ Act (SysWaitpid p) k.
Proof.
  intros Hpos Hcode Hp Hrun.
  destruct (session_run_spares p ts s s' Hpos Hp) as [Hp' Hob']; [|done|].
  { destruct Hcode as [-> | ->]; [apply main_body_spares|apply ObRet]. }
  split; [done|]. intros k Hc. rewrite Hc in Hob'.
  inversion Hob' as [| | |a k' Ha| | | |]. by apply Ha.
Qed.

Lemma children_left_behind_are_never_reaped_witness :
  ∃ s', session_run later_command with_a_zombie = Some s'
        ∧ has_returned (sh_code s') = true
        ∧ lingers (kids s') 4242.
Proof.
  assert ((λ s, has_returned (sh_code s)) <$> session_run later_command with_a_zombie
          = Some true) as Hobs by (vm_compute; reflexivity).
  destruct (session_run later_command with_a_zombie) as [s'|] eqn:Hrun;
    [|discriminate Hobs].
  injection Hobs as Hret. exists s'. split; [reflexivity|]. split; [exact Hret|].
  refine (proj1 (children_left_behind_are_never_reaped 4242 later_command
                   with_a_zombie s' _ _ _ Hrun)).
  - reflexivity.
  - left. reflexivity.
  - eexists. split; [reflexivity|]. discriminate.
Defined.


(** X14.  The descriptors a redirected command starts with.  Every
    descriptor other than 0 and 1 is what it was in the shell: the
    descriptor [open] returned is closed again and nothing else is
    touched.  With a [>], descriptor 1 is the file opened, unless [open]
    returned 1 itself (the shell runs with descriptor 0 open and 1
    closed): then [dup2] changes nothing, [close] closes it, and the
    command starts with descriptor 1 closed.  Likewise with a [<] that
    the input scan meets: descriptor 0 is the file opened, unless
    descriptor 0 was closed in the shell, and then it is closed in the
    command. *)
Theorem redirection_binds_and_closes w st toks rest file args st' :
  run_prog w (execute_command_child (vec toks rest)) st = OExec file args st' →
  (∀ fd, fd ≠ STDIN_FILENO → fd ≠ STDOUT_FILENO → fds st' !! fd = fds st !! fd)
  ∧ fds st' !! STDOUT_FILENO =
      match first_index ">" toks with
      | None => fds st !! STDOUT_FILENO
      | Some i =>
          if decide (lowest_free (fds st) = STDOUT_FILENO) then None
          else Some (FFile (toks !! S i) OUTPUT_FLAGS)
      end
  ∧ fds st' !! STDIN_FILENO =
      match first_index "<" (cut_at ">" toks) with
      | None => fds st !! STDIN_FILENO
      | Some j =>
          match fds st !! STDIN_FILENO with
          | None => None
          | Some _ => Some (FFile (cut_at ">" toks !! S j) O_RDONLY)
          end
      end.
Proof.
  rewrite child_run_eq. unfold child_on_tokens.
  destruct (redirect_stage w ">" _ _ _ toks st) as [[toks1 st1]|] eqn:E1; [|done].
  pose proof (redirect_stage_tokens _ _ _ _ _ _ _ _ _ E1) as ->.
  apply redirect_stage_fds in E1 as [Hkeep1 Hout].
  destruct (redirect_stage w "<" _ _ _ _ st1) as [[toks2 st2]|] eqn:E2; [|done].
  apply redirect_stage_fds in E2 as [Hkeep2 Hin].
  intros Hexec. pose proof (exec_on_tokens_fds w toks2 st2) as Hfds.
  rewrite Hexec in Hfds. cbn [final_state] in Hfds. rewrite Hfds.
  split_and!.
  - intros fd H0 H1. by rewrite Hkeep2, Hkeep1.
  - by rewrite Hkeep2.
  - rewrite Hin. destruct (first_index "<" (cut_at ">" toks)) as [j|];
      [|by apply Hkeep1].
    assert (fds st !! STDIN_FILENO = fds st1 !! STDIN_FILENO) as ->
      by (symmetry; by apply Hkeep1).
    unfold STDIN_FILENO.
    destruct (decide (lowest_free (fds st1) = 0)) as [Hz|Hnz].
    + apply lowest_free_zero in Hz. by rewrite Hz.
    + destruct (fds st1 !! 0) eqn:E; [done|].
      by apply lowest_free_zero in E.
Qed.

Lemma redirection_binds_and_closes_witness :
  let st := with_fds boot_state (delete 1 (fds boot_state)) in
  ∃ st', run_prog helpful_world
           (execute_command_child (vector_of ["ls"; ">"; "out"]%string)) st
         = OExec "ls" ["ls"%string] st'
         ∧ fds st' !! STDOUT_FILENO = None ∧ fds st' !! 3 = None.
Proof.
  intros st.
  assert (∃ st', run_prog helpful_world
            (execute_command_child (vec ["ls"; ">"; "out"]%string [])) st
          = OExec "ls" ["ls"%string] st') as [st' Hrun]
    by (eexists; reflexivity).
  exists st'. split; [exact Hrun|].
  destruct (redirection_binds_and_closes _ _ _ _ _ _ _ Hrun) as (Hkeep & Hout & _).
  split; [rewrite Hout; reflexivity|]. rewrite Hkeep by done. reflexivity.
Defined.


(** X15.  Redirections and launches act on the child only.  While the
    shell runs a line without a bar, whatever its tokens (a built-in, a
    command in the foreground or in the background, with or without
    redirections), and whatever happens around it, the shell's own
    descriptor table is what it was: the shell itself calls neither
    [open] nor [dup2] nor [close]. *)
Theorem a_single_command_keeps_the_shells_descriptors tokens st0 kids0 dl0 ts s :
  sys_run ts {| sh_code := run_tokens tokens; sh_state := st0;
                kids := kids0; delivered := dl0 |} = Some s →
  fds (sh_state s) = fds st0
  ∧ ∀ path flags mode oldfd newfd fd k,
      sh_code s ≠ Act (SysOpen path flags mode) k
      ∧ sh_code s ≠ Act (SysDup2 oldfd newfd) k
      ∧ sh_code s ≠ Act (SysClose fd) k.
Proof.
  intros Hrun.
  assert (holds keeps_table (λ st, fds st = fds st0) s) as [Hfds Hob].
  { eapply (sys_run_holds keeps_table (λ st, fds st = fds st0));
      [..| |exact Hrun]; try done.
    - intros w st a st' r. apply keeps_table_act_sound.
    - split; [done|apply run_tokens_keeps_table]. }
  split; [done|]. intros path flags mode oldfd newfd fd k.
  split_and!; intros Hc; rewrite Hc in Hob;
    inversion Hob as [| | |a k' Ha| | | |]; done.
Qed.

Lemma a_single_command_keeps_the_shells_descriptors_witness :
  ∃ s, sys_run fg_ticks
         {| sh_code := run_tokens (vector_of ["make"; ">"; "log"; "<"; "in"]%string);
            sh_state := boot_state; kids := ∅; delivered := [] |} = Some s
       ∧ has_returned (sh_code s) = true
       ∧ fds (sh_state s) = fds boot_state.
Proof.
  assert ((λ s, has_returned (sh_code s)) <$>
          sys_run fg_ticks
            {| sh_code := run_tokens (vector_of ["make"; ">"; "log"; "<"; "in"]%string);
               sh_state := boot_state; kids := ∅; delivered := [] |}
          = Some true) as Hobs by (vm_compute; reflexivity).
  destruct (sys_run fg_ticks _) as [s|] eqn:Hrun; [|discriminate Hobs].
  injection Hobs as Hret. exists s. split; [reflexivity|]. split; [exact Hret|].
  exact (proj1 (a_single_command_keeps_the_shells_descriptors _ _ _ _ _ _ Hrun)).
Defined.


(** X16.  [is_background_process] on a null-terminated vector: the scan
    stays inside the vector; without a token [&] in front of the first
    NULL it returns 0 and the vector is untouched; it writes at most one
    slot, so the vector keeps its length and its NULL; and a second scan
    of the vector it leaves finds no marker. *)
Theorem background_scan_cuts_once toks rest :
  is_background_process (vec toks rest)
  = Some (match first_index "&" toks with
          | Some i => (<[i := None]> (vec toks rest), 1)
          | None => (vec toks rest, 0)
          end)
  ∧ ∀ args b,
      is_background_process (vec toks rest) = Some (args, b) →
      length args = length (vec toks rest)
      ∧ null_terminated args
      ∧ strings_until_null args = Some (cut_at "&" toks)
      ∧ is_background_process args = Some (args, 0).
Proof.
  assert (is_background_process (vec toks rest)
          = Some (match first_index "&" toks with
                  | Some i => (<[i := None]> (vec toks rest), 1)
                  | None => (vec toks rest, 0)
                  end)) as Hscan.
  { unfold is_background_process. rewrite scan_vec.
    by destruct (first_index "&" toks). }
  split; [done|]. intros args b. rewrite Hscan. unfold cut_at.
  destruct (first_index "&" toks) as [i|] eqn:Hi; intros [= <- <-].
  - pose proof Hi as (Htok & Hnot & Hlt)%first_index_Some.
    split; [apply length_insert|]. rewrite vec_insert by done. split_and!.
    + apply null_terminated_vec. by eexists _, _.
    + apply strings_until_null_vec.
    + unfold is_background_process. rewrite scan_vec.
      assert (first_index "&" (take i toks) = None) as ->; [|done].
      by apply first_index_None.
  - split_and!; [done| |apply strings_until_null_vec|].
    + apply null_terminated_vec. by eexists _, _.
    + unfold is_background_process. by rewrite scan_vec, Hi.
Qed.

Lemma background_scan_cuts_once_witness :
  is_background_process (vector_of ["make"; "-j4"]%string)
  = Some (vector_of ["make"; "-j4"]%string, 0)
  ∧ strings_until_null (<[1%nat := None]> (vector_of ["a"; "&"; "b"; "&"]%string))
    = Some ["a"%string].
Proof.
  split; [reflexivity|].
  destruct (background_scan_cuts_once ["a"; "&"; "b"; "&"]%string []) as [Hscan Hafter].
  destruct (Hafter _ _ Hscan) as (_ & _ & Hstr & _). exact Hstr.
Defined.


(** X17.  Commands without a command.  [main] skips a line without
    tokens, but nothing checks that a token is left to execute once the
    operators have cut the vector: a line that begins with [>] has its
    file created and truncated and then hands a null pointer to [execvp];
    so does a line that begins with [&], and so does a stage of a pipeline
    whose side of the bar is blank.  In each case the child stops on the
    null pointer and no program runs. *)
Theorem launching_nothing_hands_null_to_execvp w st :
  (∀ name more rest,
     can_open w (Some name) OUTPUT_FLAGS = true →
     ∃ st', run_prog w (execute_command_child (vec (">" :: name :: more) rest)) st
            = OFault NullDeref st'
            ∧ fds st' !! lowest_free (fds st) = None
            ∧ log st' = log st ++
                [EvAct (SysOpen (Some name) OUTPUT_FLAGS (Some MODE_0644))
                       (lowest_free (fds st));
                 EvAct (SysDup2 (lowest_free (fds st)) STDOUT_FILENO) STDOUT_FILENO;
                 EvAct (SysClose (lowest_free (fds st))) 0])
  ∧ (∀ more,
       run_tokens (vector_of ("&" :: more))
       = execute_command (vec [] (vector_of more)) 1
       ∧ run_prog w (execute_command_child (vec [] (vector_of more))) st
         = OFault NullDeref st)
  ∧ (∀ cmd rd wr child,
       alloc_ok w = true → strtok_all cmd = [] →
       child = pipe_child1 cmd rd wr ∨ child = pipe_child2 cmd rd wr →
       ∃ st', run_prog w child st = OFault NullDeref st').
Proof.
  split_and!.
  - intros name more rest Hopen. rewrite child_run_eq.
    unfold child_on_tokens, redirect_stage.
    cbn [first_index String.eqb Ascii.eqb Bool.eqb lookup list_lookup].
    rewrite Hopen. cbn [take first_index exec_on_tokens].
    eexists. split; [reflexivity|]. split.
    + rewrite after_bind_fds. apply lookup_delete_eq.
    + rewrite after_bind_log, after_open_log. by rewrite <- app_assoc.
  - intros more. split.
    + rewrite run_tokens_vector. cbn [String.eqb Ascii.eqb Bool.eqb].
      done.
    + by rewrite child_run_eq.
  - intros cmd rd wr child Halloc Htoks [->| ->].
    + unfold pipe_child1, call. cbn [run_prog do_act].
      destruct (fds (logged _ _) !! wr) as [o|]; cbn [run_prog do_act];
        rewrite run_split_line_count, vector_of_vec, run_exec_or_die, Htoks by done;
        by eexists.
    + unfold pipe_child2, call. cbn [run_prog do_act].
      destruct (fds (logged _ _) !! rd) as [o|]; cbn [run_prog do_act];
        rewrite run_split_line_count, vector_of_vec, run_exec_or_die, Htoks by done;
        by eexists.
Qed.

Lemma launching_nothing_hands_null_to_execvp_witness :
  (∃ st', run_prog helpful_world
            (execute_command_child (vector_of [">"; "notes.txt"]%string)) boot_state
          = OFault NullDeref st'
          ∧ log st' =
              [EvAct (SysOpen (Some "notes.txt"%string) OUTPUT_FLAGS (Some MODE_0644)) 3;
               EvAct (SysDup2 3 STDOUT_FILENO) STDOUT_FILENO;
               EvAct (SysClose 3) 0])
  ∧ is_pipe "ls | " = Some ("ls "%string, " "%string)
  ∧ ∃ st', run_prog helpful_world (pipe_child2 " " 3 4) (piped boot_state)
           = OFault NullDeref st'.
Proof.
  destruct (launching_nothing_hands_null_to_execvp helpful_world boot_state)
    as (Hout & _ & _).
  destruct (launching_nothing_hands_null_to_execvp helpful_world (piped boot_state))
    as (_ & _ & Hstage).
  split_and!.
  - destruct (Hout "notes.txt"%string [] [] eq_refl) as (st' & Hrun & _ & Hlog).
    exists st'. split; [exact Hrun|]. rewrite Hlog. reflexivity.
  - reflexivity.
  - exact (Hstage " "%string 3 4 _ eq_refl eq_refl (or_intror eq_refl)).
Defined.


(** X18.  [main] installs its two handlers before the first prompt, and
    nothing the loop does afterwards installs or removes a handler: at
    every moment of the session SIGINT and SIGTSTP are caught by the
    shell's own functions. *)
Theorem handlers_stay_installed :
  (∀ w st0, ∃ st1,
     run_prog w main_init st0 = ODone tt st1
     ∧ handlers st1
       = <[SIGTSTP := H_sigtstp]> (<[SIGINT := H_sigint]> (handlers st0)))
  ∧ (∀ ts s s',
       between_commands s → session_run ts s = Some s' →
       handlers (sh_state s') = handlers (sh_state s)).
Proof.
  split.
  - intros w st0. eexists. split; [reflexivity|done].
  - intros ts s s' Hcode Hrun.
    assert (holds keeps_handlers (λ st, handlers st = handlers (sh_state s)) s')
      as [Hh _]; [|done].
    eapply (session_run_holds keeps_handlers
              (λ st, handlers st = handlers (sh_state s)) (λ _, True));
      [..| |exact Hrun]; try done.
    + intros w st a st' r _ Ha Hst Hact. split; [done|].
      by eapply keeps_handlers_act_sound.
    + intros w st. unfold do_pipe. by destruct (pipe_ok w).
    + apply main_body_keeps_handlers.
    + by apply Forall_true.
    + split; [done|].
      destruct Hcode as [-> | ->]; [apply main_body_keeps_handlers|apply ObRet].
Qed.

Lemma handlers_stay_installed_witness :
  ∃ s', session_run later_command with_a_zombie = Some s'
        ∧ handlers (sh_state s') !! SIGINT = Some H_sigint
        ∧ handlers (sh_state s') !! SIGTSTP = Some H_sigtstp.
Proof.
  assert ((λ s, has_returned (sh_code s)) <$> session_run later_command with_a_zombie
          = Some true) as Hobs by (vm_compute; reflexivity).
  destruct (session_run later_command with_a_zombie) as [s'|] eqn:Hrun;
    [|discriminate Hobs].
  exists s'. split; [reflexivity|].
  rewrite (proj2 handlers_stay_installed later_command with_a_zombie s'
             (or_introl eq_refl) Hrun).
  split; reflexivity.
Defined.


(** X19.  A pipeline that has launched both its stages leaves the shell
    as it found it: when [execute_pipe] has returned, the shell's
    descriptor table is exactly what it was before the [pipe] (the two
    descriptors of the pipe were free before and are closed again), its
    directory and its handlers are unchanged, and so are its globals: no
    CPU time is added to the totals for the stages of a pipeline. *)
Theorem pipeline_leaves_the_shell_as_it_was cmd1 cmd2 st0 kids0 dl0 ts s :
  Forall resources_last (shell_worlds ts) →
  sys_run ts {| sh_code := execute_pipe cmd1 cmd2; sh_state := st0;
                kids := kids0; delivered := dl0 |} = Some s →
  sh_code s = Ret tt →
  fds (sh_state s) = fds st0
  ∧ cwd (sh_state s) = cwd st0
  ∧ handlers (sh_state s) = handlers st0
  ∧ mem (sh_state s) = mem st0
  ∧ pipes_made (sh_state s) = S (pipes_made st0).
Proof.
  intros Hws Hrun Hret.
  assert (pipe_point cmd1 cmd2 st0 s) as Hpt.
  { eapply sys_run_pipe_point; [exact Hws| |exact Hrun]. by apply PpStart. }
  destruct Hpt as
    [Hc Hs|Hc Hs|p1 H1 Hc Hs Hk1|p1 p2 H1 H2 Hne Hk1 Hk2 Hcs
    |p1 p2 H1 H2 Hne Hk1 Hk2 Hc Hs|p1 p2 H1 H2 Hne Hk1 Hk2 Hc Hs];
    try (rewrite Hret in Hc; discriminate Hc).
  { rewrite Hret in Hcs. destruct Hcs as [[Hc _]|[[Hc _]|[Hc _]]]; discriminate Hc. }
  rewrite Hs. split_and!; try done.
  rewrite both_reaped_fds.
  destruct (piped_holds_both_ends st0) as (_ & _ & Hne' & Hfrd & Hfwr).
  unfold piped. cbn [fds logged with_log with_pipes_made with_fds].
  fold (pipe_rd st0). fold (pipe_wr st0).
  rewrite (delete_insert_ne _ (pipe_rd st0) (pipe_wr st0)) by done.
  rewrite (delete_insert_id _ (pipe_rd st0)) by done.
  by apply delete_insert_id.
Qed.

Lemma pipeline_leaves_the_shell_as_it_was_witness :
  ∃ s, sys_run pipe_ticks pipe_start = Some s
       ∧ fds (sh_state s) = fds armed_state ∧ mem (sh_state s) = initial_globals.
Proof.
  assert ((λ s, has_returned (sh_code s)) <$> sys_run pipe_ticks pipe_start
          = Some true) as Hobs by (vm_compute; reflexivity).
  destruct (sys_run pipe_ticks pipe_start) as [s|] eqn:Hrun; [|discriminate Hobs].
  injection Hobs as Hret. exists s. split; [reflexivity|].
  destruct (sh_code s) as [[]| | | | | | |] eqn:Hc; try discriminate Hret.
  destruct (pipeline_leaves_the_shell_as_it_was "ls -l " " wc -l" armed_state ∅ []
              pipe_ticks s) as (Hfds & _ & _ & Hmem & _).
  - repeat constructor; by eexists.
  - exact Hrun.
  - exact Hc.
  - split; [exact Hfds|exact Hmem].
Defined.


(** X20.  A program that cannot be executed is reported by the child.
    For a single command whose name, the first token in front of the
    redirection operators, names no program the system can execute, and
    for either stage of a pipeline whose first token names none: the
    process that was forked for it ends with [exit(EXIT_FAILURE)], and the
    last thing it has done before is [perror("dragonshell")]. *)
Theorem launch_failure_is_reported_by_the_child :
  (∀ w st toks rest file,
     head (before_operators toks) = Some file →
     can_exec w file (before_operators toks) = false →
     ∃ st', run_prog w (execute_command_child (vec toks rest)) st
            = OExit EXIT_FAILURE st'
            ∧ last (log st') = Some (EvAct (SysPerror "dragonshell") 0))
  ∧ (∀ w st cmd rd wr file child,
       alloc_ok w = true → head (strtok_all cmd) = Some file →
       can_exec w file (strtok_all cmd) = false →
       child = pipe_child1 cmd rd wr ∨ child = pipe_child2 cmd rd wr →
       ∃ st', run_prog w child st = OExit EXIT_FAILURE st'
              ∧ last (log st') = Some (EvAct (SysPerror "dragonshell") 0)).
Proof.
  split.
  - intros w st toks rest file Hfile Hexec. rewrite child_run_eq.
    by eapply child_on_tokens_failed.
  - intros w st cmd rd wr file child Halloc Hfile Hexec [-> | ->];
      unfold pipe_child1, pipe_child2, call; cbn [run_prog do_act].
    + destruct (fds _ !! wr); cbn [run_prog do_act]; by eapply pipe_stage_failed.
    + destruct (fds _ !! rd); cbn [run_prog do_act]; by eapply pipe_stage_failed.
Qed.

Lemma launch_failure_is_reported_by_the_child_witness :
  head (before_operators ["nosuchprogram"; "-x"; ">"; "out"]%string)
  = Some "nosuchprogram"%string
  ∧ ∃ st', run_prog barren_world
             (execute_command_child (vec ["nosuchprogram"; "-x"; ">"; "out"] []))
             boot_state
           = OExit EXIT_FAILURE st'
           ∧ last (log st') = Some (EvAct (SysPerror "dragonshell") 0).
Proof.
  split; [reflexivity|].
  destruct launch_failure_is_reported_by_the_child as (Hchild & _).
  apply (Hchild barren_world boot_state ["nosuchprogram"; "-x"; ">"; "out"]%string []
           "nosuchprogram"%string); reflexivity.
Defined.

(** X21.  What can end the interpreter.  In every session, whatever the
    user types and whatever fails, the interpreter itself never reads a
    slot outside an argument vector: [tokens[0]], [tokens[1]] for [cd]
    and the scan for [&] stay within what the tokenizer has returned, and
    the reads that can leave a vector are on the child's side of [fork].
    And as long as neither the allocator nor the line reader fails,
    whenever the interpreter is at an exit the status is 0 and the line it
    has read last is the end of the input or begins with [exit]: no
    failure of a launch, a redirection, a [fork], a [pipe] or a built-in
    makes the interpreter exit. *)
Theorem interpreter_stays_in_bounds_and_exits_on_request st0 kids0 dl0 ts s :
  session_run ts {| sh_code := main_init; sh_state := st0;
                    kids := kids0; delivered := dl0 |} = Some s →
  (∀ why, sh_code s ≠ Fault why)
  ∧ (Forall no_failures (shell_worlds ts) →
     ∀ c, sh_code s = Exit c →
          c = EXIT_SUCCESS ∧ asks_to_exit (last_line (log (sh_state s)))).
Proof.
  intros Hrun. split.
  - intros why Hc.
    assert (steady (sh_code s)) as Hst.
    { eapply session_run_steady; [|exact Hrun]. apply steady_main_init. }
    rewrite Hc in Hst. inversion Hst.
  - intros Hws c Hexit.
    assert (obeys session_policy (last_line (log (sh_state s))) (sh_code s)) as Hob.
    { eapply session_run_obeys; [done| |exact Hrun]. apply main_init_session. }
    rewrite Hexit in Hob. inversion Hob as [| |c' Hc| | | | |]. exact Hc.
Qed.

Lemma interpreter_stays_in_bounds_and_exits_on_request_witness :
  ∃ s, session_run mistyped_command booting = Some s
       ∧ has_returned (sh_code s) = true
       ∧ ∀ why, sh_code s ≠ Fault why.
Proof.
  assert ((λ s, has_returned (sh_code s)) <$> session_run mistyped_command booting
          = Some true) as Hobs by (vm_compute; reflexivity).
  destruct (session_run mistyped_command booting) as [s|] eqn:Hrun;
    [|discriminate Hobs].
  injection Hobs as Hret. exists s. split; [reflexivity|]. split; [exact Hret|].
  exact (proj1 (interpreter_stays_in_bounds_and_exits_on_request _ _ _ _ _ Hrun)).
Defined.
